(** * Herramienta-HV: the document-structuring engine

    A shallow embedding of [estructurar_cv.py], [nlp_spacy.py],
    [seccionesHV_nlp.py], [limpiar.py] and [parser_funcion_publica.py].

    Python strings are sequences of Unicode code points; a code point is
    an [N].  Everything Python decides on ASCII is written out; what the
    interpreter's Unicode database decides on other code points is read
    from a record [UCD], so the statements hold for whatever the database
    of the running interpreter says. *)

From Stdlib Require Import String Ascii.
From Stdlib Require Import List NArith ZArith Bool Arith Lia.
Import ListNotations.

Set Implicit Arguments.

(* ------------------------------------------------------------------ *)
(** ** Python values: strings, exceptions *)

Definition pystr := list N.

(** Source literals are written as Rocq strings and decoded from UTF-8. *)
Fixpoint utf8 (bs : list N) : pystr :=
  match bs with
  | [] => []
  | b0 :: t0 =>
    if (b0 <? 128)%N then b0 :: utf8 t0
    else if (b0 <? 224)%N then
      match t0 with
      | b1 :: t1 => ((b0 mod 32) * 64 + b1 mod 64)%N :: utf8 t1
      | _ => []
      end
    else if (b0 <? 240)%N then
      match t0 with
      | b1 :: b2 :: t2 =>
          ((b0 mod 16) * 4096 + (b1 mod 64) * 64 + b2 mod 64)%N :: utf8 t2
      | _ => []
      end
    else
      match t0 with
      | b1 :: b2 :: b3 :: t3 =>
          ((b0 mod 8) * 262144 + (b1 mod 64) * 4096
           + (b2 mod 64) * 64 + b3 mod 64)%N :: utf8 t3
      | _ => []
      end
  end.

Definition u (s : string) : pystr :=
  utf8 (map N_of_ascii (list_ascii_of_string s)).

Inductive exn : Type :=
| ValueError
| IndexError
| KeyError
| AttributeError
| TypeError
| ZeroDivisionError
| OverflowError.

Inductive py (A : Type) : Type :=
| Ok (a : A)
| Raise (e : exn).

Arguments Ok {A} a.
Arguments Raise {A} e.

Definition bind {A B} (m : py A) (f : A -> py B) : py B :=
  match m with
  | Ok a => f a
  | Raise e => Raise e
  end.

Notation "x <- m ;; k" := (bind m (fun x => k))
  (at level 61, m at next level, right associativity).

(** [try: body except Exception: handler] *)
Definition try_except {A} (body : py A) (handler : exn -> py A) : py A :=
  match body with
  | Ok a => Ok a
  | Raise e => handler e
  end.

(** [l[i]] on a list. *)
Definition py_index {A} (l : list A) (i : nat) : py A :=
  match nth_error l i with
  | Some a => Ok a
  | None => Raise IndexError
  end.

(** Truthiness of [str], [list] and [Optional[str]] values. *)
Definition truthy {A} (l : list A) : bool :=
  match l with [] => false | _ => true end.

Definition truthy_opt (o : option pystr) : bool :=
  match o with Some s => truthy s | None => false end.

(* ------------------------------------------------------------------ *)
(** ** The Unicode database *)

Record UCD : Type := {
  isdecimal_ext : N -> bool;   (* Py_UNICODE_ISDECIMAL *)
  decimal_ext : N -> Z;        (* Py_UNICODE_TODECIMAL *)
  isspace_ext : N -> bool;     (* Py_UNICODE_ISSPACE *)
  isalnum_ext : N -> bool;     (* Py_UNICODE_ISALNUM *)
  isupper_ext : N -> bool;     (* Py_UNICODE_ISUPPER *)
  islower_ext : N -> bool;     (* Py_UNICODE_ISLOWER or ISTITLE *)
  ieq_ext : N -> N -> bool;    (* sre: pattern letter against a character, IGNORECASE *)
  lower_ext : pystr -> pystr;  (* str.lower of a string that is not ASCII *)
  upper_ext : pystr -> pystr;  (* str.upper likewise *)
  capitalize_ext : pystr -> pystr;
  nfkd_ext : pystr -> pystr    (* unicodedata.normalize("NFKD", _) likewise *)
}.

Definition is_ascii (c : N) : bool := (c <? 128)%N.

Definition in_range (lo hi c : N) : bool := ((lo <=? c) && (c <=? hi))%N.

Definition ascii_isupper (c : N) : bool := in_range 65 90 c.
Definition ascii_islower (c : N) : bool := in_range 97 122 c.

Definition ascii_lower (c : N) : N :=
  if ascii_isupper c then (c + 32)%N else c.

Definition ascii_upper (c : N) : N :=
  if ascii_islower c then (c - 32)%N else c.

Section Unicode.

Variable db : UCD.

Definition isdecimal (c : N) : bool :=
  if is_ascii c then in_range 48 57 c else isdecimal_ext db c.

Definition isspace (c : N) : bool :=
  if is_ascii c then in_range 9 13 c || in_range 28 32 c
  else isspace_ext db c.

Definition isalnum (c : N) : bool :=
  if is_ascii c
  then in_range 48 57 c || ascii_isupper c || ascii_islower c
  else isalnum_ext db c.

(** [\w] *)
Definition isword (c : N) : bool := isalnum c || (c =? 95)%N.

Definition todecimal (c : N) : Z :=
  if is_ascii c then Z.of_N c - 48 else decimal_ext db c.

(** [int(s)] on a string of decimal digits. *)
Definition int_of_digits (s : pystr) : Z :=
  fold_left (fun acc c => 10 * acc + todecimal c)%Z s 0%Z.

Definition lower (s : pystr) : pystr :=
  if forallb is_ascii s then map ascii_lower s else lower_ext db s.

Definition upper (s : pystr) : pystr :=
  if forallb is_ascii s then map ascii_upper s else upper_ext db s.

Definition capitalize (s : pystr) : pystr :=
  if forallb is_ascii s then
    match s with
    | [] => []
    | c :: t => ascii_upper c :: map ascii_lower t
    end
  else capitalize_ext db s.

Definition cp_isupper (c : N) : bool :=
  if is_ascii c then ascii_isupper c else isupper_ext db c.

Definition cp_islower (c : N) : bool :=
  if is_ascii c then ascii_islower c else islower_ext db c.

(** [str.isupper]: no lower-case character and at least one upper-case one. *)
Definition str_isupper (s : pystr) : bool :=
  negb (existsb cp_islower s) && existsb cp_isupper s.

(** [str.strip()] *)
Fixpoint lstrip (s : pystr) : pystr :=
  match s with
  | c :: t => if isspace c then lstrip t else s
  | [] => []
  end.

Definition rstrip (s : pystr) : pystr := rev (lstrip (rev s)).

Definition strip (s : pystr) : pystr := rstrip (lstrip s).

(** [str.split()] with no argument: runs of whitespace separate the words. *)
Fixpoint split_ws_aux (s : pystr) (cur : pystr) : list pystr :=
  match s with
  | [] => match cur with [] => [] | _ => [rev cur] end
  | c :: t =>
      if isspace c
      then match cur with
           | [] => split_ws_aux t []
           | _ => rev cur :: split_ws_aux t []
           end
      else split_ws_aux t (c :: cur)
  end.

Definition split_ws (s : pystr) : list pystr := split_ws_aux s [].

End Unicode.

(* ------------------------------------------------------------------ *)
(** ** String methods that do not consult the database *)

Fixpoint str_eqb (a b : pystr) : bool :=
  match a, b with
  | [], [] => true
  | x :: a', y :: b' => (x =? y)%N && str_eqb a' b'
  | _, _ => false
  end.

(** [a < b] on [str]: lexicographic on code points. *)
Fixpoint str_ltb (a b : pystr) : bool :=
  match a, b with
  | [], [] => false
  | [], _ :: _ => true
  | _ :: _, [] => false
  | x :: a', y :: b' =>
      if (x <? y)%N then true
      else if (y <? x)%N then false
      else str_ltb a' b'
  end.

Definition str_leb (a b : pystr) : bool := negb (str_ltb b a).

Fixpoint starts_with (p s : pystr) : bool :=
  match p, s with
  | [], _ => true
  | _ :: _, [] => false
  | x :: p', y :: s' => (x =? y)%N && starts_with p' s'
  end.

(** [sub in s] *)
Fixpoint contains (sub s : pystr) : bool :=
  starts_with sub s ||
  match s with
  | [] => false
  | _ :: t => contains sub t
  end.

(** [s.find(sub)], [None] for -1. *)
Fixpoint find_from (sub s : pystr) (i : nat) : option nat :=
  if starts_with sub s then Some i
  else match s with
       | [] => None
       | _ :: t => find_from sub t (S i)
       end.

Definition find (sub s : pystr) : option nat := find_from sub s 0.

Definition mem_cp (c : N) (cs : pystr) : bool := existsb (N.eqb c) cs.

(** [s.strip(chars)] *)
Fixpoint lstrip_chars (cs s : pystr) : pystr :=
  match s with
  | c :: t => if mem_cp c cs then lstrip_chars cs t else s
  | [] => []
  end.

Definition strip_chars (cs s : pystr) : pystr :=
  rev (lstrip_chars cs (rev (lstrip_chars cs s))).

(** The string ["\n"]. *)
Definition NL : pystr := [10%N].

(** [s.split(sep)] for a one-character separator. *)
Fixpoint split_on (sep : N) (s : pystr) : list pystr :=
  match s with
  | [] => [[]]
  | c :: t =>
      if (c =? sep)%N then [] :: split_on sep t
      else match split_on sep t with
           | l :: ls => (c :: l) :: ls
           | [] => [[c]]
           end
  end.

(** [sep.join(parts)] *)
Fixpoint join (sep : pystr) (parts : list pystr) : pystr :=
  match parts with
  | [] => []
  | [p] => p
  | p :: ps => p ++ sep ++ join sep ps
  end.

(** [l[from:to]] *)
Definition slice {A} (l : list A) (from to : nat) : list A :=
  firstn (to - from) (skipn from l).

(** [s.zfill(width)] *)
Definition zfill (width : nat) (s : pystr) : pystr :=
  if (width <=? length s)%nat then s
  else
    let pad := repeat 48%N (width - length s) in
    match s with
    | c :: t => if ((c =? 43) || (c =? 45))%N then c :: pad ++ t else pad ++ s
    | [] => pad
    end.

(** [list(dict.fromkeys(l))]: the first occurrence of every key, in order. *)
Fixpoint dedup_aux (seen l : list pystr) : list pystr :=
  match l with
  | [] => []
  | x :: t =>
      if existsb (str_eqb x) seen then dedup_aux seen t
      else x :: dedup_aux (x :: seen) t
  end.

Definition dict_fromkeys (l : list pystr) : list pystr := dedup_aux [] l.

(** A [dict] with [str] keys, in insertion order. *)
Definition dict (V : Type) := list (pystr * V).

Fixpoint dict_get {V} (d : dict V) (k : pystr) : option V :=
  match d with
  | [] => None
  | (k', v) :: t => if str_eqb k' k then Some v else dict_get t k
  end.

(** [d.get(k, default)] *)
Definition dict_get_or {V} (d : dict V) (k : pystr) (default : V) : V :=
  match dict_get d k with Some v => v | None => default end.

(** [d[k]] *)
Definition dict_item {V} (d : dict V) (k : pystr) : py V :=
  match dict_get d k with Some v => Ok v | None => Raise KeyError end.

(** [k in d] *)
Definition dict_has {V} (d : dict V) (k : pystr) : bool :=
  match dict_get d k with Some _ => true | None => false end.

(** [d[k] = v] *)
Fixpoint dict_set {V} (d : dict V) (k : pystr) (v : V) : dict V :=
  match d with
  | [] => [(k, v)]
  | (k', v') :: t =>
      if str_eqb k' k then (k', v) :: t else (k', v') :: dict_set t k v
  end.

(** [sorted(l, key=...)]: stable, so an element goes before the later
    elements of the same key. *)
Fixpoint insert_by {A} (key : A -> Z) (x : A) (l : list A) : list A :=
  match l with
  | [] => [x]
  | y :: t => if (key x <=? key y)%Z then x :: l else y :: insert_by key x t
  end.

Definition sorted_by {A} (key : A -> Z) (l : list A) : list A :=
  fold_right (insert_by key) [] l.

(* ------------------------------------------------------------------ *)
(** ** Regular expressions: the part of Python's [re] the program uses *)

Inductive citem : Type :=
| CChr (c : N)
| CRange (lo hi : N)
| CDigit                      (* \d *)
| CSpace                      (* \s *)
| CWord.                      (* \w *)

Inductive regex : Type :=
| REmpty
| RFail
| RChr (c : N)                (* a literal *)
| RChrI (c : N)               (* a literal under re.IGNORECASE *)
| RAny                        (* . *)
| RIn (neg : bool) (items : list citem)
| RSeq (a b : regex)
| RAlt (a b : regex)
| RRep (a : regex) (lo : nat) (hi : option nat)   (* greedy a{lo,hi} *)
| RGroup (n : nat) (a : regex)
| RWordB                      (* \b *)
| RBol                        (* ^ *)
| REol.                       (* $ *)

(** *** Parsing a pattern *)

Definition is_digit_chr (c : N) : bool := in_range 48 57 c.

Fixpoint parse_nat_aux (s : pystr) (acc : nat) : nat * pystr :=
  match s with
  | c :: t =>
      if is_digit_chr c
      then parse_nat_aux t (10 * acc + N.to_nat (c - 48))
      else (acc, s)
  | [] => (acc, s)
  end.

(** The item a backslash escape stands for inside a class. *)
Definition class_escape (c : N) : citem :=
  if (c =? 100)%N then CDigit
  else if (c =? 115)%N then CSpace
  else if (c =? 119)%N then CWord
  else if (c =? 110)%N then CChr 10
  else if (c =? 116)%N then CChr 9
  else CChr c.

Definition item_single (i : citem) : option N :=
  match i with CChr c => Some c | _ => None end.

(** The body of [[...]] up to the closing bracket. *)
Fixpoint parse_class (fuel : nat) (s : pystr) : option (list citem * pystr) :=
  match fuel with
  | O => None
  | S f =>
    match s with
    | [] => None
    | 93%N :: t => Some ([], t)
    | c :: t =>
        let first :=
          if (c =? 92)%N
          then match t with
               | e :: t' => Some (class_escape e, t')
               | [] => None
               end
          else Some (CChr c, t) in
        match first with
        | None => None
        | Some (i, t1) =>
            match item_single i, t1 with
            | Some lo, 45%N :: hi :: t2 =>
                if (hi =? 93)%N then
                  match parse_class f t1 with
                  | Some (l, r) => Some (i :: l, r)
                  | None => None
                  end
                else
                  let hi_t :=
                    if (hi =? 92)%N
                    then match t2 with
                         | e :: t3 => (e, t3)
                         | [] => (hi, t2)
                         end
                    else (hi, t2) in
                  match parse_class f (snd hi_t) with
                  | Some (l, r) => Some (CRange lo (fst hi_t) :: l, r)
                  | None => None
                  end
            | _, _ =>
                match parse_class f t1 with
                | Some (l, r) => Some (i :: l, r)
                | None => None
                end
            end
        end
    end
  end.

(** A quantifier after an atom, if there is one. *)
Definition parse_quant (a : regex) (s : pystr) : regex * pystr :=
  match s with
  | 63%N :: t => (RRep a 0 (Some 1), t)
  | 42%N :: t => (RRep a 0 None, t)
  | 43%N :: t => (RRep a 1 None, t)
  | 123%N :: t =>
      let '(lo, t1) := parse_nat_aux t 0 in
      match t1 with
      | 125%N :: t2 => (RRep a lo (Some lo), t2)
      | 44%N :: 125%N :: t2 => (RRep a lo None, t2)
      | 44%N :: t2 =>
          let '(hi, t3) := parse_nat_aux t2 0 in
          match t3 with
          | 125%N :: t4 => (RRep a lo (Some hi), t4)
          | _ => (a, s)
          end
      | _ => (a, s)
      end
  | _ => (a, s)
  end.

Definition escape_atom (ic : bool) (c : N) : regex :=
  if (c =? 98)%N then RWordB
  else if (c =? 100)%N then RIn false [CDigit]
  else if (c =? 115)%N then RIn false [CSpace]
  else if (c =? 119)%N then RIn false [CWord]
  else if (c =? 110)%N then RChr 10
  else if (c =? 116)%N then RChr 9
  else RChr c.

Definition literal_atom (ic : bool) (c : N) : regex :=
  if ic && (ascii_isupper c || ascii_islower c)
  then RChrI (ascii_lower c) else RChr c.

Definition rseq (a b : regex) : regex :=
  match b with REmpty => a | _ => RSeq a b end.

(** Alternation, sequence and atom; [n] is the number of the next group. *)
Fixpoint parse_alt (ic : bool) (fuel : nat) (s : pystr) (n : nat)
  : option (regex * pystr * nat) :=
  match fuel with
  | O => None
  | S f =>
    match parse_seq ic f s n with
    | Some (a, 124%N :: t, n1) =>
        match parse_alt ic f t n1 with
        | Some (b, t', n2) => Some (RAlt a b, t', n2)
        | None => None
        end
    | r => r
    end
  end
with parse_seq (ic : bool) (fuel : nat) (s : pystr) (n : nat)
  : option (regex * pystr * nat) :=
  match fuel with
  | O => None
  | S f =>
    match s with
    | [] => Some (REmpty, s, n)
    | 124%N :: _ => Some (REmpty, s, n)
    | 41%N :: _ => Some (REmpty, s, n)
    | _ =>
      match parse_atom ic f s n with
      | Some (a, t, n1) =>
          let '(a', t1) := parse_quant a t in
          match parse_seq ic f t1 n1 with
          | Some (b, t2, n2) => Some (rseq a' b, t2, n2)
          | None => None
          end
      | None => None
      end
    end
  end
with parse_atom (ic : bool) (fuel : nat) (s : pystr) (n : nat)
  : option (regex * pystr * nat) :=
  match fuel with
  | O => None
  | S f =>
    match s with
    | [] => None
    | 40%N :: t =>
        match parse_alt ic f t (S n) with
        | Some (a, 41%N :: t', n1) => Some (RGroup n a, t', n1)
        | _ => None
        end
    | 91%N :: 94%N :: t =>
        match parse_class (length t) t with
        | Some (l, t') => Some (RIn true l, t', n)
        | None => None
        end
    | 91%N :: t =>
        match parse_class (length t) t with
        | Some (l, t') => Some (RIn false l, t', n)
        | None => None
        end
    | 92%N :: c :: t => Some (escape_atom ic c, t, n)
    | 46%N :: t => Some (RAny, t, n)
    | 94%N :: t => Some (RBol, t, n)
    | 36%N :: t => Some (REol, t, n)
    | c :: t => Some (literal_atom ic c, t, n)
    end
  end.

(** [re.compile(pattern, flags)]; [ic] is [re.IGNORECASE].  A pattern that
    does not parse compiles to [RFail]; [patterns_compile] below shows that
    every pattern of the program parses. *)
Definition re_parse (ic : bool) (pat : pystr) : option regex :=
  match parse_alt ic (3 * length pat + 3) pat 1 with
  | Some (r, [], _) => Some r
  | _ => None
  end.

Definition re_compile (ic : bool) (pat : pystr) : regex :=
  match re_parse ic pat with
  | Some r => r
  | None => RFail
  end.

(** *** Matching *)

Definition caps := list (nat * pystr).

Record rmatch : Type := {
  m_start : nat;          (* m.start() *)
  m_text : pystr;         (* m.group() *)
  m_caps : caps
}.

Definition m_end (m : rmatch) : nat := m_start m + length (m_text m).

(** [m.group(n)] for a group that took part in the match. *)
Fixpoint lookup_cap (n : nat) (g : caps) : option pystr :=
  match g with
  | [] => None
  | (k, v) :: t => if (k =? n)%nat then Some v else lookup_cap n t
  end.

Definition group (m : rmatch) (n : nat) : pystr :=
  match lookup_cap n (m_caps m) with
  | Some v => v
  | None => []
  end.

Section Matcher.

Variable db : UCD.

Definition citem_mem (c : N) (i : citem) : bool :=
  match i with
  | CChr x => (c =? x)%N
  | CRange lo hi => in_range lo hi c
  | CDigit => isdecimal db c
  | CSpace => isspace db c
  | CWord => isword db c
  end.

Definition class_mem (neg : bool) (items : list citem) (c : N) : bool :=
  xorb neg (existsb (citem_mem c) items).

(** A lower-case pattern letter against a character under IGNORECASE. *)
Definition chr_ieq (p c : N) : bool :=
  if is_ascii c then (ascii_lower c =? p)%N else ieq_ext db p c.

Definition opt_isword (o : option N) : bool :=
  match o with Some c => isword db c | None => false end.

(** [\b]: exactly one side is a word character. *)
Definition at_boundary (prev : option N) (s : pystr) : bool :=
  xorb (opt_isword prev) (opt_isword (hd_error s)).

(** [$]: at the end, or before a newline that ends the string. *)
Definition at_eol (s : pystr) : bool :=
  match s with
  | [] => true
  | [10%N] => true
  | _ => false
  end.

Definition is_none {A} (o : option A) : bool :=
  match o with None => true | Some _ => false end.

Section Backtrack.

Variable R : Type.

(** A continuation receives the character before the position, the rest
    of the subject and the groups captured so far. *)
Definition kont := option N -> pystr -> caps -> option R.

Definition one_char (ok : N -> bool) (s : pystr) (g : caps) (k : kont)
  : option R :=
  match s with
  | c :: t => if ok c then k (Some c) t g else None
  | [] => None
  end.

(** The rounds of a greedy repetition whose body is matched by [body]:
    one more round while [budget] lasts, and when that fails the
    continuation, provided [lo] rounds are done.  A round that consumes
    nothing is refused. *)
Fixpoint rounds (body : option N -> pystr -> caps -> kont -> option R)
  (k : kont) (budget lo : nat) (prev : option N) (s : pystr) (g : caps)
  {struct budget} : option R :=
  let stop := match lo with O => k prev s g | S _ => None end in
  match budget with
  | O => stop
  | S b =>
      match body prev s g
              (fun p' s' g' =>
                 if (length s' <? length s)%nat
                 then rounds body k b (pred lo) p' s' g'
                 else None) with
      | Some v => Some v
      | None => stop
      end
  end.

(** The backtracking matcher: the first alternative that lets the
    continuation succeed wins, repetitions take as many rounds as they
    can before giving rounds back. *)
Fixpoint rx (r : regex) (prev : option N) (s : pystr) (g : caps) (k : kont)
  {struct r} : option R :=
  match r with
  | REmpty => k prev s g
  | RFail => None
  | RChr c => one_char (N.eqb c) s g k
  | RChrI c => one_char (chr_ieq c) s g k
  | RAny => one_char (fun c => negb (c =? 10)%N) s g k
  | RIn neg items => one_char (class_mem neg items) s g k
  | RSeq a b => rx a prev s g (fun p' s' g' => rx b p' s' g' k)
  | RAlt a b =>
      match rx a prev s g k with
      | Some v => Some v
      | None => rx b prev s g k
      end
  | RRep a lo hi =>
      rounds (rx a) k (match hi with Some h => h | None => length s end)
             lo prev s g
  | RGroup n a =>
      rx a prev s g
         (fun p' s' g' => k p' s' ((n, firstn (length s - length s') s) :: g'))
  | RWordB => if at_boundary prev s then k prev s g else None
  | RBol => if is_none prev then k prev s g else None
  | REol => if at_eol s then k prev s g else None
  end.

End Backtrack.

(** A match that starts exactly here; [must_advance] refuses the empty
    match.  The result is the groups and what is left of the subject. *)
Definition match_here (r : regex) (prev : option N) (s : pystr)
  (must_advance : bool) : option (caps * pystr) :=
  rx r prev s []
     (fun _ s' g' =>
        if must_advance && (length s' =? length s)%nat then None
        else Some (g', s')).

Definition mk_match (i : nat) (s : pystr) (res : caps * pystr) : rmatch :=
  {| m_start := i;
     m_text := firstn (length s - length (snd res)) s;
     m_caps := fst res |}.

(** The leftmost match from position [i] on. *)
Fixpoint search_from (r : regex) (prev : option N) (s : pystr) (i : nat)
  : option rmatch :=
  match match_here r prev s false with
  | Some res => Some (mk_match i s res)
  | None =>
      match s with
      | [] => None
      | c :: t => search_from r (Some c) t (S i)
      end
  end.

(** [re.search(pattern, s)] and [re.match(pattern, s)] *)
Definition re_search (r : regex) (s : pystr) : option rmatch :=
  search_from r None s 0.

Definition re_match (r : regex) (s : pystr) : option rmatch :=
  match match_here r None s false with
  | Some res => Some (mk_match 0 s res)
  | None => None
  end.

(** All matches, left to right, as the scanner of [finditer], [findall],
    [sub] and [split] finds them: after a match the search goes on where
    it ended, and after an empty match it must advance.  [skip] counts
    the characters of the last match still to be stepped over. *)
Fixpoint scan (r : regex) (prev : option N) (s : pystr) (i skip : nat)
  : list rmatch :=
  let next (k : nat) : list rmatch :=
    match s with
    | [] => []
    | c :: t => scan r (Some c) t (S i) k
    end in
  match skip with
  | S k => next k
  | O =>
      match match_here r prev s false with
      | None => next 0
      | Some res =>
          let m := mk_match i s res in
          match length (m_text m) with
          | S k => m :: next k
          | O =>
              m :: match match_here r prev s true with
                   | Some res2 =>
                       let m2 := mk_match i s res2 in
                       m2 :: next (pred (length (m_text m2)))
                   | None => next 0
                   end
          end
      end
  end.

Definition re_finditer (r : regex) (s : pystr) : list rmatch :=
  scan r None s 0 0.

(** [re.findall] for a pattern with exactly one group. *)
Definition re_findall1 (r : regex) (s : pystr) : list pystr :=
  map (fun m => group m 1) (re_finditer r s).

(** The pieces of [s] between the matches [ms], the first starting at [last]. *)
Fixpoint pieces (s : pystr) (last : nat) (ms : list rmatch) : list pystr :=
  match ms with
  | [] => [skipn last s]
  | m :: t => slice s last (m_start m) :: pieces s (m_end m) t
  end.

(** [re.sub(pattern, repl, s)] for a literal replacement. *)
Definition re_sub (r : regex) (repl s : pystr) : pystr :=
  join repl (pieces s 0 (re_finditer r s)).

(** [re.split(pattern, s, maxsplit)] for a pattern without groups;
    [maxsplit = 0] is no limit. *)
Definition re_split (r : regex) (s : pystr) (maxsplit : nat) : list pystr :=
  let ms := re_finditer r s in
  pieces s 0 (match maxsplit with O => ms | _ => firstn maxsplit ms end).

End Matcher.

Definition is_some {A} (o : option A) : bool :=
  match o with Some _ => true | None => false end.

(* ------------------------------------------------------------------ *)
(** ** estructurar_cv.py: constants *)

Definition MESES_ES : list (pystr * pystr) :=
  [ (u "enero", u "01"); (u "febrero", u "02"); (u "marzo", u "03");
    (u "abril", u "04"); (u "mayo", u "05"); (u "junio", u "06");
    (u "julio", u "07"); (u "agosto", u "08"); (u "septiembre", u "09");
    (u "octubre", u "10"); (u "noviembre", u "11"); (u "diciembre", u "12") ].

Definition SKILLS_TECNICAS : list pystr :=
  map u
    [ "niif"; "ifrs"; "nia"; "nias"; "excel"; "sap"; "siigo"; "world office";
      "contaplus"; "sql"; "power bi"; "tableau"; "iso 14001"; "iso 9001";
      "coso"; "cobit"; "auditoria"; "contabilidad"; "tributaria"; "nomina";
      "presupuesto"; "tesoreria"; "cartera"; "costos"; "gestion de riesgos"
    ]%string.

Definition SKILLS_BLANDAS : list pystr :=
  map u
    [ "liderazgo"; "comunicacion"; "trabajo en equipo"; "analitico"; "etica";
      "proactividad"; "organizacion"; "resolucion de problemas";
      "adaptabilidad" ]%string.

Definition CARGOS_KEYWORDS : list pystr :=
  map u
    [ "auditor"; "coordinador"; "gerente"; "director"; "analista";
      "contador"; "contadora"; "jefe"; "supervisor"; "lider"; "líder";
      "asistente"; "profesional"; "asesor"; "revisor"; "subgerente";
      "tesorero"; "auxiliar"; "practicante"; "pasante"; "ingeniero";
      "administrador"; "ejecutivo"; "consultor"; "socio"; "representante"
    ]%string.

Definition EMPRESAS_SUFIJOS : list pystr :=
  map u
    [ "sas"; "sa"; "s.a.s"; "ltda"; "s.a"; "e.s.e"; "e.i.c.e";
      "epm"; "grupo"; "banco"; "universidad"; "corporacion";
      "fundacion"; "ministerio"; "alcaldia"; "gobernacion" ]%string.

(** *** The patterns, as the source writes them *)

Definition PAT_DDMMYYYY : pystr := u "\b(\d{2})/(\d{2})/(\d{4})\b".
Definition PAT_RANGO_ANIOS : pystr :=
  u "\b(20\d{2}|19\d{2})\s*[-–]\s*(20\d{2}|19\d{2})\b".
Definition PAT_MMYYYY : pystr := u "\b(\d{2})\s*[-/]\s*(\d{4})\b".
(** [rf"\b{mes_nombre}\b\s+(\d{{4}})\b"] *)
Definition pat_mes (mes_nombre : pystr) : pystr :=
  u "\b" ++ mes_nombre ++ u "\b\s+(\d{4})\b".
Definition PAT_ANIO : pystr := u "\b(20\d{2}|19\d{2})\b".
Definition PAT_ACTUAL : pystr :=
  u "\b(actual|presente|la\s+fecha|vigente|hoy)\b".
Definition PAT_YM : pystr := u "\d{4}-\d{2}".

Definition PAT_SOLO_FECHAS : pystr :=
  u "(\d{2}[-/]\d{4}|\b(20|19)\d{2}\b|"
  ++ u "\b(enero|febrero|marzo|abril|mayo|junio|julio|agosto|"
  ++ u "septiembre|octubre|noviembre|diciembre)\b|"
  ++ u "\b(actual|presente|la\s+fecha|vigente)\b|"
  ++ u "[–—\-/\s])".

Definition PAT_VERBOS : pystr :=
  u "\b(particip[eé]|realic[eé]|apoy[eé]|desarroll[eé]|elabor[eé]|ejecut[eé]|"
  ++ u "gestion[eé]|coordin[eé]|supervis[eé]|implement[eé]|consolidé|me\s+desempeñ)\b".

Definition PAT_NOMBRE_PROPIO : pystr :=
  u "^[A-ZÁÉÍÓÚÑ][A-ZÁÉÍÓÚÑa-záéíóúñ\s&.,]+$".

Definition PAT_SIN_FECHAS : pystr :=
  u "(\d{2}\s*[-/]\s*\d{4}|\b(20|19)\d{2}\b\s*[–—\-]?\s*\b(20|19)\d{2}\b|\b(20|19)\d{2}\b|"
  ++ u "\b(enero|febrero|marzo|abril|mayo|junio|julio|agosto|"
  ++ u "septiembre|octubre|noviembre|diciembre)\b)".

Definition PAT_ENUMERADOR : pystr := u "^[\d]+[.\-\)]\s*".
Definition PAT_GUION : pystr := u "\s+[-–]\s+".
Definition PAT_ANIO_EDU : pystr := u "\b(19|20)\d{2}\b".
Definition PAT_SEPARADORES : pystr := u "[\n,;•\-]".
Definition PAT_EMAIL : pystr :=
  u "[a-zA-Z0-9._%+\-]+@[a-zA-Z0-9.\-]+\.[a-zA-Z]{2,}".
Definition PAT_TELEFONO : pystr :=
  u "\b3\d{2}[-\s]?\d{3}[-\s]?\d{2}[-\s]?\d{2}\b".
Definition PAT_GUION_ESPACIO : pystr := u "[-\s]".
Definition PAT_NO_PALABRA : pystr := u "[^\w\s]".
Definition PAT_ESPACIOS : pystr := u "\s+".

(** CPython's [_strptime] turns the format ["%Y-%m"] into this pattern,
    compiled with IGNORECASE, and wants it to match the whole string. *)
Definition PAT_STRPTIME_YM : pystr := u "(\d\d\d\d)-(1[0-2]|0[1-9]|[1-9])".

(* ------------------------------------------------------------------ *)
(** ** estructurar_cv.py: dates and durations *)

Section Fechas.

Variable db : UCD.

(** [datetime.strptime(s, "%Y-%m")], as (year, month); [None] is not a
    string, a year outside 1..9999 is refused by [datetime]. *)
Definition strptime_ym (s : option pystr) : py (Z * Z) :=
  match s with
  | None => Raise TypeError
  | Some s =>
      match re_match db (re_compile true PAT_STRPTIME_YM) s with
      | None => Raise ValueError
      | Some m =>
          if negb (length s =? m_end m)%nat then Raise ValueError
          else
            let year := int_of_digits db (group m 1) in
            let month := int_of_digits db (group m 2) in
            if ((1 <=? year) && (year <=? 9999))%Z
            then Ok (year, month)
            else Raise ValueError
      end
  end.

Definition es_presente (fin : option pystr) : bool :=
  match fin with
  | Some f => str_eqb (lower db f) (u "presente")
  | None => false
  end.

(** [ahora] is what [datetime.now()] answers: (year, month). *)
Definition calcular_duracion_meses (ahora : Z * Z) (inicio fin : option pystr)
  : py (option Z) :=
  try_except
    (d_inicio <- strptime_ym inicio ;;
     d_fin <- (if truthy_opt fin && negb (es_presente fin)
               then strptime_ym fin else Ok ahora) ;;
     let delta :=
       ((fst d_fin - fst d_inicio) * 12 + (snd d_fin - snd d_inicio))%Z in
     Ok (Some (Z.max 0 delta)))
    (fun _ => Ok None).

(** [f"{anio}-{mes}"] *)
Definition fecha_ym (anio mes : pystr) : pystr := anio ++ u "-" ++ mes.

(** The five pattern classes of [extraer_fechas_de_linea]. *)
Definition fechas_ddmmyyyy (linea : pystr) : list pystr :=
  map (fun m => fecha_ym (group m 3) (zfill 2 (group m 2)))
      (re_finditer db (re_compile false PAT_DDMMYYYY) linea).

Definition fechas_rango_anios (linea : pystr) : list pystr :=
  match re_search db (re_compile false PAT_RANGO_ANIOS) linea with
  | Some m => [group m 1; group m 2]
  | None => []
  end.

Definition fechas_mmyyyy (linea : pystr) : list pystr :=
  map (fun m => fecha_ym (group m 2) (zfill 2 (group m 1)))
      (re_finditer db (re_compile false PAT_MMYYYY) linea).

(** [sorted(MESES_ES.items(), key=lambda x: -len(x[0]))] *)
Definition meses_por_longitud : list (pystr * pystr) :=
  sorted_by (fun x => (- Z.of_nat (length (fst x)))%Z) MESES_ES.

Definition fechas_mes_nombre (texto : pystr) : list pystr :=
  flat_map
    (fun mes =>
       map (fun m => fecha_ym (group m 1) (snd mes))
           (re_finditer db (re_compile false (pat_mes (fst mes))) texto))
    meses_por_longitud.

Definition fechas_solo_anio (linea : pystr) : list pystr :=
  dict_fromkeys (re_findall1 db (re_compile false PAT_ANIO) linea).

(** [x if not fechas else fechas] *)
Definition si_vacia (fechas alt : list pystr) : list pystr :=
  if truthy fechas then fechas else alt.

Definition fechas_candidatas (linea : pystr) : list pystr :=
  let texto := lower db linea in
  let fechas := fechas_ddmmyyyy linea in
  let fechas := si_vacia fechas (fechas_rango_anios linea) in
  let fechas := si_vacia fechas (fechas_mmyyyy linea) in
  let fechas := si_vacia fechas (fechas_mes_nombre texto) in
  si_vacia fechas (fechas_solo_anio linea).

Definition es_anio_mes (f : pystr) : bool :=
  is_some (re_match db (re_compile false PAT_YM) f).

(** "Garantizar orden cronológico": the closing lines of the function. *)
Definition ordenar_fechas (fechas : list pystr) : py (list pystr) :=
  if (length fechas =? 2)%nat then
    f0 <- py_index fechas 0 ;;
    if es_anio_mes f0 then
      f1 <- py_index fechas 1 ;;
      if es_anio_mes f1 then
        f0 <- py_index fechas 0 ;;
        f1 <- py_index fechas 1 ;;
        if str_ltb f1 f0 then Ok [f1; f0] else Ok fechas
      else Ok fechas
    else Ok fechas
  else Ok fechas.

Definition extraer_fechas_de_linea (linea : pystr) : py (list pystr * bool) :=
  let texto := lower db linea in
  let fechas := fechas_candidatas linea in
  let es_actual := is_some (re_search db (re_compile false PAT_ACTUAL) texto) in
  fechas <- ordenar_fechas fechas ;;
  Ok (fechas, es_actual).

End Fechas.

(* ------------------------------------------------------------------ *)
(** ** nlp_spacy.py: the optional enrichment collaborator *)

(** What a loaded spaCy pipeline gives for a text: [doc.ents], each
    entity as ([ent.text], [ent.label_]). *)
Definition modelo := pystr -> list (pystr * pystr).

(** What [cargar_modelo()] meets when it imports spaCy and loads
    es_core_news_lg, and [_nlp] after the call ([_SPACY_DISPONIBLE] is
    whether it is set). *)
Inductive carga : Type :=
| Cargado (nlp : modelo)       (* spacy.load returned the pipeline *)
| SinModelo                    (* OSError: spaCy is there, the model is not *)
| SinSpacy.                    (* ImportError: spaCy is not installed *)

Definition cargar_modelo (c : carga) : option modelo :=
  match c with
  | Cargado nlp => Some nlp
  | SinModelo => None
  | SinSpacy => None
  end.

(** How [estructurar_cv] finds the collaborator when it is imported. *)
Inductive nlp_env : Type :=
| SinModulo                    (* [from nlp_spacy import ...] raised ImportError:
                                  the stubs of estructurar_cv.py, lines 13-16 *)
| ConModulo (nlp : option modelo).
                               (* nlp_spacy imported; [_nlp] after cargar_modelo(),
                                  [None] when it returned False *)

Definition spacy_disponible (env : nlp_env) : bool :=
  match env with
  | ConModulo (Some _) => true
  | _ => false
  end.

Record trabajo : Type := {
  empresa : option pystr;
  cargo : option pystr;
  fecha_inicio : option pystr;
  fecha_fin : option pystr;
  duracion_meses : option Z;
  responsabilidades : list pystr
}.

Definition con_empresa (t : trabajo) (v : option pystr) : trabajo :=
  {| empresa := v; cargo := cargo t; fecha_inicio := fecha_inicio t;
     fecha_fin := fecha_fin t; duracion_meses := duracion_meses t;
     responsabilidades := responsabilidades t |}.

Definition con_cargo (t : trabajo) (v : option pystr) : trabajo :=
  {| empresa := empresa t; cargo := v; fecha_inicio := fecha_inicio t;
     fecha_fin := fecha_fin t; duracion_meses := duracion_meses t;
     responsabilidades := responsabilidades t |}.

Definition con_fecha_inicio (t : trabajo) (v : option pystr) : trabajo :=
  {| empresa := empresa t; cargo := cargo t; fecha_inicio := v;
     fecha_fin := fecha_fin t; duracion_meses := duracion_meses t;
     responsabilidades := responsabilidades t |}.

Definition con_fecha_fin (t : trabajo) (v : option pystr) : trabajo :=
  {| empresa := empresa t; cargo := cargo t; fecha_inicio := fecha_inicio t;
     fecha_fin := v; duracion_meses := duracion_meses t;
     responsabilidades := responsabilidades t |}.

Definition con_duracion (t : trabajo) (v : option Z) : trabajo :=
  {| empresa := empresa t; cargo := cargo t; fecha_inicio := fecha_inicio t;
     fecha_fin := fecha_fin t; duracion_meses := v;
     responsabilidades := responsabilidades t |}.

Definition con_responsabilidades (t : trabajo) (v : list pystr) : trabajo :=
  {| empresa := empresa t; cargo := cargo t; fecha_inicio := fecha_inicio t;
     fecha_fin := fecha_fin t; duracion_meses := duracion_meses t;
     responsabilidades := v |}.

Section Nlp.

Variable db : UCD.
Variable env : nlp_env.

(** [True], [False] or [None] ("sin información"). *)
Definition es_organizacion_spacy (linea : pystr) : option bool :=
  match env with
  | ConModulo (Some nlp) =>
      let linea_clean := strip db linea in
      if ((length linea_clean <? 3) || (80 <? length linea_clean))%nat
      then Some false
      else
        Some (existsb
                (fun ent =>
                   str_eqb (snd ent) (u "ORG")
                   (* len(ent.text) / len(linea_clean) > 0.5 *)
                   && (length linea_clean <? 2 * length (fst ent))%nat)
                (nlp linea_clean))
  | _ => None
  end.

Definition es_true (o : option bool) : bool :=
  match o with Some true => true | _ => false end.

Definition separar_empresa_cargo_guion (linea : pystr)
  : option pystr * option pystr :=
  match env with
  | SinModulo => (None, None)
  | ConModulo _ =>
      match re_split db (re_compile false PAT_GUION) linea 1 with
      | [p0; p1] =>
          let parte_izq := strip db p0 in
          let parte_der := strip db p1 in
          if ((60 <? length parte_izq) || (60 <? length parte_der))%nat
          then (None, None)
          else if spacy_disponible env then
            let izq_es_org := es_true (es_organizacion_spacy parte_izq) in
            let der_es_org := es_true (es_organizacion_spacy parte_der) in
            if izq_es_org && negb der_es_org then (Some parte_izq, Some parte_der)
            else if der_es_org && negb izq_es_org
                 then (Some parte_der, Some parte_izq)
                 else (Some parte_izq, Some parte_der)
          else (Some parte_izq, Some parte_der)
      | _ => (None, None)
      end
  end.

(** [extraer_entidades(texto).get("ORG", [])] *)
Definition orgs_del_texto (nlp : modelo) (texto : pystr) : list pystr :=
  dict_fromkeys
    (filter (fun t => truthy t)
       (map (fun ent => strip db (fst ent))
          (filter (fun ent => str_eqb (snd ent) (u "ORG"))
             (* texto[:100_000] *)
             (nlp (firstn (100 * 1000) texto))))).

Fixpoint primer_indice (f : pystr -> bool) (l : list pystr) (i : nat)
  : option nat :=
  match l with
  | [] => None
  | x :: t => if f x then Some i else primer_indice f t (S i)
  end.

Definition abs_diff (a b : nat) : nat := (a - b) + (b - a).

(** The body of the loop of [enriquecer_trabajos_con_nlp] for one job. *)
Definition enriquecer_trabajo (orgs : list pystr) (texto_seccion : pystr)
  (t : trabajo) : trabajo :=
  if truthy_opt (empresa t) then t
  else
    match cargo t with
    | None => t
    | Some [] => t
    | Some c =>
        let lineas := split_on 10 texto_seccion in
        let c20 := firstn 20 c in
        match primer_indice (contains c20) lineas 0 with
        | None => t
        | Some idx_cargo =>
            let ventana := slice lineas (idx_cargo - 3) (idx_cargo + 3) in
            let cercana :=
              List.find
                (fun l => truthy l && negb (str_eqb l c)
                          && es_true (es_organizacion_spacy l))
                (map (strip db) ventana) in
            match cercana with
            | Some l => con_empresa t (Some l)
            | None =>
                let encaja org :=
                  match find org texto_seccion, find c20 texto_seccion with
                  | Some idx_org, Some idx_c => (abs_diff idx_org idx_c <? 300)%nat
                  | _, _ => false
                  end in
                match List.find encaja orgs with
                | Some org => con_empresa t (Some org)
                | None => t
                end
            end
        end
    end.

Definition enriquecer_trabajos_con_nlp (trabajos : list trabajo)
  (texto_seccion : pystr) : list trabajo :=
  match env with
  | ConModulo (Some nlp) =>
      match trabajos with
      | [] => trabajos
      | _ =>
          let orgs := orgs_del_texto nlp texto_seccion in
          match orgs with
          | [] => trabajos
          | _ => map (enriquecer_trabajo orgs texto_seccion) trabajos
          end
      end
  | _ => trabajos
  end.

End Nlp.

(* ------------------------------------------------------------------ *)
(** ** estructurar_cv.py: line classifiers and the experience parser *)

Record estado : Type := {
  trabajos : list trabajo;
  trabajo_actual : option trabajo;
  pendientes : list pystr;           (* the local [responsabilidades] *)
  linea_anterior : option pystr
}.

Definition nuevo_trabajo (emp car ini fin : option pystr) : trabajo :=
  {| empresa := emp; cargo := car; fecha_inicio := ini; fecha_fin := fin;
     duracion_meses := None; responsabilidades := [] |}.

Section Experiencia.

Variable db : UCD.
Variable env : nlp_env.
Variable ahora : Z * Z.

Definition es_linea_solo_fechas (linea : pystr) : bool :=
  let linea_sin_fechas :=
    strip db (re_sub db (re_compile false PAT_SOLO_FECHAS) [] (lower db linea)) in
  (length linea_sin_fechas <=? 5)%nat.

Definition es_probable_cargo (linea : pystr) : bool :=
  let linea_l := strip db (lower db linea) in
  if (80 <? length linea)%nat || es_linea_solo_fechas linea then false
  else if is_some (re_search db (re_compile false PAT_VERBOS) linea_l) then false
  else
    let palabras := split_ws db linea_l in
    let primeras := join (u " ") (firstn 4 palabras) in
    existsb
      (fun k => contains k primeras
                || (contains k linea_l && (length palabras <=? 5)%nat))
      CARGOS_KEYWORDS.

Definition es_probable_empresa (linea : pystr) : bool :=
  let linea_l := lower db linea in
  existsb (fun s => contains s linea_l) EMPRESAS_SUFIJOS
  || (str_isupper db linea && (3 <? length linea)%nat && (length linea <? 80)%nat)
  || (is_some (re_match db (re_compile false PAT_NOMBRE_PROPIO) (strip db linea))
      && (length linea <? 80)%nat).

Definition opt_es_anio_mes (f : option pystr) : bool :=
  match f with Some s => es_anio_mes db s | None => false end.

(** The inner function [cerrar_trabajo].  The dict it appends stays bound
    to [trabajo_actual]; every caller but the last rebinds the variable
    before anything is written through it. *)
Definition cerrar_trabajo (st : estado) : py estado :=
  match trabajo_actual st with
  | Some t =>
      let t := con_responsabilidades t (pendientes st) in
      let ini := fecha_inicio t in
      let fin := fecha_fin t in
      t <- (if truthy_opt ini && truthy_opt fin
               && opt_es_anio_mes ini && opt_es_anio_mes fin
            then d <- calcular_duracion_meses db ahora ini fin ;;
                 Ok (con_duracion t d)
            else Ok t) ;;
      Ok {| trabajos := trabajos st ++ [t];
            trabajo_actual := Some t;
            pendientes := [];
            linea_anterior := linea_anterior st |}
  | None => Ok st
  end.

Definition abrir (st : estado) (t : trabajo) : estado :=
  {| trabajos := trabajos st; trabajo_actual := Some t;
     pendientes := pendientes st; linea_anterior := linea_anterior st |}.

Definition anotar (st : estado) (resp : pystr) : estado :=
  {| trabajos := trabajos st; trabajo_actual := trabajo_actual st;
     pendientes := pendientes st ++ [resp];
     linea_anterior := linea_anterior st |}.

Definition recordar (st : estado) (linea : pystr) : estado :=
  {| trabajos := trabajos st; trabajo_actual := trabajo_actual st;
     pendientes := pendientes st; linea_anterior := Some linea |}.

(** [fechas[0] if fechas else None] *)
Definition fecha_de_inicio (fechas : list pystr) : py (option pystr) :=
  if truthy fechas then f <- py_index fechas 0 ;; Ok (Some f) else Ok None.

Definition presente_si (es_actual : bool) : option pystr :=
  if es_actual then Some (u "presente") else None.

(** [fechas[1] if len(fechas) > 1 else ("presente" if es_actual else None)] *)
Definition fecha_de_fin (fechas : list pystr) (es_actual : bool)
  : py (option pystr) :=
  if (1 <? length fechas)%nat
  then f <- py_index fechas 1 ;; Ok (Some f)
  else Ok (presente_si es_actual).

Definition anterior_es_cargo (st : estado) : bool :=
  match linea_anterior st with
  | Some l => truthy l && es_probable_cargo l
  | None => false
  end.

(** The branch "CASO 2", a block of dates after a title or a company. *)
Definition bloque_fechas (st : estado) (inicio fin : option pystr)
  (es_actual : bool) : py estado :=
  match trabajo_actual st with
  | None =>
      st <- cerrar_trabajo st ;;
      Ok (abrir st (nuevo_trabajo None None inicio fin))
  | Some t =>
      let t := if negb (truthy_opt (fecha_inicio t))
               then con_fecha_inicio t inicio else t in
      let t := if negb (truthy_opt (fecha_fin t))
               then con_fecha_fin t
                      (if truthy_opt fin then fin else presente_si es_actual)
               else t in
      let t := if anterior_es_cargo st && negb (truthy_opt (cargo t))
               then con_cargo t (linea_anterior st) else t in
      Ok (abrir st t)
  end.

(** The branch of a line that looks like a title. *)
Definition linea_cargo (st : estado) (linea : pystr) : py estado :=
  match trabajo_actual st with
  | Some t =>
      if negb (truthy_opt (cargo t)) then
        let t :=
          if negb (truthy_opt (empresa t))
             && match linea_anterior st with
                | Some l => truthy l && negb (es_linea_solo_fechas l)
                            && negb (es_probable_cargo l)
                | None => false
                end
          then con_empresa t (linea_anterior st) else t in
        Ok (abrir st (con_cargo t (Some linea)))
      else
        st <- cerrar_trabajo st ;;
        Ok (abrir st (nuevo_trabajo None (Some linea) None None))
  | None => Ok (abrir st (nuevo_trabajo None (Some linea) None None))
  end.

(** The last branch: company of the open job, or a responsibility. *)
Definition linea_resto (st : estado) (t : trabajo) (linea : pystr) : estado :=
  if negb (truthy_opt (empresa t)) && negb (truthy_opt (cargo t))
     && (length linea <? 70)%nat
  then abrir st (con_empresa t (Some linea))
  else if negb (truthy_opt (empresa t)) && truthy_opt (cargo t)
          && es_probable_empresa linea
  then abrir st (con_empresa t (Some linea))
  else
    let resp :=
      strip_chars (u "•-– ")
        (re_sub db (re_compile false PAT_ENUMERADOR) [] linea) in
    if truthy resp && (8 <? length resp)%nat then anotar st resp else st.

(** The "Empresa - Cargo" pattern, when the line calls for it. *)
Definition patron_guion (fechas : list pystr) (solo_fechas : bool)
  (linea : pystr) : option (pystr * pystr) :=
  if negb solo_fechas && negb (truthy fechas) then
    match separar_empresa_cargo_guion db env linea with
    | (Some emp_guion, Some cargo_guion) =>
        if truthy emp_guion && truthy cargo_guion
        then Some (emp_guion, cargo_guion) else None
    | _ => None
    end
  else None.

(** One round of the loop over [lineas]. *)
Definition paso (st : estado) (linea : pystr) : py estado :=
  r <- extraer_fechas_de_linea db linea ;;
  let fechas := fst r in
  let es_actual := snd r in
  let solo_fechas := es_linea_solo_fechas linea in
  let linea_sin_fechas :=
    strip_chars (u " –—-/,")
      (re_sub db (re_compile true PAT_SIN_FECHAS) [] linea) in
  match patron_guion fechas solo_fechas linea with
  | Some (emp_guion, cargo_guion) =>
      st <- cerrar_trabajo st ;;
      Ok (recordar
            (abrir st (nuevo_trabajo (Some emp_guion) (Some cargo_guion)
                         None None))
            linea)
  | None =>
      let tiene_fechas_inline :=
        (1 <=? length fechas)%nat && negb solo_fechas
        && (3 <? length linea_sin_fechas)%nat in
      let es_emp_con_fechas :=
        tiene_fechas_inline
        && (es_probable_empresa linea_sin_fechas
            || es_probable_cargo linea_sin_fechas) in
      let es_bloque_fechas :=
        solo_fechas && (1 <=? length fechas)%nat
        && is_some (linea_anterior st) in
      st <-
        (if es_emp_con_fechas then
           st <- cerrar_trabajo st ;;
           inicio <- fecha_de_inicio fechas ;;
           fin <- fecha_de_fin fechas es_actual ;;
           Ok (abrir st (nuevo_trabajo (Some (strip db linea_sin_fechas)) None
                           inicio fin))
         else if es_bloque_fechas then
           inicio <- fecha_de_inicio fechas ;;
           fin <- fecha_de_fin fechas es_actual ;;
           bloque_fechas st inicio fin es_actual
         else if es_probable_cargo linea && negb solo_fechas then
           linea_cargo st linea
         else
           match trabajo_actual st with
           | Some t => if negb solo_fechas then Ok (linea_resto st t linea)
                       else Ok st
           | None => Ok st
           end) ;;
      Ok (recordar st linea)
  end.

Fixpoint recorrer (st : estado) (lineas : list pystr) : py estado :=
  match lineas with
  | [] => Ok st
  | linea :: resto => st <- paso st linea ;; recorrer st resto
  end.

(** [[l.strip() for l in texto.split("\n") if l.strip()]] *)
Definition lineas_no_vacias (texto : pystr) : list pystr :=
  map (strip db) (filter (fun l => truthy (strip db l)) (split_on 10 texto)).

Definition tiene_cargo_o_empresa (t : trabajo) : bool :=
  truthy_opt (cargo t) || truthy_opt (empresa t).

Definition estado_inicial : estado :=
  {| trabajos := []; trabajo_actual := None; pendientes := [];
     linea_anterior := None |}.

(** The loop and the last [cerrar_trabajo()]: every job that was closed. *)
Definition trabajos_cerrados (texto : pystr) : py (list trabajo) :=
  st <- recorrer estado_inicial (lineas_no_vacias texto) ;;
  st <- cerrar_trabajo st ;;
  Ok (trabajos st).

Definition parsear_experiencia (texto : pystr) : py (list trabajo) :=
  if negb (truthy (strip db texto)) then Ok []
  else
    trabajos <- trabajos_cerrados texto ;;
    let trabajos_limpios := filter tiene_cargo_o_empresa trabajos in
    Ok (enriquecer_trabajos_con_nlp db env trabajos_limpios texto).

End Experiencia.

(* ------------------------------------------------------------------ *)
(** ** estructurar_cv.py: the other extractors and the entry point *)

Record contacto : Type := {
  email : option pystr;
  telefono : option pystr
}.

Record skills : Type := {
  tecnicas : list pystr;
  blandas : list pystr
}.

(** An education entry is a dict that starts empty and gets its keys
    ["titulo"], ["institucion"], ["año"] as lines come. *)
Definition entrada := dict (option pystr).

Record cv : Type := {
  cv_contacto : contacto;
  perfil_resumen : pystr;
  experiencia : list trabajo;
  educacion : list entrada;
  habilidades : list pystr;
  skills_detectadas : skills;
  cursos : list pystr;
  referencias : pystr;
  anios_experiencia_total : Z;      (* "años_experiencia_total", in tenths of a year *)
  cantidad_empleos : nat
}.

Definition INSTITUCIONES_KEYWORDS : list pystr :=
  map u [ "universidad"; "corporacion"; "corporación"; "instituto";
          "colegio"; "sena"; "escuela"; "politecnico" ]%string.

Definition TITULOS_KEYWORDS : list pystr :=
  map u [ "contador"; "administrador"; "ingeniero"; "licenciado";
          "tecnico"; "tecnólogo"; "diplomado"; "especialista"; "magister"
        ]%string.

Section Extractores.

Variable db : UCD.

(** [entrada_actual.get(k)] as a truth value. *)
Definition entrada_tiene (e : entrada) (k : pystr) : bool :=
  match dict_get e k with
  | Some v => truthy_opt v
  | None => false
  end.

(** One round of the loop of [parsear_educacion] over (entradas, entrada_actual). *)
Definition paso_educacion (st : list entrada * entrada) (linea : pystr)
  : py (list entrada * entrada) :=
  let entradas := fst st in
  let entrada_actual := snd st in
  let anio := re_search db (re_compile false PAT_ANIO_EDU) linea in
  let tiene_anio := is_some anio in
  let es_institucion :=
    existsb (fun k => contains k (lower db linea)) INSTITUCIONES_KEYWORDS in
  let es_titulo :=
    existsb (fun k => contains k (lower db linea)) TITULOS_KEYWORDS in
  if tiene_anio && negb es_institucion then
    let entradas :=
      if truthy entrada_actual then entradas ++ [entrada_actual] else entradas in
    (* año.group() *)
    a <- match anio with
         | Some m => Ok (m_text m)
         | None => Raise AttributeError
         end ;;
    Ok (entradas,
        [ (u "titulo", None); (u "institucion", None); (u "año", Some a) ])
  else if es_titulo && negb (entrada_tiene entrada_actual (u "titulo")) then
    Ok (entradas, dict_set entrada_actual (u "titulo") (Some linea))
  else if es_institucion
          && negb (entrada_tiene entrada_actual (u "institucion")) then
    Ok (entradas, dict_set entrada_actual (u "institucion") (Some linea))
  else Ok st.

Fixpoint recorrer_educacion (st : list entrada * entrada)
  (lineas : list pystr) : py (list entrada * entrada) :=
  match lineas with
  | [] => Ok st
  | l :: ls => st <- paso_educacion st l ;; recorrer_educacion st ls
  end.

Definition parsear_educacion (texto : pystr) : py (list entrada) :=
  if negb (truthy (strip db texto)) then Ok []
  else
    st <- recorrer_educacion ([], []) (lineas_no_vacias db texto) ;;
    Ok (if truthy (snd st) then fst st ++ [snd st] else fst st).

Definition parsear_habilidades (texto : pystr) : list pystr :=
  if negb (truthy (strip db texto)) then []
  else
    let items := re_split db (re_compile false PAT_SEPARADORES) texto 0 in
    map (fun i => capitalize db (strip db i))
        (filter (fun i => (2 <? length (strip db i))%nat) items).

Definition parsear_cursos (texto : pystr) : list pystr :=
  parsear_habilidades texto.

Definition parsear_contacto_desde_perfil (texto_completo : pystr) : contacto :=
  {| email :=
       match re_search db (re_compile false PAT_EMAIL) texto_completo with
       | Some m => Some (m_text m)
       | None => None
       end;
     telefono :=
       match re_search db (re_compile false PAT_TELEFONO) texto_completo with
       | Some m =>
           Some (re_sub db (re_compile false PAT_GUION_ESPACIO) [] (m_text m))
       | None => None
       end |}.

(** [t.get("duracion_meses") or 0] *)
Definition meses_de (t : trabajo) : Z :=
  match duracion_meses t with
  | Some d => d
  | None => 0%Z
  end.

(** [round(x, 1)] of the quotient [n / d], in tenths: the nearest tenth
    of the exact quotient, a tie going to the even one.  The source
    divides and rounds on doubles; that computation is
    [calcular_anios_experiencia_doble] below, which for a total from 0 to
    less than 2^50 months is the double nearest to this tenth. *)
Definition round_decimas (n d : Z) : Z :=
  let q := (10 * n / d)%Z in
  let r := (10 * n mod d)%Z in
  if (2 * r <? d)%Z then q
  else if (d <? 2 * r)%Z then (q + 1)%Z
  else if Z.even q then q else (q + 1)%Z.

Definition calcular_anios_experiencia (trabajos : list trabajo) : Z :=
  let total_meses := fold_left (fun acc t => (acc + meses_de t)%Z) trabajos 0%Z in
  round_decimas total_meses 12.

(** limpiar.py *)
Definition limpiar_para_comparacion (texto : pystr) : pystr :=
  let texto := if forallb is_ascii texto then texto else nfkd_ext db texto in
  let texto := filter is_ascii texto in
  let texto := lower db texto in
  let texto := re_sub db (re_compile false PAT_NO_PALABRA) (u " ") texto in
  let texto := re_sub db (re_compile false PAT_ESPACIOS) (u " ") texto in
  strip db texto.

Definition extraer_skills_del_texto (texto_completo : pystr) : skills :=
  let texto_norm := limpiar_para_comparacion texto_completo in
  {| tecnicas :=
       map (upper db) (filter (fun s => contains s texto_norm) SKILLS_TECNICAS);
     blandas :=
       map (capitalize db)
           (filter (fun s => contains s texto_norm) SKILLS_BLANDAS) |}.

Variable env : nlp_env.
Variable ahora : Z * Z.

Definition estructurar_cv (secciones : dict pystr) (texto_completo : pystr)
  : py cv :=
  experiencia <-
    parsear_experiencia db env ahora (dict_get_or secciones (u "experiencia") []) ;;
  educacion <- parsear_educacion (dict_get_or secciones (u "educacion") []) ;;
  let habilidades_lista :=
    parsear_habilidades (dict_get_or secciones (u "habilidades") []) in
  let cursos_lista := parsear_cursos (dict_get_or secciones (u "cursos") []) in
  let contacto := parsear_contacto_desde_perfil texto_completo in
  let skills_detectadas := extraer_skills_del_texto texto_completo in
  Ok {| cv_contacto := contacto;
        perfil_resumen := strip db (dict_get_or secciones (u "perfil") []);
        experiencia := experiencia;
        educacion := educacion;
        habilidades := habilidades_lista;
        skills_detectadas := skills_detectadas;
        cursos := cursos_lista;
        referencias := strip db (dict_get_or secciones (u "referencias") []);
        anios_experiencia_total := calcular_anios_experiencia experiencia;
        cantidad_empleos := length experiencia |}.

End Extractores.

(* ------------------------------------------------------------------ *)
(** ** seccionesHV_nlp.py: the section segmenter *)

Definition ENCABEZADOS : list (pystr * pystr) :=
  [ (u "perfil", u "\b(perfil|resumen|sobre\s*m[ií]|acerca\s*de)\b");
    (u "experiencia",
     u "\b(experiencias?\s*(laboral(es)?|profesional(es)?)?|experencias?\s*(laboral(es)?|profesional(es)?)?|trayectoria|historial\s*laboral)\b");
    (u "educacion", u "\b(educaci[oó]n|formaci[oó]n|estudios|t[íi]tulos?|acad[eé]mica)\b");
    (u "habilidades", u "\b(habilidades|competencias|destrezas|conocimientos|skills)\b");
    (u "cursos", u "^(cursos?|certificaciones?|diplomados?|capacitaciones?)[\s:]*$");
    (u "referencias", u "\b(referencias?|referencia\s*personal)\b");
    (u "contacto", u "\b(contacto|datos\s*personales?|informaci[oó]n\s*personal)\b") ].

(** A set; the order it is walked in does not reach the result, which is
    read by key. *)
Definition SECCIONES_PRINCIPALES : list pystr :=
  map u [ "perfil"; "experiencia"; "educacion"; "habilidades"; "cursos";
          "referencias" ]%string.

Section Secciones.

Variable db : UCD.

Definition es_encabezado (linea : pystr) : option pystr :=
  let linea_limpia := strip db linea in
  if negb (truthy linea_limpia) || (80 <? length linea_limpia)%nat then None
  else
    let linea_lower := lower db linea_limpia in
    match List.find
            (fun sp => is_some (re_search db (re_compile false (snd sp)) linea_lower))
            ENCABEZADOS with
    | Some sp => Some (fst sp)
    | None => None
    end.

Definition es_principal (sec : pystr) : bool :=
  existsb (str_eqb sec) SECCIONES_PRINCIPALES.

(** [seccion_detectada and seccion_detectada in SECCIONES_PRINCIPALES] *)
Definition es_encabezado_principal (linea : pystr) : option pystr :=
  match es_encabezado linea with
  | Some sec => if truthy sec && es_principal sec then Some sec else None
  | None => None
  end.

(** One round of the loop over (seccion_actual, acumulador). *)
Definition paso_seccion (st : pystr * dict (list pystr)) (linea : pystr)
  : py (pystr * dict (list pystr)) :=
  let seccion_actual := fst st in
  let acumulador := snd st in
  match es_encabezado_principal linea with
  | Some sec => Ok (sec, acumulador)
  | None =>
      (* not linea.strip() and not acumulador[seccion_actual] *)
      saltar <- (if negb (truthy (strip db linea))
                 then acc <- dict_item acumulador seccion_actual ;;
                      Ok (negb (truthy acc))
                 else Ok false) ;;
      if saltar then Ok st
      else if dict_has acumulador seccion_actual then
        acc <- dict_item acumulador seccion_actual ;;
        Ok (seccion_actual, dict_set acumulador seccion_actual (acc ++ [linea]))
      else Ok st
  end.

Fixpoint recorrer_secciones (st : pystr * dict (list pystr))
  (lineas : list pystr) : py (pystr * dict (list pystr)) :=
  match lineas with
  | [] => Ok st
  | l :: ls => st <- paso_seccion st l ;; recorrer_secciones st ls
  end.

(** The closing loop: every section's lines joined and stripped. *)
Fixpoint unir_secciones (acumulador : dict (list pystr)) (secs : list pystr)
  : py (dict pystr) :=
  match secs with
  | [] => Ok []
  | sec :: resto =>
      acc <- dict_item acumulador sec ;;
      r <- unir_secciones acumulador resto ;;
      Ok ((sec, strip db (join NL acc)) :: r)
  end.

Definition dividir_secciones (texto : pystr) : py (dict pystr) :=
  let lineas := split_on 10 texto in
  let acumulador :=
    dict_set (map (fun sec => (sec, [])) SECCIONES_PRINCIPALES) (u "perfil") [] in
  st <- recorrer_secciones (u "perfil", acumulador) lineas ;;
  unir_secciones (snd st) SECCIONES_PRINCIPALES.

End Secciones.

(* ------------------------------------------------------------------ *)
(** ** Definitions the statements use *)

(** A database in which no character beyond ASCII has any property; the
    closed examples below are run with it. *)
Definition ucd_basico : UCD :=
  {| isdecimal_ext := fun _ => false;
     decimal_ext := fun _ => 0%Z;
     isspace_ext := fun _ => false;
     isalnum_ext := fun _ => false;
     isupper_ext := fun _ => false;
     islower_ext := fun _ => false;
     ieq_ext := fun _ _ => false;
     lower_ext := map ascii_lower;
     upper_ext := map ascii_upper;
     capitalize_ext :=
       fun s => match s with
                | [] => []
                | c :: t => ascii_upper c :: map ascii_lower t
                end;
     nfkd_ext := fun s => s |}.

Section Denotacion.

Variable db : UCD.

(** What a pattern says, apart from how the matcher searches: from the
    position with [p] before it and [s] ahead, with the groups [g] taken
    so far, [r] can consume a word and leave [p'] before, [s'] ahead and
    the groups [g']. *)
Definition paso_rel :=
  option N -> pystr -> caps -> option N -> pystr -> caps -> Prop.

Fixpoint iter (n : nat) (step : paso_rel) : paso_rel :=
  fun p s g p' s' g' =>
    match n with
    | O => p' = p /\ s' = s /\ g' = g
    | S k => exists pm sm gm, step p s g pm sm gm /\ iter k step pm sm gm p' s' g'
    end.

Definition un_caracter (ok : N -> bool) : paso_rel :=
  fun p s g p' s' g' =>
    exists c, s = c :: s' /\ p' = Some c /\ ok c = true /\ g' = g.

Definition aqui (cond : bool) : paso_rel :=
  fun p s g p' s' g' => cond = true /\ p' = p /\ s' = s /\ g' = g.

Fixpoint denota (r : regex) : paso_rel :=
  fun p s g p' s' g' =>
    match r with
    | REmpty => p' = p /\ s' = s /\ g' = g
    | RFail => False
    | RChr c => un_caracter (N.eqb c) p s g p' s' g'
    | RChrI c => un_caracter (chr_ieq db c) p s g p' s' g'
    | RAny => un_caracter (fun c => negb (c =? 10)%N) p s g p' s' g'
    | RIn neg items => un_caracter (class_mem db neg items) p s g p' s' g'
    | RSeq a b =>
        exists pm sm gm, denota a p s g pm sm gm /\ denota b pm sm gm p' s' g'
    | RAlt a b => denota a p s g p' s' g' \/ denota b p s g p' s' g'
    | RRep a lo hi =>
        exists n, (lo <= n)%nat
                  /\ match hi with Some h => (n <= h)%nat | None => True end
                  /\ iter n (denota a) p s g p' s' g'
    | RGroup n a =>
        exists ga, denota a p s g p' s' ga
                   /\ g' = (n, firstn (length s - length s') s) :: ga
    | RWordB => aqui (at_boundary db p s) p s g p' s' g'
    | RBol => aqui (is_none p) p s g p' s' g'
    | REol => aqui (at_eol s) p s g p' s' g'
    end.

End Denotacion.

(** *** The shape of a Colombian mobile number *)

Section Movil.

Variable db : UCD.

(** A hyphen or a blank. *)
Definition es_separador (c : N) : bool := (c =? 45)%N || isspace db c.

Definition digitos (n : nat) (w : pystr) : Prop :=
  length w = n /\ Forall (fun c => isdecimal db c = true) w.

Definition separador_opcional (w : pystr) : Prop :=
  w = [] \/ exists c, w = [c] /\ es_separador c = true.

(** The digit 3, then groups of 2, 3, 2 and 2 digits, a separator or
    nothing between one group and the next. *)
Definition forma_movil (m : pystr) : Prop :=
  exists g1 s1 g2 s2 g3 s3 g4,
    m = 51%N :: g1 ++ s1 ++ g2 ++ s2 ++ g3 ++ s3 ++ g4
    /\ digitos 2 g1 /\ separador_opcional s1
    /\ digitos 3 g2 /\ separador_opcional s2
    /\ digitos 2 g3 /\ separador_opcional s3
    /\ digitos 2 g4.

Definition sin_separadores (m : pystr) : pystr :=
  filter (fun c => negb (es_separador c)) m.

End Movil.

(** *** Dates in words of the specification *)

(** A month as [%m] reads it: 10 to 12, 01 to 09, or 1 to 9. *)
Definition forma_mes (mm : pystr) : Prop :=
  (exists x, mm = [49%N; x] /\ in_range 48 50 x = true)
  \/ (exists x, mm = [48%N; x] /\ in_range 49 57 x = true)
  \/ (exists x, mm = [x] /\ in_range 49 57 x = true).

(** The end date as the calculator takes it: the current month when the
    end is missing, empty or the word "presente" in any case, and what
    [strptime] reads otherwise. *)
Definition fin_abierto (db : UCD) (fin : option pystr) : bool :=
  negb (truthy_opt fin) || es_presente db fin.

Definition fecha_final (db : UCD) (ahora : Z * Z) (fin : option pystr)
  : py (Z * Z) :=
  if fin_abierto db fin then Ok ahora else strptime_ym db fin.

(** The formula of the specification. *)
Definition meses_entre (d_inicio d_fin : Z * Z) : Z :=
  Z.max 0 ((fst d_fin - fst d_inicio) * 12 + (snd d_fin - snd d_inicio)).

(** The first list that is not empty; the last one when none is. *)
Fixpoint primera_no_vacia (ls : list (list pystr)) : list pystr :=
  match ls with
  | [] => []
  | [l] => l
  | l :: resto => if truthy l then l else primera_no_vacia resto
  end.

(** The same tokens, the two of a pair possibly exchanged. *)
Definition salvo_orden (a b : list pystr) : Prop :=
  a = b \/ exists x y, b = [x; y] /\ a = [y; x].



(** A canonical year and month: four digits, a hyphen, two digits. *)
Definition forma_anio_mes (db : UCD) (f : pystr) : Prop :=
  exists yy mm, f = yy ++ 45%N :: mm /\ digitos db 4 yy /\ digitos db 2 mm.

(** The test of [cerrar_trabajo] before it computes a duration. *)
Definition fechas_completas (db : UCD) (t : trabajo) : bool :=
  truthy_opt (fecha_inicio t) && truthy_opt (fecha_fin t)
  && opt_es_anio_mes db (fecha_inicio t) && opt_es_anio_mes db (fecha_fin t).

(** The duration of [t] is the one the calculator gives for its dates. *)
Definition duracion_calculada (db : UCD) (ahora : Z * Z) (t : trabajo) : Prop :=
  calcular_duracion_meses db ahora (fecha_inicio t) (fecha_fin t)
  = Ok (duracion_meses t).

(** What holds of every job once it is closed, and of a state whose
    closed jobs all are so. *)
Definition cerrado_bien (db : UCD) (ahora : Z * Z) (t : trabajo) : Prop :=
  fechas_completas db t = true -> duracion_calculada db ahora t.

Definition cerrados_bien (db : UCD) (ahora : Z * Z) (st : estado) : Prop :=
  Forall (cerrado_bien db ahora) (trabajos st).

(** [t'] is [t], or [t] with the company it lacked filled in. *)
Definition enriquecido (t t' : trabajo) : Prop :=
  t' = t
  \/ (truthy_opt (empresa t) = false /\ truthy_opt (cargo t) = true
      /\ exists e, t' = con_empresa t (Some e)).

(** The empty result, and a section map whose six sections are empty. *)
Definition cv_vacio : cv :=
  {| cv_contacto := {| email := None; telefono := None |};
     perfil_resumen := [];
     experiencia := [];
     educacion := [];
     habilidades := [];
     skills_detectadas := {| tecnicas := []; blandas := [] |};
     cursos := [];
     referencias := [];
     anios_experiencia_total := 0%Z;
     cantidad_empleos := 0%nat |}.

Definition secciones_vacias : dict pystr :=
  map (fun sec => (sec, [])) SECCIONES_PRINCIPALES.

(** The lines of a text from its first line that is not blank. *)
Fixpoint sin_blancas_iniciales (db : UCD) (ls : list pystr) : list pystr :=
  match ls with
  | [] => []
  | l :: t => if truthy (strip db l) then ls else sin_blancas_iniciales db t
  end.

Definition TEXTO_CON_MARGEN : pystr := u " x".

(** [m] stands somewhere in [texto]. *)
Definition aparece_en (m texto : pystr) : Prop :=
  exists pre post, texto = pre ++ m ++ post.

Definition LINEA_SULICOR : pystr := u "SULICOR SAS  04-2025  12-2025".
Definition LINEA_HONOR : pystr := u "Honor y laurel - Analista de Procesos".

Definition trabajo_sulicor : trabajo :=
  {| empresa := Some (u "SULICOR SAS"); cargo := None;
     fecha_inicio := Some (u "2025-04"); fecha_fin := Some (u "2025-12");
     duracion_meses := Some 8%Z; responsabilidades := [] |}.

Definition trabajo_honor : trabajo :=
  {| empresa := Some (u "Honor y laurel");
     cargo := Some (u "Analista de Procesos");
     fecha_inicio := None; fecha_fin := None;
     duracion_meses := None; responsabilidades := [] |}.

(** *** parser_funcion_publica.py: the official form *)

(** [SECCIONES_FORMULARIO], a pattern and the section it opens. *)
Definition SECCIONES_FORMULARIO : list (pystr * pystr) :=
  [ (u "^1\s+datos\s+personales", u "datos_personales");
    (u "^2\s+formaci[oó]n\s+acad[eé]mica", u "formacion_academica");
    (u "^3\s+educaci[oó]n\s+para\s+el\s+trabajo", u "educacion_trabajo");
    (u "^4\s+experiencia\s+docente", u "experiencia_docente");
    (u "^5\s+experiencia\s+laboral", u "experiencia_laboral");
    (u "^6\s+otros\s+datos", u "otros_datos") ].

Definition ETIQUETAS_ENTIDAD : list pystr :=
  map u [ "ENTIDAD O EMPRESA"; "NOMBRE DE LA ENTIDAD"; "EMPRESA";
          "RAZÓN SOCIAL"; "ENTIDAD" ]%string.

Definition ETIQUETAS_CARGO : list pystr :=
  map u [ "CARGO O EMPLEO DESEMPEÑADO"; "CARGO"; "EMPLEO DESEMPEÑADO";
          "DENOMINACIÓN DEL CARGO" ]%string.

Definition ETIQUETAS_INICIO : list pystr :=
  map u [ "FECHA DE INICIO"; "FECHA INICIO"; "DESDE" ]%string.

Definition ETIQUETAS_RETIRO : list pystr :=
  map u [ "FECHA DE RETIRO"; "FECHA RETIRO"; "HASTA";
          "FECHA DE TERMINACIÓN" ]%string.

(** The words that keep an upper-case line from being taken for an entity. *)
Definition PALABRAS_FORMULARIO : list pystr :=
  map u [ "CARGO"; "ENTIDAD"; "FECHA"; "ÁREA"; "TIPO"; "EXPERIENCIA";
          "FORMACIÓN"; "DATOS" ]%string.

Definition PAT_MES_NUMERO : pystr := u "\b(0?[1-9]|1[0-2])\b".
Definition PAT_VIGENTE : pystr := u "(actual|vigente|presente)".

(** The dict [{}] of a job no key of which is set yet. *)
Definition trabajo_vacio : trabajo :=
  {| empresa := None; cargo := None; fecha_inicio := None; fecha_fin := None;
     duracion_meses := None; responsabilidades := [] |}.

(** [o != s] for a string or [None]. *)
Definition distinto_de (o : option pystr) (s : pystr) : bool :=
  match o with Some f => negb (str_eqb f s) | None => true end.

Section FuncionPublica.

Variable db : UCD.
Variable ahora : Z * Z.

(** The inner loop of [_dividir_secciones_formulario]: the section that
    the line opens. *)
Definition seccion_de_formulario (linea : pystr) : option pystr :=
  let linea_lower := strip db (lower db linea) in
  match List.find
          (fun pn => is_some (re_match db (re_compile false (fst pn)) linea_lower))
          SECCIONES_FORMULARIO with
  | Some pn => Some (snd pn)
  | None => None
  end.

(** One round of the loop over (seccion_actual, secciones). *)
Definition paso_seccion_formulario (st : pystr * dict (list pystr))
  (linea : pystr) : pystr * dict (list pystr) :=
  let seccion_actual := fst st in
  let secciones := snd st in
  match seccion_de_formulario linea with
  | Some nombre => (nombre, secciones)
  | None =>
      if truthy (strip db linea) then
        (* if seccion_actual in secciones: secciones[seccion_actual].append(linea) *)
        match dict_get secciones seccion_actual with
        | Some ls => (seccion_actual, dict_set secciones seccion_actual (ls ++ [linea]))
        | None => st
        end
      else st
  end.

Definition _dividir_secciones_formulario (lineas : list pystr)
  : dict (list pystr) :=
  let secciones := map (fun pn => (snd pn, [])) SECCIONES_FORMULARIO in
  snd (fold_left paso_seccion_formulario lineas
         (u "datos_personales", secciones)).

Definition _normalizar_trabajo_formulario (t : trabajo) : py trabajo :=
  let ini := fecha_inicio t in
  let fin := fecha_fin t in
  dur <- (if truthy_opt ini && truthy_opt fin
             && distinto_de fin (u "presente")
          then try_except (calcular_duracion_meses db ahora ini fin)
                          (fun _ => Ok None)
          else Ok None) ;;
  Ok {| empresa := empresa t; cargo := cargo t;
        fecha_inicio := ini; fecha_fin := fin;
        duracion_meses := dur;
        responsabilidades := responsabilidades t |}.

(** [any(et in linea for et in [e.upper() for e in etiquetas])] *)
Definition tiene_etiqueta (linea : pystr) (etiquetas : list pystr) : bool :=
  existsb (fun et => contains (upper db et) linea) etiquetas.

(** [if trabajo_actual.get("empresa") or trabajo_actual.get("cargo"):
    trabajos.append(_normalizar_trabajo_formulario(trabajo_actual))] *)
Definition guardar_trabajo (trabajos : list trabajo) (trabajo_actual : trabajo)
  : py (list trabajo) :=
  if truthy_opt (empresa trabajo_actual) || truthy_opt (cargo trabajo_actual)
  then t <- _normalizar_trabajo_formulario trabajo_actual ;;
       Ok (trabajos ++ [t])
  else Ok trabajos.

(** The date of a label line: the year and the month of the line, or of
    the next line when the line has no year; [None] when no year is
    found.  [siguiente] is [lineas[i + 1]] when there is one. *)
Definition fecha_de_etiqueta (linea : pystr) (siguiente : option pystr)
  (mes_por_defecto : pystr) : option pystr :=
  let anio := re_search db (re_compile false PAT_ANIO) linea in
  let mes := re_search db (re_compile false PAT_MES_NUMERO) linea in
  let am :=
    match anio, siguiente with
    | None, Some s =>
        (re_search db (re_compile false PAT_ANIO) s,
         re_search db (re_compile false PAT_MES_NUMERO) s)
    | _, _ => (anio, mes)
    end in
  match fst am with
  | Some a =>
      let m := match snd am with
               | Some mm => zfill 2 (m_text mm)
               | None => mes_por_defecto
               end in
      Some (fecha_ym (m_text a) m)
  | None => None
  end.

(** One round of the [while] of [_extraer_experiencia_formulario] at the
    line [lineas[i]]; the boolean answers whether [i] goes on by two. *)
Definition paso_experiencia_formulario (st : list trabajo * trabajo)
  (linea_i : pystr) (siguiente : option pystr)
  : py ((list trabajo * trabajo) * bool) :=
  let trabajos := fst st in
  let trabajo_actual := snd st in
  let linea := upper db (strip db linea_i) in
  if tiene_etiqueta linea ETIQUETAS_ENTIDAD then
    trabajos <- guardar_trabajo trabajos trabajo_actual ;;
    match siguiente with
    | Some s =>
        Ok ((trabajos, con_empresa trabajo_vacio (Some (strip db s))), true)
    | None => Ok ((trabajos, trabajo_vacio), false)
    end
  else if tiene_etiqueta linea ETIQUETAS_CARGO then
    match siguiente with
    | Some s =>
        Ok ((trabajos, con_cargo trabajo_actual (Some (strip db s))), true)
    | None => Ok (st, false)
    end
  else if tiene_etiqueta linea ETIQUETAS_INICIO then
    match fecha_de_etiqueta linea siguiente (u "01") with
    | Some f => Ok ((trabajos, con_fecha_inicio trabajo_actual (Some f)), false)
    | None => Ok (st, false)
    end
  else if tiene_etiqueta linea ETIQUETAS_RETIRO then
    match fecha_de_etiqueta linea siguiente (u "12") with
    | Some f => Ok ((trabajos, con_fecha_fin trabajo_actual (Some f)), false)
    | None =>
        if is_some (re_search db (re_compile false PAT_VIGENTE) (lower db linea))
        then Ok ((trabajos, con_fecha_fin trabajo_actual (Some (u "presente"))),
                 false)
        else Ok (st, false)
    end
  else Ok (st, false).

(** The [while i < len(lineas)] loop; [saltar] is set when the round
    before went on by two. *)
Fixpoint recorrer_experiencia_formulario (st : list trabajo * trabajo)
  (lineas : list pystr) (saltar : bool) : py (list trabajo * trabajo) :=
  match lineas with
  | [] => Ok st
  | linea :: resto =>
      if saltar then recorrer_experiencia_formulario st resto false
      else
        r <- paso_experiencia_formulario st linea (hd_error resto) ;;
        recorrer_experiencia_formulario (fst r) resto (snd r)
  end.

(** One round of the loop of [_extraer_experiencia_heuristica_formulario]
    over (trabajos, trabajo_actual). *)
Definition paso_heuristica (st : list trabajo * option trabajo)
  (linea : pystr) : py (list trabajo * option trabajo) :=
  let trabajos := fst st in
  let trabajo_actual := snd st in
  let linea_strip := strip db linea in
  if negb (truthy linea_strip) then Ok st
  else
    let anios := re_findall1 db (re_compile false PAT_ANIO) linea_strip in
    let es_entidad :=
      str_isupper db linea_strip
      && ((5 <? length linea_strip)%nat && (length linea_strip <? 80)%nat)
      && negb (existsb (fun k => contains k linea_strip) PALABRAS_FORMULARIO) in
    if es_entidad then
      let trabajos :=
        match trabajo_actual with
        | Some t => trabajos ++ [t]
        | None => trabajos
        end in
      inicio <- fecha_de_inicio anios ;;
      fin <- fecha_de_fin anios false ;;
      Ok (trabajos, Some (nuevo_trabajo (Some linea_strip) None inicio fin))
    else
      match trabajo_actual with
      | Some t =>
          if truthy anios && negb (truthy_opt (fecha_inicio t)) then
            a0 <- py_index anios 0 ;;
            let t := con_fecha_inicio t (Some a0) in
            if (1 <? length anios)%nat then
              a1 <- py_index anios 1 ;;
              Ok (trabajos, Some (con_fecha_fin t (Some a1)))
            else Ok (trabajos, Some t)
          else Ok st
      | None => Ok st
      end.

Fixpoint recorrer_heuristica (st : list trabajo * option trabajo)
  (lineas : list pystr) : py (list trabajo * option trabajo) :=
  match lineas with
  | [] => Ok st
  | l :: ls => st <- paso_heuristica st l ;; recorrer_heuristica st ls
  end.

Definition _extraer_experiencia_heuristica_formulario (lineas : list pystr)
  : py (list trabajo) :=
  st <- recorrer_heuristica ([], None) lineas ;;
  Ok (match snd st with
      | Some t => fst st ++ [t]
      | None => fst st
      end).

Definition _extraer_experiencia_formulario (lineas : list pystr)
  : py (list trabajo) :=
  st <- recorrer_experiencia_formulario ([], trabajo_vacio) lineas false ;;
  trabajos <- guardar_trabajo (fst st) (snd st) ;;
  if negb (truthy trabajos)
  then _extraer_experiencia_heuristica_formulario lineas
  else Ok trabajos.

(** Of the result of [parsear_cv_funcion_publica], the fields
    ["experiencia"], ["años_experiencia_total"] (in tenths of a year) and
    ["cantidad_empleos"]. *)
Definition parsear_cv_funcion_publica (texto : pystr)
  : py (list trabajo * Z * nat) :=
  let lineas := map (strip db) (split_on 10 texto) in
  let secciones := _dividir_secciones_formulario lineas in
  experiencia <-
    _extraer_experiencia_formulario
      (dict_get_or secciones (u "experiencia_laboral") []) ;;
  Ok (experiencia, calcular_anios_experiencia experiencia, length experiencia).

End FuncionPublica.

(** *** limpiar.py: the cleaning of the extracted text *)

Definition PAT_NO_PERMITIDO : pystr := u "[^\w\s\n\-@./,áéíóúüñÁÉÍÓÚÜÑ]".
Definition PAT_BLANCOS : pystr := u "[ \t]+".

(** The loop that keeps one empty line of every run of empty lines;
    [linea_vacia_anterior] is the flag of the source. *)
Fixpoint quitar_vacias_repetidas (linea_vacia_anterior : bool)
  (lineas : list pystr) : list pystr :=
  match lineas with
  | [] => []
  | linea :: resto =>
      if str_eqb linea []
      then if negb linea_vacia_anterior
           then linea :: quitar_vacias_repetidas true resto
           else quitar_vacias_repetidas true resto
      else linea :: quitar_vacias_repetidas false resto
  end.

Section Limpieza.

Variable db : UCD.

(** [unicodedata.normalize("NFC", _)] on a text that is not ASCII. *)
Variable nfc_ext : pystr -> pystr.

Definition limpiar_texto (texto : pystr) : pystr :=
  let texto := if forallb is_ascii texto then texto else nfc_ext texto in
  let texto := re_sub db (re_compile false PAT_NO_PERMITIDO) (u " ") texto in
  let texto := re_sub db (re_compile false PAT_BLANCOS) (u " ") texto in
  let lineas := map (strip db) (split_on 10 texto) in
  let lineas_limpias := quitar_vacias_repetidas false lineas in
  strip db (join NL lineas_limpias).

End Limpieza.

(** No empty line stands next to an empty line. *)
Fixpoint vacias_simples (ls : list pystr) : bool :=
  match ls with
  | a :: t =>
      match t with
      | b :: _ => negb (str_eqb a [] && str_eqb b []) && vacias_simples t
      | [] => true
      end
  | [] => true
  end.

(** *** estructurar_cv.py: the doubles of [calcular_años_experiencia] *)

(** A finite binary64, (-1)^signo * mant * 2^expo: [mant] is below 2^53
    and at least 2^52 unless [expo] is -1074, [expo] is between -1074 and
    971, and zero has [mant] 0 and [expo] -1074. *)
Record doble : Type := { signo : bool; mant : Z; expo : Z }.

(** The integer nearest to [a / b], a tie going to the even one
    (0 <= a, 0 < b). *)
Definition redondeo_par (a b : Z) : Z :=
  let q := (a / b)%Z in
  let r := (a mod b)%Z in
  if (2 * r <? b)%Z then q
  else if (b <? 2 * r)%Z then (q + 1)%Z
  else if Z.even q then q else (q + 1)%Z.

(** The exponent k with 2^k <= n / d < 2^(k+1) (0 < n, 0 < d). *)
Definition exponente (n d : Z) : Z :=
  let k0 := (Z.log2 n - Z.log2 d)%Z in
  if (d * 2 ^ Z.max 0 k0 <=? n * 2 ^ Z.max 0 (- k0))%Z
  then k0 else (k0 - 1)%Z.

(** The double nearest to [n / d] (0 < n, 0 < d), a tie going to the even
    mantissa, as mantissa and exponent; [None] beyond the largest double. *)
Definition cociente_doble (n d : Z) : option (Z * Z) :=
  let e := Z.max (-1074) (exponente n d - 52) in
  let m := redondeo_par (n * 2 ^ Z.max 0 (- e)) (d * 2 ^ Z.max 0 e) in
  let me := if (m =? 2 ^ 53)%Z then (2 ^ 52, e + 1)%Z else (m, e) in
  if (971 <? snd me)%Z then None else Some me.

(** [n / d] on [int]: the double nearest to the quotient. *)
Definition truediv (n d : Z) : py doble :=
  if (d =? 0)%Z then Raise ZeroDivisionError
  else
    let negativo := xorb (n <? 0)%Z (d <? 0)%Z in
    if (n =? 0)%Z then Ok {| signo := negativo; mant := 0; expo := -1074 |}
    else
      match cociente_doble (Z.abs n) (Z.abs d) with
      | Some (m, e) => Ok {| signo := negativo; mant := m; expo := e |}
      | None => Raise OverflowError
      end.

(** [round(x, 1)]: the decimal with one digit after the point nearest to
    [x], a tie going to the even digit, read back as a double. *)
Definition round_1 (x : doble) : py doble :=
  let t := if (0 <=? expo x)%Z then (10 * mant x * 2 ^ expo x)%Z
           else redondeo_par (10 * mant x) (2 ^ (- expo x)) in
  if (t =? 0)%Z then Ok {| signo := signo x; mant := 0; expo := -1074 |}
  else
    match cociente_doble t 10 with
    | Some (m, e) => Ok {| signo := signo x; mant := m; expo := e |}
    | None => Raise OverflowError
    end.

(** [calcular_años_experiencia] as the source computes it:
    [round(total_meses / 12, 1)] on doubles. *)
Definition calcular_anios_experiencia_doble (trabajos : list trabajo)
  : py doble :=
  let total_meses :=
    fold_left (fun acc t => (acc + meses_de t)%Z) trabajos 0%Z in
  x <- truediv total_meses 12 ;;
  round_1 x.

(** *** Definitions for the further properties *)

(** A bare year: four digits. *)
Definition forma_anio (db : UCD) (f : pystr) : Prop := digitos db 4 f.

(** A date as months since year 0. *)
Definition en_meses (d : Z * Z) : Z := fst d * 12 + snd d.

(** The sum of the durations of a list of jobs, a missing one counting 0. *)
Definition total_meses (l : list trabajo) : Z :=
  fold_right (fun t acc => (meses_de t + acc)%Z) 0%Z l.

(** [a] is [b] with some elements left out, the order kept. *)
Inductive sublista {A : Type} : list A -> list A -> Prop :=
| sub_nil : sublista [] []
| sub_skip : forall x a b, sublista a b -> sublista a (x :: b)
| sub_keep : forall x a b, sublista a b -> sublista (x :: a) (x :: b).

(** One entry of the accumulator after a line: the same, or one line longer. *)
Definition crece (l : pystr) (kv kv' : pystr * list pystr) : Prop :=
  fst kv' = fst kv /\ (snd kv' = snd kv \/ snd kv' = snd kv ++ [l]).

(** What an entry has gained over a run of lines. *)
Definition gana (db0 : UCD) (lineas : list pystr)
  (kv kv' : pystr * list pystr) : Prop :=
  fst kv' = fst kv
  /\ exists mas,
       snd kv' = snd kv ++ mas /\ sublista mas lineas
       /\ Forall (fun l => es_encabezado_principal db0 l = None) mas.

(** A pattern that has no group in it. *)
Fixpoint sin_grupos (r : regex) : bool :=
  match r with
  | RGroup _ _ => false
  | RSeq a b | RAlt a b => sin_grupos a && sin_grupos b
  | RRep a _ _ => sin_grupos a
  | _ => true
  end.

(** The tokens of one line: bare years, or years and months. *)
Definition fechas_de_una_forma (db : UCD) (fechas : list pystr) : Prop :=
  Forall (forma_anio db) fechas \/ Forall (forma_anio_mes db) fechas.

(** A start date is a token of the date extractor; an end date is one
    too, or the word "presente". *)
Definition inicio_ok (db : UCD) (o : option pystr) : Prop :=
  forall f, o = Some f -> forma_anio db f \/ forma_anio_mes db f.

Definition fin_ok (db : UCD) (o : option pystr) : Prop :=
  forall f, o = Some f ->
            f = u "presente" \/ forma_anio db f \/ forma_anio_mes db f.

Definition responsabilidad_larga (r : pystr) : Prop := (8 < length r)%nat.

(** A job has a duration only between two tokens of year and month. *)
Definition duracion_bien (db : UCD) (t : trabajo) : Prop :=
  forall d, duracion_meses t = Some d ->
            (0 <= d)%Z
            /\ exists i f, fecha_inicio t = Some i /\ fecha_fin t = Some f
                           /\ forma_anio_mes db i /\ forma_anio_mes db f.

Definition trabajo_bien (db : UCD) (t : trabajo) : Prop :=
  inicio_ok db (fecha_inicio t) /\ fin_ok db (fecha_fin t)
  /\ Forall responsabilidad_larga (responsabilidades t)
  /\ duracion_bien db t.

(** The job that is still open has no duration yet. *)
Definition abierto_bien (db : UCD) (t : trabajo) : Prop :=
  inicio_ok db (fecha_inicio t) /\ fin_ok db (fecha_fin t)
  /\ duracion_meses t = None.

Definition abiertos (st : estado) : nat :=
  match trabajo_actual st with Some _ => 1 | None => 0 end.

(** The state of the parser after [n] lines. *)
Definition estado_bien (db : UCD) (n : nat) (st : estado) : Prop :=
  Forall (trabajo_bien db) (trabajos st)
  /\ match trabajo_actual st with
     | Some t => abierto_bien db t
     | None => True
     end
  /\ Forall responsabilidad_larga (pendientes st)
  /\ (length (trabajos st) + abiertos st <= n)%nat.

(** What is closed and what is pending, apart from the open job. *)
Definition base_bien (db : UCD) (n : nat) (st : estado) : Prop :=
  Forall (trabajo_bien db) (trabajos st)
  /\ Forall responsabilidad_larga (pendientes st)
  /\ (length (trabajos st) <= n)%nat.

(** The separator of "Empresa - Cargo": white space, a hyphen or an en
    dash, white space. *)
Definition forma_guion (db : UCD) (sep : pystr) : Prop :=
  exists w1 c w2,
    sep = w1 ++ c :: w2 /\ w1 <> [] /\ w2 <> []
    /\ Forall (fun x => isspace db x = true) w1
    /\ Forall (fun x => isspace db x = true) w2
    /\ (c = 45%N \/ c = 8211%N).

(** The two parts of a line about its separator, stripped. *)
Definition partes_de (db : UCD) (linea izq der : pystr) : Prop :=
  exists p0 sep p1,
    linea = p0 ++ sep ++ p1 /\ forma_guion db sep
    /\ izq = strip db p0 /\ der = strip db p1.

(** Cutting a text at every character that [ok] accepts. *)
Fixpoint split_por (ok : N -> bool) (s : pystr) : list pystr :=
  match s with
  | [] => [[]]
  | c :: t =>
      if ok c then [] :: split_por ok t
      else match split_por ok t with
           | l :: ls => (c :: l) :: ls
           | [] => [[c]]
           end
  end.

(** The separators of a list of skills: newline, comma, semicolon,
    bullet, hyphen. *)
Definition es_separador_lista (c : N) : bool :=
  existsb (N.eqb c) [10; 44; 59; 8226; 45]%N.

(** The shape of an e-mail address: a local part, the sign @, a domain,
    a dot and two letters or more. *)
Definition es_letra (c : N) : bool := in_range 97 122 c || in_range 65 90 c.

Definition es_dominio (c : N) : bool :=
  es_letra c || in_range 48 57 c || (c =? 46)%N || (c =? 45)%N.

Definition es_local (c : N) : bool :=
  es_letra c || in_range 48 57 c
  || existsb (N.eqb c) [46; 95; 37; 43; 45]%N.

Definition forma_email (e : pystr) : Prop :=
  exists loc dom tld,
    e = loc ++ 64%N :: dom ++ 46%N :: tld
    /\ loc <> [] /\ dom <> [] /\ (2 <= length tld)%nat
    /\ Forall (fun c => es_local c = true) loc
    /\ Forall (fun c => es_dominio c = true) dom
    /\ Forall (fun c => es_letra c = true) tld.

(** A year of the twentieth or the twenty-first century. *)
Definition anio_de_siglo (db : UCD) (a : pystr) : Prop :=
  exists x y,
    (a = [49; 57; x; y]%N \/ a = [50; 48; x; y]%N)
    /\ isdecimal db x = true /\ isdecimal db y = true.

(** One key of an education entry: the year, taken from a line, or the
    title or the institution, nothing or a line. *)
Definition campo_bien (db : UCD) (lineas : list pystr)
  (kv : pystr * option pystr) : Prop :=
  (fst kv = u "año"
   /\ exists a l, snd kv = Some a /\ anio_de_siglo db a
                  /\ In l lineas /\ aparece_en a l)
  \/ ((fst kv = u "titulo" \/ fst kv = u "institucion")
      /\ (snd kv = None \/ exists l, snd kv = Some l /\ In l lineas)).

Definition entrada_bien (db : UCD) (lineas : list pystr) (e : entrada)
  : Prop :=
  Forall (campo_bien db lineas) e.

(** The length of the run of characters that [ok] accepts at the head
    of a text. *)
Fixpoint racha (ok : N -> bool) (s : pystr) : nat :=
  match s with
  | c :: t => if ok c then S (racha ok t) else 0
  | [] => 0
  end.

(** Every run of characters that [ok] accepts replaced by [repl];
    [en_racha] says that the run has begun. *)
Fixpoint colapsar_aux (ok : N -> bool) (repl : pystr) (en_racha : bool)
  (s : pystr) : pystr :=
  match s with
  | [] => []
  | c :: t =>
      if ok c then
        if en_racha then colapsar_aux ok repl true t
        else repl ++ colapsar_aux ok repl true t
      else c :: colapsar_aux ok repl false t
  end.

(** Every character that [ok] accepts replaced by [repl]. *)
Definition sustituir (ok : N -> bool) (repl : pystr) (s : pystr) : pystr :=
  flat_map (fun c => if ok c then repl else [c]) s.

(** A lower-case ASCII letter, a digit or the underscore. *)
Definition es_palabra_min (c : N) : bool :=
  in_range 97 122 c || in_range 48 57 c || (c =? 95)%N.

(** No blank stands next to a blank. *)
Fixpoint espacios_simples (s : pystr) : bool :=
  match s with
  | a :: t =>
      match t with
      | b :: _ => negb ((a =? 32)%N && (b =? 32)%N) && espacios_simples t
      | [] => true
      end
  | [] => true
  end.

(** A text ready for comparison: words of lower-case letters, digits and
    underscores, one blank between two words, no blank at either end. *)
Definition limpio (db : UCD) (s : pystr) : Prop :=
  Forall (fun c => es_palabra_min c = true \/ c = 32%N) s
  /\ espacios_simples s = true
  /\ strip db s = s.



(** A month of two digits, 01 to 12. *)
Definition mes_dos_digitos (mm : pystr) : Prop :=
  (exists x, mm = [48%N; x] /\ in_range 49 57 x = true)
  \/ (exists y, mm = [49%N; y] /\ in_range 48 50 y = true).

(** A date as the labelled pass over the form writes it. *)
Definition fecha_de_formulario (db : UCD) (f : pystr) : Prop :=
  exists a mm, f = a ++ 45%N :: mm /\ anio_de_siglo db a /\ mes_dos_digitos mm.

Definition fechas_de_formulario (db : UCD) (t : trabajo) : Prop :=
  (forall f, fecha_inicio t = Some f -> fecha_de_formulario db f)
  /\ (forall f, fecha_fin t = Some f ->
                f = u "presente" \/ fecha_de_formulario db f).

(** A job that the labelled pass returns. *)
Definition trabajo_etiquetado (db : UCD) (ahora : Z * Z) (t : trabajo)
  : Prop :=
  fechas_de_formulario db t
  /\ truthy_opt (empresa t) || truthy_opt (cargo t) = true
  /\ responsabilidades t = []
  /\ match fecha_inicio t, fecha_fin t with
     | Some i, Some f =>
         if str_eqb f (u "presente") then duracion_meses t = None
         else calcular_duracion_meses db ahora (Some i) (Some f)
              = Ok (duracion_meses t)
     | _, _ => duracion_meses t = None
     end.

(** A job that the fallback pass returns. *)
Definition trabajo_heuristico (db : UCD) (t : trabajo) : Prop :=
  (exists e, empresa t = Some e /\ str_isupper db e = true
             /\ (5 < length e < 80)%nat)
  /\ cargo t = None /\ duracion_meses t = None /\ responsabilidades t = []
  /\ (forall f, fecha_inicio t = Some f -> forma_anio db f)
  /\ (forall f, fecha_fin t = Some f -> forma_anio db f).

(** The decimal digits of the database have the values 0 to 9. *)
Definition decimales_bien (db : UCD) : Prop :=
  forall c, isdecimal db c = true -> (0 <= todecimal db c <= 9)%Z.

(* ------------------------------------------------------------------ *)
(** ** Theorems *)

(** Split on the condition of a conditional of the goal. *)
Ltac caso_si :=
  match goal with
  | |- context [if ?c then _ else _] => destruct c
  end.

Lemma sulicor_cerrados db env ahora :
  trabajos_cerrados db env ahora LINEA_SULICOR = Ok [trabajo_sulicor].
Proof. vm_compute. reflexivity. Qed.

Lemma enriquecer_trabajo_con_empresa db env orgs texto t :
  truthy_opt (empresa t) = true ->
  enriquecer_trabajo db env orgs texto t = t.
Proof. intros H. unfold enriquecer_trabajo. now rewrite H. Qed.

Lemma enriquecer_con_empresa db env texto l :
  Forall (fun t => truthy_opt (empresa t) = true) l ->
  enriquecer_trabajos_con_nlp db env l texto = l.
Proof.
  intros H. unfold enriquecer_trabajos_con_nlp.
  destruct env as [|[nlp|]]; try reflexivity.
  destruct l as [|t l]; [reflexivity|].
  destruct (orgs_del_texto db nlp texto) as [|o orgs]; [reflexivity|].
  generalize (o :: orgs). intros os.
  induction H as [|x xs Hx _ IH]; [reflexivity|].
  simpl. rewrite IH. now rewrite enriquecer_trabajo_con_empresa.
Qed.

(** C3: the line "SULICOR SAS  04-2025  12-2025" gives exactly one job,
    company "SULICOR SAS", from 2025-04 to 2025-12, eight months long,
    whatever the state of the enrichment collaborator. *)
Theorem parsear_experiencia_sulicor :
  forall db env ahora,
    parsear_experiencia db env ahora LINEA_SULICOR = Ok [trabajo_sulicor].
Proof.
  intros db env ahora. unfold parsear_experiencia.
  replace (negb (truthy (strip db LINEA_SULICOR))) with false
    by (vm_compute; reflexivity).
  rewrite sulicor_cerrados. cbn [bind].
  replace (filter tiene_cargo_o_empresa [trabajo_sulicor])
    with [trabajo_sulicor] by reflexivity.
  rewrite enriquecer_con_empresa; [reflexivity|].
  repeat constructor.
Qed.

(** C2: in both modes in which the enrichment collaborator is not
    available, spaCy there and the model es_core_news_lg missing, or
    spaCy itself missing, [cargar_modelo] leaves [spacy_disponible] false
    and the line "Honor y laurel - Analista de Procesos" gives exactly
    one job, the company "Honor y laurel" on the left of the hyphen and
    the title "Analista de Procesos" on its right. *)
Theorem parsear_experiencia_honor_y_laurel :
  forall db ahora,
    spacy_disponible (ConModulo (cargar_modelo SinModelo)) = false
    /\ spacy_disponible (ConModulo (cargar_modelo SinSpacy)) = false
    /\ parsear_experiencia db (ConModulo (cargar_modelo SinModelo)) ahora
         LINEA_HONOR
       = Ok [trabajo_honor]
    /\ parsear_experiencia db (ConModulo (cargar_modelo SinSpacy)) ahora
         LINEA_HONOR
       = Ok [trabajo_honor].
Proof. intros db ahora. repeat split; vm_compute; reflexivity. Qed.

(** The stubs of estructurar_cv.py, lines 13-16, stand in only when
    nlp_spacy itself cannot be imported, which is neither of the two
    modes above: [import spacy] is inside [cargar_modelo].  With them the
    same line gives no job. *)
Lemma parsear_experiencia_honor_sin_modulo :
  forall db ahora,
    parsear_experiencia db SinModulo ahora LINEA_HONOR = Ok [].
Proof. intros db ahora. vm_compute. reflexivity. Qed.

(** C1: the line "2025-2023" comes back as the years 2025, 2023 in that
    order, although "2023" < "2025": two bare years are not put in order. *)
Theorem extraer_fechas_anios_sin_ordenar :
  forall db,
    extraer_fechas_de_linea db (u "2025-2023") = Ok ([u "2025"; u "2023"], false)
    /\ str_ltb (u "2023") (u "2025") = true
    /\ extraer_fechas_de_linea db (u "de 2025 a 2023")
       = Ok ([u "2025"; u "2023"], false).
Proof. intros db. repeat split; vm_compute; reflexivity. Qed.

(** *** The matcher finds only what the pattern says *)

Section Correccion.

Variable db : UCD.

Lemma one_char_sound R ok s g (k : kont R) v :
  one_char ok s g k = Some v ->
  exists c s', s = c :: s' /\ ok c = true /\ k (Some c) s' g = Some v.
Proof.
  destruct s as [|c s']; simpl; [discriminate|].
  destruct (ok c) eqn:E; [|discriminate].
  intros H. exists c, s'. auto.
Qed.

Lemma one_char_denota R ok p s g (k : kont R) v :
  one_char ok s g k = Some v ->
  exists p' s' g', un_caracter ok p s g p' s' g' /\ k p' s' g' = Some v.
Proof.
  intros H. apply one_char_sound in H. destruct H as (x & s' & -> & Hc & Hk).
  exists (Some x), s', g. split; [|exact Hk]. exists x. auto.
Qed.

Lemma rounds_sound R body (k : kont R) (D : paso_rel) :
  (forall p s g k' v, body p s g k' = Some v ->
     exists p' s' g', D p s g p' s' g' /\ k' p' s' g' = Some v) ->
  forall budget lo p s g v,
    rounds body k budget lo p s g = Some v ->
    exists n p' s' g',
      (lo <= n)%nat /\ (n <= budget)%nat /\ iter n D p s g p' s' g'
      /\ k p' s' g' = Some v.
Proof.
  intros Hbody. induction budget as [|b IH]; intros lo p s g v H.
  - simpl in H. destruct lo; [|discriminate].
    exists 0%nat, p, s, g. simpl. repeat split; auto.
  - simpl in H.
    destruct (body p s g _) as [v'|] eqn:E.
    + inversion H; subst v'. clear H.
      apply Hbody in E. destruct E as (p1 & s1 & g1 & HD & Hk).
      destruct (length s1 <? length s)%nat; [|discriminate].
      apply IH in Hk. destruct Hk as (n & p' & s' & g' & Hlo & Hhi & Hit & Hk).
      exists (S n), p', s', g'. repeat split; try lia; auto.
      simpl. exists p1, s1, g1. auto.
    + destruct lo; [|discriminate].
      exists 0%nat, p, s, g. simpl. repeat split; auto; lia.
Qed.

Lemma rx_sound R (r : regex) :
  forall p s g (k : kont R) v,
    rx db r p s g k = Some v ->
    exists p' s' g', denota db r p s g p' s' g' /\ k p' s' g' = Some v.
Proof.
  induction r; intros p s g k v H; simpl in H;
    try (cbn [denota]; eapply one_char_denota; eassumption).
  - exists p, s, g. simpl. auto.
  - discriminate.
  - apply IHr1 in H. destruct H as (p1 & s1 & g1 & H1 & H).
    apply IHr2 in H. destruct H as (p2 & s2 & g2 & H2 & H).
    exists p2, s2, g2. split; [|exact H]. simpl. exists p1, s1, g1. auto.
  - destruct (rx db r1 p s g k) as [v'|] eqn:E.
    + inversion H; subst v'. apply IHr1 in E.
      destruct E as (p1 & s1 & g1 & H1 & Hk).
      exists p1, s1, g1. simpl. auto.
    + apply IHr2 in H. destruct H as (p1 & s1 & g1 & H1 & Hk).
      exists p1, s1, g1. simpl. auto.
  - apply rounds_sound with (D := denota db r) in H;
      [|intros p0 s0 g0 k0 v0 H0; apply IHr in H0; exact H0].
    destruct H as (n & p' & s' & g' & Hlo & Hhi & Hit & Hk).
    exists p', s', g'. split; [|exact Hk]. simpl. exists n.
    repeat split; auto. destruct hi; auto.
  - apply IHr in H. destruct H as (p1 & s1 & g1 & H1 & Hk).
    eexists p1, s1, _. split; [|exact Hk]. simpl. exists g1. auto.
  - destruct (at_boundary db p s) eqn:E; [|discriminate].
    exists p, s, g. simpl. unfold aqui. auto.
  - destruct (is_none p) eqn:E; [|discriminate].
    exists p, s, g. simpl. unfold aqui. auto.
  - destruct (at_eol s) eqn:E; [|discriminate].
    exists p, s, g. simpl. unfold aqui. auto.
Qed.

(** What is left is an end of what there was. *)
Lemma iter_suffix (D : paso_rel) :
  (forall p s g p' s' g', D p s g p' s' g' -> exists w, s = w ++ s') ->
  forall n p s g p' s' g', iter n D p s g p' s' g' -> exists w, s = w ++ s'.
Proof.
  intros HD. induction n as [|n IH]; intros p s g p' s' g' H; simpl in H.
  - destruct H as (_ & -> & _). exists []. reflexivity.
  - destruct H as (pm & sm & gm & H1 & H2).
    apply HD in H1. apply IH in H2.
    destruct H1 as [w1 ->]. destruct H2 as [w2 ->].
    exists (w1 ++ w2). now rewrite app_assoc.
Qed.

Lemma un_caracter_suffix ok p s g p' s' g' :
  un_caracter ok p s g p' s' g' -> exists w, s = w ++ s'.
Proof. intros (c & -> & _). exists [c]. reflexivity. Qed.

Lemma aqui_suffix cond p s g p' s' g' :
  aqui cond p s g p' s' g' -> exists w : pystr, s = w ++ s'.
Proof. intros (_ & _ & -> & _). exists []. reflexivity. Qed.

Lemma denota_suffix (r : regex) :
  forall p s g p' s' g', denota db r p s g p' s' g' -> exists w, s = w ++ s'.
Proof.
  induction r; intros p s g p' s' g' H; simpl in H;
    eauto using un_caracter_suffix, aqui_suffix.
  - destruct H as (_ & -> & _). exists []. reflexivity.
  - contradiction.
  - destruct H as (pm & sm & gm & H1 & H2).
    apply IHr1 in H1. apply IHr2 in H2.
    destruct H1 as [w1 ->]. destruct H2 as [w2 ->].
    exists (w1 ++ w2). now rewrite app_assoc.
  - destruct H as [H|H]; eauto.
  - destruct H as (n & _ & _ & H). eapply iter_suffix; eauto.
  - destruct H as (ga & H & _). eauto.
Qed.

Lemma firstn_consumed (w rest : pystr) :
  firstn (length (w ++ rest) - length rest) (w ++ rest) = w.
Proof.
  rewrite length_app. replace (length w + length rest - length rest)%nat
    with (length w + 0)%nat by lia.
  rewrite firstn_app_2. simpl. now rewrite app_nil_r.
Qed.

Lemma match_here_sound r p s adv g s' :
  match_here db r p s adv = Some (g, s') ->
  exists w p', s = w ++ s' /\ denota db r p s [] p' s' g.
Proof.
  unfold match_here. intros H. apply rx_sound in H.
  destruct H as (p' & s1 & g1 & HD & Hk).
  destruct (adv && (length s1 =? length s)%nat); [discriminate|].
  inversion Hk; subst. destruct (denota_suffix _ _ _ _ _ _ _ HD) as [w Hw].
  exists w, p'. auto.
Qed.

Lemma match_here_text r p s adv res i :
  match_here db r p s adv = Some res ->
  exists p',
    s = m_text (mk_match i s res) ++ snd res
    /\ denota db r p (m_text (mk_match i s res) ++ snd res) [] p' (snd res)
         (fst res).
Proof.
  destruct res as [g s']. intros H.
  apply match_here_sound in H. destruct H as (w & p' & Hw & HD).
  exists p'. unfold mk_match. simpl. subst s.
  rewrite firstn_consumed. auto.
Qed.

(** [re.search] answers with a piece of the subject that the pattern
    denotes, at the place where it stands. *)
Lemma search_from_sound r :
  forall s p i m,
    search_from db r p s i = Some m ->
    exists pre rest p0 p',
      s = pre ++ m_text m ++ rest
      /\ m_start m = (i + length pre)%nat
      /\ denota db r p0 (m_text m ++ rest) [] p' rest (m_caps m).
Proof.
  induction s as [|c t IH]; intros p i m H; simpl in H.
  - destruct (match_here db r p [] false) as [res|] eqn:E; [|discriminate].
    inversion H; subst m. clear H.
    destruct (match_here_text _ _ _ _ i E) as (p' & Hs & HD).
    exists [], (snd res), p, p'. simpl. repeat split; auto.
  - destruct (match_here db r p (c :: t) false) as [res|] eqn:E.
    + inversion H; subst m. clear H.
      destruct (match_here_text _ _ _ _ i E) as (p' & Hs & HD).
      exists [], (snd res), p, p'. simpl. repeat split; auto.
    + apply IH in H. destruct H as (pre & rest & p0 & p' & Hs & Hi & HD).
      exists (c :: pre), rest, p0, p'. simpl. rewrite <- Hs.
      repeat split; auto. rewrite Hi. lia.
Qed.

Lemma re_search_sound r s m :
  re_search db r s = Some m ->
  exists pre rest p0 p',
    s = pre ++ m_text m ++ rest
    /\ m_start m = length pre
    /\ denota db r p0 (m_text m ++ rest) [] p' rest (m_caps m).
Proof.
  intros H. apply search_from_sound in H.
  destruct H as (pre & rest & p0 & p' & Hs & Hi & HD).
  exists pre, rest, p0, p'. auto.
Qed.

(** [re.match] answers with a beginning of the subject that the pattern
    denotes. *)
Lemma re_match_sound r s m :
  re_match db r s = Some m ->
  exists rest p',
    s = m_text m ++ rest
    /\ denota db r None (m_text m ++ rest) [] p' rest (m_caps m).
Proof.
  unfold re_match. intros H.
  destruct (match_here db r None s false) as [res|] eqn:E; [|discriminate].
  inversion H; subst m. clear H.
  destruct (match_here_text _ _ _ _ 0 E) as (p' & Hs & HD).
  exists (snd res), p'. auto.
Qed.

End Correccion.

(** *** Substituting a character class by nothing is filtering *)

Section Filtrado.

Variable db : UCD.

Lemma join_nil (l : list pystr) : join [] l = concat l.
Proof.
  induction l as [|a [|b l] IH]; simpl in *; auto.
  - now rewrite app_nil_r.
  - now rewrite IH.
Qed.

Lemma slice_same (s0 : pystr) i : slice s0 i i = [].
Proof. unfold slice. now rewrite Nat.sub_diag. Qed.

Lemma slice_snoc (s0 : pystr) last i c t :
  (last <= i)%nat -> skipn i s0 = c :: t ->
  slice s0 last (S i) = slice s0 last i ++ [c].
Proof.
  intros Hle Hs. unfold slice.
  assert (Hsk : skipn (i - last) (skipn last s0) = c :: t).
  { rewrite skipn_skipn. now replace (i - last + last)%nat with i by lia. }
  replace (S i - last)%nat with (S (i - last)) by lia.
  generalize dependent (skipn last s0). generalize (i - last)%nat.
  clear. induction n as [|n IH]; intros l Hl.
  - simpl in Hl. subst l. reflexivity.
  - destruct l as [|x l]; [discriminate|].
    simpl in Hl. simpl. f_equal. now apply IH.
Qed.

Lemma slice_to_end (s0 : pystr) last i :
  skipn i s0 = [] -> slice s0 last i = skipn last s0.
Proof.
  intros H. unfold slice. apply firstn_all2.
  rewrite length_skipn.
  assert (length (skipn i s0) = 0)%nat by now rewrite H.
  rewrite length_skipn in *. lia.
Qed.

Lemma match_here_clase neg items p s :
  match_here db (RIn neg items) p s false =
  match s with
  | c :: t => if class_mem db neg items c then Some ([], t) else None
  | [] => None
  end.
Proof.
  unfold match_here. simpl. destruct s as [|c t]; simpl; [reflexivity|].
  destruct (class_mem db neg items c); reflexivity.
Qed.

Lemma scan_clase neg items (s0 : pystr) :
  forall s p i last,
    (last <= i)%nat -> skipn i s0 = s ->
    concat (pieces s0 last (scan db (RIn neg items) p s i 0)) =
    slice s0 last i ++ filter (fun c => negb (class_mem db neg items c)) s.
Proof.
  induction s as [|c t IH]; intros p i last Hle Hs.
  - cbn [scan]. rewrite match_here_clase. cbn [pieces concat filter].
    rewrite !app_nil_r. symmetry. now apply slice_to_end.
  - cbn [scan]. rewrite match_here_clase.
    destruct (class_mem db neg items c) eqn:E.
    + unfold mk_match. cbn [m_text snd fst].
      replace (length (c :: t) - length t)%nat with 1%nat by (cbn [length]; lia).
      cbn [firstn length]. cbn [pieces concat]. unfold m_end. cbn [m_start m_text length].
      replace (i + 1)%nat with (S i) by lia.
      rewrite IH; [| lia |].
      * rewrite slice_same. cbn [filter]. rewrite E. reflexivity.
      * replace (S i) with (1 + i)%nat by lia. rewrite <- skipn_skipn.
        now rewrite Hs.
    + rewrite IH; [| lia |].
      * rewrite (slice_snoc _ Hle Hs). cbn [filter]. rewrite E. cbn [negb].
        rewrite <- app_assoc. reflexivity.
      * replace (S i) with (1 + i)%nat by lia. rewrite <- skipn_skipn.
        now rewrite Hs.
Qed.

Lemma re_sub_clase neg items s :
  re_sub db (RIn neg items) [] s =
  filter (fun c => negb (class_mem db neg items c)) s.
Proof.
  unfold re_sub, re_finditer. rewrite join_nil.
  rewrite (scan_clase neg items s (s := s) None (i := 0) (last := 0)); auto.
Qed.

End Filtrado.

(** *** The contact extractor *)

Section Contacto.

Variable db : UCD.

Lemma iter_un_caracter ok :
  forall n p s g p' s' g',
    iter n (un_caracter ok) p s g p' s' g' ->
    exists w, s = w ++ s' /\ length w = n
              /\ Forall (fun c => ok c = true) w /\ g' = g.
Proof.
  induction n as [|n IH]; intros p s g p' s' g' H; simpl in H.
  - destruct H as (_ & -> & ->). exists []. auto.
  - destruct H as (pm & sm & gm & (c & -> & _ & Hc & ->) & H).
    apply IH in H. destruct H as (w & -> & Hl & Hw & ->).
    exists (c :: w). simpl. auto.
Qed.

Lemma clase_digito c : class_mem db false [CDigit] c = isdecimal db c.
Proof. unfold class_mem. simpl. now rewrite orb_false_r. Qed.

Lemma clase_separador c :
  class_mem db false [CChr 45; CSpace] c = es_separador db c.
Proof. unfold class_mem, es_separador. simpl. now rewrite orb_false_r. Qed.

Lemma denota_digitos n p s g p' s' g' :
  denota db (RRep (RIn false [CDigit]) n (Some n)) p s g p' s' g' ->
  exists w, s = w ++ s' /\ digitos db n w /\ g' = g.
Proof.
  simpl. intros (k & Hlo & Hhi & H).
  assert (k = n) by lia. subst k.
  apply iter_un_caracter in H. destruct H as (w & -> & Hl & Hw & ->).
  exists w. split; [reflexivity|]. split; [|reflexivity]. split; [exact Hl|].
  eapply Forall_impl; [|exact Hw]. intros c Hc. now rewrite <- clase_digito.
Qed.

Lemma denota_separador_opcional p s g p' s' g' :
  denota db (RRep (RIn false [CChr 45; CSpace]) 0 (Some 1)) p s g p' s' g' ->
  exists w, s = w ++ s' /\ separador_opcional db w.
Proof.
  simpl. intros (k & _ & Hhi & H).
  apply iter_un_caracter in H. destruct H as (w & -> & Hl & Hw & _).
  exists w. split; [reflexivity|].
  destruct w as [|c [|d w]]; simpl in Hl; try lia.
  - now left.
  - right. exists c. split; [reflexivity|].
    inversion Hw; subst. now rewrite <- clase_separador.
Qed.

Lemma PAT_TELEFONO_compila :
  re_compile false PAT_TELEFONO =
  let d n := RRep (RIn false [CDigit]) n (Some n) in
  let sep := RRep (RIn false [CChr 45; CSpace]) 0 (Some 1) in
  RSeq RWordB
    (RSeq (RChr 51)
       (RSeq (d 2) (RSeq sep (RSeq (d 3) (RSeq sep (RSeq (d 2)
          (RSeq sep (RSeq (d 2) RWordB)))))))).
Proof. reflexivity. Qed.

Lemma PAT_GUION_ESPACIO_compila :
  re_compile false PAT_GUION_ESPACIO = RIn false [CChr 45; CSpace].
Proof. reflexivity. Qed.

Lemma denota_telefono p s g p' s' g' :
  denota db (re_compile false PAT_TELEFONO) p s g p' s' g' ->
  exists m, s = m ++ s' /\ forma_movil db m.
Proof.
  rewrite PAT_TELEFONO_compila. cbv zeta.
  intros (p1 & s1 & g1 & (_ & _ & -> & _) & H).
  destruct H as (p2 & s2 & g2 & (c & -> & _ & Hc & _) & H).
  apply N.eqb_eq in Hc. subst c.
  destruct H as (p3 & s3 & g3 & H1 & H). apply denota_digitos in H1.
  destruct H1 as (d1 & -> & Hd1 & _).
  destruct H as (p4 & s4 & g4 & H1 & H). apply denota_separador_opcional in H1.
  destruct H1 as (x1 & -> & Hx1).
  destruct H as (p5 & s5 & g5 & H1 & H). apply denota_digitos in H1.
  destruct H1 as (d2 & -> & Hd2 & _).
  destruct H as (p6 & s6 & g6 & H1 & H). apply denota_separador_opcional in H1.
  destruct H1 as (x2 & -> & Hx2).
  destruct H as (p7 & s7 & g7 & H1 & H). apply denota_digitos in H1.
  destruct H1 as (d3 & -> & Hd3 & _).
  destruct H as (p8 & s8 & g8 & H1 & H). apply denota_separador_opcional in H1.
  destruct H1 as (x3 & -> & Hx3).
  destruct H as (p9 & s9 & g9 & H1 & H). apply denota_digitos in H1.
  destruct H1 as (d4 & -> & Hd4 & _).
  destruct H as (_ & _ & -> & _).
  exists (51%N :: d1 ++ x1 ++ d2 ++ x2 ++ d3 ++ x3 ++ d4). split.
  - simpl. now rewrite <- !app_assoc.
  - exists d1, x1, d2, x2, d3, x3, d4. repeat split; auto;
      apply Hd1 || apply Hd2 || apply Hd3 || apply Hd4.
Qed.

Lemma telefono_spec texto :
  telefono (parsear_contacto_desde_perfil db texto) =
  match re_search db (re_compile false PAT_TELEFONO) texto with
  | Some m => Some (sin_separadores db (m_text m))
  | None => None
  end.
Proof.
  unfold parsear_contacto_desde_perfil. cbn [telefono].
  destruct (re_search db (re_compile false PAT_TELEFONO) texto); [|reflexivity].
  rewrite PAT_GUION_ESPACIO_compila, re_sub_clase. unfold sin_separadores.
  f_equal. apply filter_ext. intros c. now rewrite clase_separador.
Qed.

(** C10: a phone is reported only for a text in which a mobile number
    stands (the digit 3, then groups of 2, 3, 2 and 2 digits, a hyphen or a
    blank or nothing between them), and what is reported is that piece of
    the text without its hyphens and blanks; for a text in which no such
    number stands no phone is reported. *)
Theorem telefono_solo_movil :
  forall texto,
    match telefono (parsear_contacto_desde_perfil db texto) with
    | Some v =>
        exists m, aparece_en m texto /\ forma_movil db m
                  /\ v = sin_separadores db m
    | None => True
    end
    /\ ((forall m, aparece_en m texto -> ~ forma_movil db m) ->
        telefono (parsear_contacto_desde_perfil db texto) = None).
Proof.
  intros texto. rewrite telefono_spec.
  destruct (re_search db (re_compile false PAT_TELEFONO) texto) as [m|] eqn:E;
    [|split; auto].
  apply re_search_sound in E.
  destruct E as (pre & rest & p0 & p' & Hs & _ & HD).
  apply denota_telefono in HD. destruct HD as (w & Hw & Hf).
  apply app_inv_tail in Hw. 
  assert (Hap : aparece_en (m_text m) texto) by (exists pre, rest; exact Hs).
  rewrite Hw in *. split.
  - exists w. auto.
  - intros Hno. exfalso. exact (Hno w Hap Hf).
Qed.

End Contacto.

(** *** The duration calculator *)

Section Duracion.

Variable db : UCD.

Lemma PAT_STRPTIME_YM_compila :
  re_compile true PAT_STRPTIME_YM =
  let d := RIn false [CDigit] in
  RSeq (RGroup 1 (RSeq d (RSeq d (RSeq d d))))
    (RSeq (RChr 45)
       (RGroup 2
          (RAlt (RSeq (RChr 49) (RIn false [CRange 48 50]))
             (RAlt (RSeq (RChr 48) (RIn false [CRange 49 57]))
                (RIn false [CRange 49 57]))))).
Proof. reflexivity. Qed.

Lemma denota_strptime p s g p' s' g' :
  denota db (re_compile true PAT_STRPTIME_YM) p s g p' s' g' ->
  exists yy mm,
    s = yy ++ 45%N :: mm ++ s' /\ digitos db 4 yy /\ forma_mes mm
    /\ g' = (2%nat, mm) :: (1%nat, yy) :: g.
Proof.
  rewrite PAT_STRPTIME_YM_compila. cbv zeta. cbn [denota].
  intros (p1 & s1 & g1 & (ga & Hy & Hg1) & p2 & s2 & g2
          & (c & Hs1 & _ & Hc & Hg2) & gb & Hm & Hg').
  apply N.eqb_eq in Hc. subst c.
  destruct Hy as (pa & sa & ga1 & (a & Hsa & _ & Ha & Hga1)
                  & pb & sb & gb1 & (b & Hsb & _ & Hb & Hgb1)
                  & pc & sc & gc1 & (c & Hsc & _ & Hc & Hgc1)
                  & (d & Hsd & _ & Hd & Hgd)).
  rewrite clase_digito in Ha, Hb, Hc, Hd.
  assert (Hmm : exists mm, s2 = mm ++ s' /\ forma_mes mm /\ gb = g2).
  { destruct Hm as [Hm|[Hm|Hm]].
    - destruct Hm as (pm & sm & gm & (x & -> & _ & Hx & ->)
                      & (y & -> & _ & Hy & ->)).
      apply N.eqb_eq in Hx. subst x.
      exists [49%N; y]. repeat split; auto. left. exists y. split; auto.
      unfold class_mem in Hy. simpl in Hy. now rewrite orb_false_r in Hy.
    - destruct Hm as (pm & sm & gm & (x & -> & _ & Hx & ->)
                      & (y & -> & _ & Hy & ->)).
      apply N.eqb_eq in Hx. subst x.
      exists [48%N; y]. repeat split; auto. right; left. exists y. split; auto.
      unfold class_mem in Hy. simpl in Hy. now rewrite orb_false_r in Hy.
    - destruct Hm as (y & -> & _ & Hy & ->).
      exists [y]. repeat split; auto. right; right. exists y. split; auto.
      unfold class_mem in Hy. simpl in Hy. now rewrite orb_false_r in Hy. }
  destruct Hmm as (mm & Hs2 & Hf & Hgb).
  subst. exists [a; b; c; d], mm. repeat split; auto.
  rewrite firstn_consumed.
  change (a :: b :: c :: d :: 45%N :: mm ++ s')
    with ([a; b; c; d] ++ 45%N :: mm ++ s').
  rewrite firstn_consumed. reflexivity.
Qed.

Lemma todecimal_ascii c :
  (c < 128)%N -> todecimal db c = (Z.of_N c - 48)%Z.
Proof.
  intros H. unfold todecimal, is_ascii.
  apply N.ltb_lt in H. now rewrite H.
Qed.

Lemma forma_mes_valor mm :
  forma_mes mm -> (1 <= int_of_digits db mm <= 12)%Z.
Proof.
  unfold forma_mes, in_range.
  intros [(x & -> & H)|[(x & -> & H)|(x & -> & H)]];
    apply andb_prop in H; destruct H as [H1 H2];
    apply N.leb_le in H1; apply N.leb_le in H2;
    unfold int_of_digits; cbn [fold_left];
    rewrite !todecimal_ascii by lia; lia.
Qed.

(** What [strptime] reads under "%Y-%m": four decimal digits, a hyphen
    and a month written 10 to 12, 01 to 09 or 1 to 9, and nothing else;
    the year is between 1 and 9999. *)
Lemma strptime_ym_forma s y m :
  strptime_ym db (Some s) = Ok (y, m) ->
  exists yy mm,
    s = yy ++ 45%N :: mm /\ digitos db 4 yy /\ forma_mes mm
    /\ y = int_of_digits db yy /\ m = int_of_digits db mm
    /\ (1 <= y <= 9999)%Z /\ (1 <= m <= 12)%Z.
Proof.
  unfold strptime_ym.
  destruct (re_match db (re_compile true PAT_STRPTIME_YM) s) as [mt|] eqn:E;
    [|discriminate].
  destruct (negb (length s =? m_end mt)%nat) eqn:El; [discriminate|].
  apply negb_false_iff, Nat.eqb_eq in El.
  assert (Hst : m_start mt = 0%nat).
  { unfold re_match in E. destruct (match_here _ _ _ _ _); [|discriminate].
    now inversion E. }
  apply re_match_sound in E. destruct E as (rest & p' & Hs & HD).
  unfold m_end in El. rewrite Hst in El. rewrite Hs in El at 1.
  rewrite length_app in El. assert (rest = []) by (destruct rest; [auto|simpl in El; lia]).
  subst rest. rewrite app_nil_r in *.
  apply denota_strptime in HD.
  destruct HD as (yy & mm & Hsh & Hyy & Hmm & Hg).
  rewrite app_nil_r in Hsh. unfold group. rewrite Hg. simpl.
  destruct ((1 <=? int_of_digits db yy)%Z && (int_of_digits db yy <=? 9999)%Z)
    eqn:Ey; [|discriminate].
  intros H. inversion H; subst y m. clear H.
  exists yy, mm. apply andb_prop in Ey. destruct Ey as [E1 E2].
  apply Z.leb_le in E1. apply Z.leb_le in E2.
  split; [congruence|]. split; [exact Hyy|]. split; [exact Hmm|].
  split; [reflexivity|]. split; [reflexivity|]. split; [lia|].
  now apply forma_mes_valor.
Qed.

Lemma calcular_duracion_meses_spec ahora inicio fin :
  calcular_duracion_meses db ahora inicio fin =
  match strptime_ym db inicio, fecha_final db ahora fin with
  | Ok d_inicio, Ok d_fin => Ok (Some (meses_entre d_inicio d_fin))
  | _, _ => Ok None
  end.
Proof.
  unfold calcular_duracion_meses, fecha_final, fin_abierto, meses_entre.
  destruct (strptime_ym db inicio) as [d_inicio|e]; [|reflexivity].
  cbn [bind try_except].
  destruct (truthy_opt fin); cbn [negb andb orb];
    [destruct (es_presente db fin); cbn [negb]|];
    try reflexivity.
  destruct (strptime_ym db fin); reflexivity.
Qed.

(** C5, as the code has it: when the start parses under "%Y-%m" and the
    end parses too, or is missing, empty or the word "presente" in any
    case (then it is the current month), the result is
    max(0, (end.year - start.year) * 12 + (end.month - start.month));
    when the start does not parse, or the end is none of those, the result
    is None; a number, when there is one, is never negative; and what
    parses is four digits, a hyphen and a month of one or two digits. *)
Theorem calcular_duracion_meses_formula :
  forall ahora inicio fin,
    (forall d_inicio d_fin,
        strptime_ym db inicio = Ok d_inicio ->
        fecha_final db ahora fin = Ok d_fin ->
        calcular_duracion_meses db ahora inicio fin
        = Ok (Some (meses_entre d_inicio d_fin)))
    /\ ((forall d, strptime_ym db inicio <> Ok d)
        \/ (forall d, fecha_final db ahora fin <> Ok d) ->
        calcular_duracion_meses db ahora inicio fin = Ok None)
    /\ (forall n, calcular_duracion_meses db ahora inicio fin = Ok (Some n) ->
                  (0 <= n)%Z)
    /\ (forall s y m, strptime_ym db (Some s) = Ok (y, m) ->
          exists yy mm, s = yy ++ 45%N :: mm /\ digitos db 4 yy /\ forma_mes mm
                        /\ (1 <= y <= 9999)%Z /\ (1 <= m <= 12)%Z).
Proof.
  intros ahora inicio fin. rewrite calcular_duracion_meses_spec.
  repeat split.
  - intros d_inicio d_fin -> ->. reflexivity.
  - intros [H|H].
    + destruct (strptime_ym db inicio) as [d|e]; [|reflexivity].
      now contradiction (H d).
    + destruct (strptime_ym db inicio); [|reflexivity].
      destruct (fecha_final db ahora fin) as [d|e]; [|reflexivity].
      now contradiction (H d).
  - intros n. destruct (strptime_ym db inicio); [|discriminate].
    destruct (fecha_final db ahora fin); [|discriminate].
    intros H. inversion H. unfold meses_entre. lia.
  - intros s y m H. apply strptime_ym_forma in H.
    destruct H as (yy & mm & H1 & H2 & H3 & _ & _ & H4 & H5).
    exists yy, mm. auto.
Qed.

Lemma calcular_duracion_meses_total ahora inicio fin :
  exists r, calcular_duracion_meses db ahora inicio fin = Ok r
            /\ match r with Some n => (0 <= n)%Z | None => True end.
Proof.
  rewrite calcular_duracion_meses_spec.
  destruct (strptime_ym db inicio); [|exists None; auto].
  destruct (fecha_final db ahora fin); [|exists None; auto].
  eexists. split; [reflexivity|]. unfold meses_entre. lia.
Qed.

Lemma digito_ascii_casos a :
  is_digit_chr a = true ->
  In a [48; 49; 50; 51; 52; 53; 54; 55; 56; 57]%N.
Proof.
  unfold is_digit_chr, in_range. intros H.
  apply andb_prop in H. destruct H as [H1 H2].
  apply N.leb_le in H1. apply N.leb_le in H2. simpl.
  assert (a = 48 \/ a = 49 \/ a = 50 \/ a = 51 \/ a = 52 \/ a = 53
          \/ a = 54 \/ a = 55 \/ a = 56 \/ a = 57)%N by lia.
  intuition auto.
Qed.

Lemma mes_sin_validar a b :
  In a [48; 49; 50; 51; 52; 53; 54; 55; 56; 57]%N ->
  In b [48; 49; 50; 51; 52; 53; 54; 55; 56; 57]%N ->
  extraer_fechas_de_linea db ([a; b] ++ u "-2025")
  = Ok ([u "2025-" ++ [a; b]], false).
Proof.
  intros Ha Hb. simpl in Ha, Hb.
  repeat (destruct Ha as [<-|Ha]; [|]); try contradiction;
    repeat (destruct Hb as [<-|Hb]; [|]); try contradiction;
    vm_compute; reflexivity.
Qed.

(** C9: the line "99-2025" gives the token "2025-99", and so does every
    two-digit month field before a year; the duration calculator answers
    every pair of inputs with None or a number that is not negative, it
    never raises, and a start such as "2025-99" gives None. *)
Theorem duracion_total_sin_validar_mes :
  extraer_fechas_de_linea db (u "99-2025") = Ok ([u "2025-99"], false)
  /\ (forall a b, is_digit_chr a = true -> is_digit_chr b = true ->
        extraer_fechas_de_linea db ([a; b] ++ u "-2025")
        = Ok ([u "2025-" ++ [a; b]], false))
  /\ (forall ahora inicio fin,
        exists r, calcular_duracion_meses db ahora inicio fin = Ok r
                  /\ match r with Some n => (0 <= n)%Z | None => True end)
  /\ (forall ahora fin,
        calcular_duracion_meses db ahora (Some (u "2025-99")) fin = Ok None).
Proof.
  split; [vm_compute; reflexivity|].
  split; [intros a b Ha Hb; apply mes_sin_validar; now apply digito_ascii_casos|].
  split; [apply calcular_duracion_meses_total|].
  intros ahora fin. rewrite calcular_duracion_meses_spec.
  replace (strptime_ym db (Some (u "2025-99"))) with (@Raise (Z * Z) ValueError)
    by (vm_compute; reflexivity).
  reflexivity.
Qed.

End Duracion.

(** The end "" is neither a year and a month nor the word "presente",
    and the calculator answers with a number: it takes the current month
    for it. *)
Lemma calcular_duracion_fin_vacio :
  strptime_ym ucd_basico (Some (u "")) = Raise ValueError
  /\ es_presente ucd_basico (Some (u "")) = false
  /\ calcular_duracion_meses ucd_basico (2026, 11)%Z
       (Some (u "2025-04")) (Some (u ""))
     = Ok (Some 19%Z).
Proof. repeat split; vm_compute; reflexivity. Qed.

(** *** The date extractor *)

Lemma str_eqb_eq a b : str_eqb a b = true <-> a = b.
Proof.
  revert b. induction a as [|x a IH]; intros [|y b]; simpl;
    try (split; [discriminate|discriminate]); try tauto.
  rewrite andb_true_iff, N.eqb_eq, IH. split.
  - intros [-> ->]. reflexivity.
  - intros H. inversion H. auto.
Qed.

Lemma str_eqb_refl a : str_eqb a a = true.
Proof. now apply str_eqb_eq. Qed.

Lemma existsb_str_eqb x seen :
  existsb (str_eqb x) seen = true <-> In x seen.
Proof.
  rewrite existsb_exists. split.
  - intros (y & Hy & E). apply str_eqb_eq in E. now subst.
  - intros H. exists x. split; [exact H|apply str_eqb_refl].
Qed.

Lemma dedup_aux_In seen l x :
  In x (dedup_aux seen l) <-> In x l /\ ~ In x seen.
Proof.
  revert seen. induction l as [|h t IH]; intros seen; simpl; [tauto|].
  destruct (existsb (str_eqb h) seen) eqn:E.
  - apply existsb_str_eqb in E. rewrite IH. split.
    + tauto.
    + intros [[->|H] Hn]; [contradiction|tauto].
  - assert (Hn : ~ In h seen).
    { intros H. apply existsb_str_eqb in H. congruence. }
    simpl. rewrite IH. simpl. split.
    + intros [->|[H1 H2]]; [tauto|]. split; [tauto|]. tauto.
    + intros [[->|H] H2]; [tauto|].
      destruct (list_eq_dec N.eq_dec h x) as [->|Hne]; [tauto|]. right. tauto.
Qed.




Lemma str_ltb_asym a :
  forall b, str_ltb a b = true -> str_ltb b a = false.
Proof.
  induction a as [|x a IH]; intros [|y b]; simpl; try discriminate; auto.
  destruct (x <? y)%N eqn:E1; destruct (y <? x)%N eqn:E2; auto;
    try discriminate.
  apply N.ltb_lt in E1. apply N.ltb_lt in E2. lia.
Qed.

Section Prioridad.

Variable db : UCD.

Lemma ordenar_fechas_spec fechas :
  exists fechas', ordenar_fechas db fechas = Ok fechas'
                  /\ salvo_orden fechas' fechas.
Proof.
  unfold ordenar_fechas.
  destruct fechas as [|f0 [|f1 [|f2 r]]]; cbn [length Nat.eqb];
    try (eexists; split; [reflexivity|now left]).
  unfold py_index. cbn [nth_error bind].
  destruct (es_anio_mes db f0); [|eexists; split; [reflexivity|now left]].
  destruct (es_anio_mes db f1); [|eexists; split; [reflexivity|now left]].
  destruct (str_ltb f1 f0); eexists; (split; [reflexivity|]).
  - right. exists f0, f1. auto.
  - now left.
Qed.

(** Two year-month tokens come back in order. *)
Lemma ordenar_fechas_anio_mes fechas a b :
  ordenar_fechas db fechas = Ok [a; b] ->
  es_anio_mes db a = true -> es_anio_mes db b = true ->
  str_leb a b = true.
Proof.
  unfold ordenar_fechas, str_leb.
  destruct fechas as [|f0 [|f1 [|f2 r]]]; cbn [length Nat.eqb];
    try (intros H; inversion H; fail).
  unfold py_index. cbn [nth_error bind].
  destruct (es_anio_mes db f0) eqn:E0.
  - destruct (es_anio_mes db f1) eqn:E1.
    + destruct (str_ltb f1 f0) eqn:El; intros H _ _; inversion H; subst.
      * now rewrite (str_ltb_asym _ _ El).
      * now rewrite El.
    + intros H _ Hb. inversion H; subst. congruence.
  - intros H Ha _. inversion H; subst. congruence.
Qed.

Lemma extraer_fechas_anio_mes_en_orden linea a b es_actual :
  extraer_fechas_de_linea db linea = Ok ([a; b], es_actual) ->
  es_anio_mes db a = true -> es_anio_mes db b = true ->
  str_leb a b = true.
Proof.
  unfold extraer_fechas_de_linea. intros H.
  destruct (ordenar_fechas db (fechas_candidatas db linea)) as [f|] eqn:E;
    [|discriminate].
  cbn [bind] in H. inversion H; subst.
  now apply ordenar_fechas_anio_mes with (fechas := fechas_candidatas db linea).
Qed.

Lemma fechas_candidatas_spec linea :
  fechas_candidatas db linea =
  primera_no_vacia
    [ fechas_ddmmyyyy db linea; fechas_rango_anios db linea;
      fechas_mmyyyy db linea; fechas_mes_nombre db (lower db linea);
      fechas_solo_anio db linea ].
Proof.
  unfold fechas_candidatas, si_vacia. cbn [primera_no_vacia].
  destruct (fechas_ddmmyyyy db linea); [|reflexivity].
  destruct (fechas_rango_anios db linea); [|reflexivity].
  destruct (fechas_mmyyyy db linea); [|reflexivity].
  destruct (fechas_mes_nombre db (lower db linea)); reflexivity.
Qed.


End Prioridad.

(** *** The experience parser *)

Section Cierre.

Variable db : UCD.
Variable env : nlp_env.
Variable ahora : Z * Z.

Lemma cerrar_trabajo_spec st :
  exists st', cerrar_trabajo db ahora st = Ok st'
    /\ linea_anterior st' = linea_anterior st
    /\ (trabajos st' = trabajos st
        \/ exists t, trabajos st' = trabajos st ++ [t] /\ (cerrado_bien db ahora) t).
Proof.
  unfold cerrar_trabajo. destruct (trabajo_actual st) as [t|]; [|eauto].
  set (t1 := con_responsabilidades t (pendientes st)).
  destruct (truthy_opt (fecha_inicio t1) && truthy_opt (fecha_fin t1)
            && opt_es_anio_mes db (fecha_inicio t1)
            && opt_es_anio_mes db (fecha_fin t1)) eqn:E.
  - destruct (calcular_duracion_meses_total db ahora (fecha_inicio t1)
                (fecha_fin t1)) as (d & Hd & _).
    rewrite Hd. cbn [bind]. eexists. split; [reflexivity|].
    cbn [linea_anterior trabajos]. split; [reflexivity|]. right.
    eexists. split; [reflexivity|]. intros _. exact Hd.
  - cbn [bind]. eexists. split; [reflexivity|].
    cbn [linea_anterior trabajos]. split; [reflexivity|]. right.
    eexists. split; [reflexivity|]. intros H.
    unfold fechas_completas in H. congruence.
Qed.

Lemma cerrar_trabajo_ok st :
  cerrados_bien db ahora st ->
  exists st', cerrar_trabajo db ahora st = Ok st' /\ cerrados_bien db ahora st'.
Proof.
  intros H. destruct (cerrar_trabajo_spec st) as (st' & E & _ & [Ht|(t & Ht & Hc)]).
  - exists st'. split; [exact E|]. unfold cerrados_bien. now rewrite Ht.
  - exists st'. split; [exact E|]. unfold cerrados_bien. rewrite Ht.
    apply Forall_app. split; [exact H|]. now constructor.
Qed.

Lemma fecha_de_inicio_ok fechas : exists f, fecha_de_inicio fechas = Ok f.
Proof.
  unfold fecha_de_inicio. destruct fechas as [|f r]; simpl; eauto.
Qed.

Lemma fecha_de_fin_ok fechas es_actual :
  exists f, fecha_de_fin fechas es_actual = Ok f.
Proof.
  unfold fecha_de_fin. destruct fechas as [|f0 [|f1 r]]; simpl; eauto.
Qed.

Lemma extraer_fechas_ok linea :
  exists r, extraer_fechas_de_linea db linea = Ok r.
Proof.
  unfold extraer_fechas_de_linea.
  destruct (ordenar_fechas_spec db (fechas_candidatas db linea)) as (f & -> & _).
  cbn [bind]. eauto.
Qed.

Lemma abrir_cerrados st t : cerrados_bien db ahora (abrir st t) <-> cerrados_bien db ahora st.
Proof. reflexivity. Qed.

Lemma recordar_cerrados st l : cerrados_bien db ahora (recordar st l) <-> cerrados_bien db ahora st.
Proof. reflexivity. Qed.

Lemma linea_resto_cerrados st t l :
  cerrados_bien db ahora st -> cerrados_bien db ahora (linea_resto db st t l).
Proof.
  intros H. unfold linea_resto.
  repeat caso_si;
    exact H.
Qed.

Lemma paso_ok st linea :
  cerrados_bien db ahora st ->
  exists st', paso db env ahora st linea = Ok st' /\ cerrados_bien db ahora st'.
Proof.
  intros H. unfold paso.
  destruct (extraer_fechas_ok linea) as ([fechas es_actual] & ->).
  cbn [bind fst snd].
  destruct (patron_guion db env fechas (es_linea_solo_fechas db linea) linea)
    as [[emp_guion cargo_guion]|].
  - destruct (cerrar_trabajo_ok H) as (st1 & -> & H1). cbn [bind]. eauto.
  - caso_si.
    + destruct (cerrar_trabajo_ok H) as (st1 & -> & H1). cbn [bind].
      destruct (fecha_de_inicio_ok fechas) as (i & ->).
      destruct (fecha_de_fin_ok fechas es_actual) as (f & ->).
      cbn [bind]. eauto.
    + caso_si.
      * destruct (fecha_de_inicio_ok fechas) as (i & ->).
        destruct (fecha_de_fin_ok fechas es_actual) as (f & ->).
        cbn [bind]. unfold bloque_fechas.
        destruct (trabajo_actual st) as [t|].
        -- cbn [bind]. eauto.
        -- destruct (cerrar_trabajo_ok H) as (st1 & -> & H1). cbn [bind]. eauto.
      * caso_si.
        -- unfold linea_cargo. destruct (trabajo_actual st) as [t|].
           ++ destruct (negb (truthy_opt (cargo t))).
              ** cbn [bind]. eauto.
              ** destruct (cerrar_trabajo_ok H) as (st1 & -> & H1).
                 cbn [bind]. eauto.
           ++ cbn [bind]. eauto.
        -- destruct (trabajo_actual st) as [t|].
           ++ destruct (negb (es_linea_solo_fechas db linea)).
              ** cbn [bind]. eexists. split; [reflexivity|].
                 apply recordar_cerrados. now apply linea_resto_cerrados.
              ** cbn [bind]. eauto.
           ++ cbn [bind]. eauto.
Qed.

Lemma recorrer_ok lineas :
  forall st, cerrados_bien db ahora st ->
  exists st', recorrer db env ahora st lineas = Ok st' /\ cerrados_bien db ahora st'.
Proof.
  induction lineas as [|l ls IH]; intros st H; simpl; [eauto|].
  destruct (paso_ok l H) as (st1 & -> & H1). cbn [bind]. now apply IH.
Qed.

Lemma trabajos_cerrados_ok texto :
  exists l, trabajos_cerrados db env ahora texto = Ok l /\ Forall (cerrado_bien db ahora) l.
Proof.
  unfold trabajos_cerrados.
  destruct (recorrer_ok (lineas_no_vacias db texto) (st := estado_inicial))
    as (st & -> & H); [constructor|].
  cbn [bind]. destruct (cerrar_trabajo_ok H) as (st1 & -> & H1).
  cbn [bind]. eauto.
Qed.

End Cierre.

Section Salida.

Variable db : UCD.

Lemma PAT_YM_compila :
  re_compile false PAT_YM =
  RSeq (RRep (RIn false [CDigit]) 4 (Some 4))
    (RSeq (RChr 45) (RRep (RIn false [CDigit]) 2 (Some 2))).
Proof. reflexivity. Qed.

Lemma digitos_4 yy :
  digitos db 4 yy ->
  exists a b c d, yy = [a; b; c; d]
    /\ isdecimal db a = true /\ isdecimal db b = true
    /\ isdecimal db c = true /\ isdecimal db d = true.
Proof.
  intros [Hl Hf]. destruct yy as [|a [|b [|c [|d [|e r]]]]]; try discriminate.
  inversion Hf as [|? ? Ha Hf1]; subst. inversion Hf1 as [|? ? Hb Hf2]; subst.
  inversion Hf2 as [|? ? Hc Hf3]; subst. inversion Hf3 as [|? ? Hd _]; subst.
  exists a, b, c, d. auto.
Qed.

Lemma digitos_2 mm :
  digitos db 2 mm ->
  exists a b, mm = [a; b] /\ isdecimal db a = true /\ isdecimal db b = true.
Proof.
  intros [Hl Hf]. destruct mm as [|a [|b [|e r]]]; try discriminate.
  inversion Hf as [|? ? Ha Hf1]; subst. inversion Hf1 as [|? ? Hb _]; subst.
  exists a, b. auto.
Qed.

(** A canonical year and month passes the test the parser makes of a date. *)
Lemma es_anio_mes_forma f : forma_anio_mes db f -> es_anio_mes db f = true.
Proof.
  intros (yy & mm & -> & Hy & Hm).
  destruct (digitos_4 Hy) as (a & b & c & d & -> & Ha & Hb & Hc & Hd).
  destruct (digitos_2 Hm) as (e & g & -> & He & Hg).
  unfold es_anio_mes, re_match, match_here. rewrite PAT_YM_compila.
  cbn. unfold class_mem. cbn.
  rewrite Ha, Hb, Hc, Hd, He, Hg. cbn. reflexivity.
Qed.

Variable env : nlp_env.
Variable ahora : Z * Z.

Lemma enriquecer_trabajo_spec orgs texto t :
  enriquecido t (enriquecer_trabajo db env orgs texto t).
Proof.
  unfold enriquecer_trabajo, enriquecido.
  destruct (truthy_opt (empresa t)) eqn:Ee; [now left|].
  destruct (cargo t) as [[|c0 c]|] eqn:Ec; [now left| |now left].
  destruct (primer_indice _ _ _); [|now left].
  match goal with
  | |- context [match List.find ?f ?l with _ => _ end] =>
      destruct (List.find f l)
  end.
  - right. repeat split; eauto.
  - match goal with
    | |- context [match List.find ?f ?l with _ => _ end] =>
        destruct (List.find f l)
    end; [|now left].
    right. repeat split; eauto.
Qed.

Lemma enriquecer_trabajos_spec l texto :
  Forall2 enriquecido l (enriquecer_trabajos_con_nlp db env l texto).
Proof.
  assert (Hrefl : forall l0 : list trabajo, Forall2 enriquecido l0 l0).
  { induction l0; constructor; auto. now left. }
  pose proof enriquecer_trabajo_spec as Hs.
  unfold enriquecer_trabajos_con_nlp.
  destruct env as [|[nlp|]]; try apply Hrefl.
  destruct l as [|t l]; [apply Hrefl|].
  destruct (orgs_del_texto db nlp texto) as [|o orgs]; [apply Hrefl|].
  generalize (t :: l). intros l'.
  induction l'; simpl; constructor; auto.
Qed.

Lemma enriquecido_tiene t t' :
  enriquecido t t' -> tiene_cargo_o_empresa t = true ->
  tiene_cargo_o_empresa t' = true.
Proof.
  intros [->|(_ & Hc & e & ->)] H; [exact H|].
  unfold tiene_cargo_o_empresa. simpl. now rewrite Hc.
Qed.

Lemma enriquecido_cerrado t t' :
  enriquecido t t' -> cerrado_bien db ahora t -> cerrado_bien db ahora t'.
Proof.
  intros [->|(_ & _ & e & ->)] H; exact H.
Qed.

Lemma cerrado_bien_canonico t ini fin :
  cerrado_bien db ahora t ->
  fecha_inicio t = Some ini -> fecha_fin t = Some fin ->
  forma_anio_mes db ini -> forma_anio_mes db fin ->
  calcular_duracion_meses db ahora (Some ini) (Some fin) = Ok (duracion_meses t).
Proof.
  intros H Hi Hf Fi Ff. unfold cerrado_bien, duracion_calculada in H.
  rewrite Hi, Hf in H. apply H.
  unfold fechas_completas. rewrite Hi, Hf. simpl.
  rewrite (es_anio_mes_forma Fi), (es_anio_mes_forma Ff).
  destruct Fi as (y1 & m1 & -> & _). destruct Ff as (y2 & m2 & -> & _).
  destruct y1, y2; reflexivity.
Qed.

(** C6: the output holds exactly the closed jobs that have a company or a
    title (each as it was closed, or with the company it lacked filled in
    by the enrichment), so every job of the output has one of the two; and
    a job of the output whose start and end are canonical year-month values
    has for duration what the calculator gives for them. *)
Theorem parsear_experiencia_cierre :
  forall texto,
    exists cerrados salida,
      (if truthy (strip db texto)
       then trabajos_cerrados db env ahora texto = Ok cerrados
       else cerrados = [])
      /\ parsear_experiencia db env ahora texto = Ok salida
      /\ Forall2 enriquecido (filter tiene_cargo_o_empresa cerrados) salida
      /\ Forall (fun t => tiene_cargo_o_empresa t = true) salida
      /\ Forall
           (fun t =>
              forall ini fin,
                fecha_inicio t = Some ini -> fecha_fin t = Some fin ->
                forma_anio_mes db ini -> forma_anio_mes db fin ->
                calcular_duracion_meses db ahora (Some ini) (Some fin)
                = Ok (duracion_meses t))
           salida.
Proof.
  intros texto. unfold parsear_experiencia.
  destruct (truthy (strip db texto)) eqn:Et; cbn [negb].
  - destruct (trabajos_cerrados_ok db env ahora texto) as (l & El & Hl).
    rewrite El. cbn [bind].
    exists l, (enriquecer_trabajos_con_nlp db env
                 (filter tiene_cargo_o_empresa l) texto).
    split; [reflexivity|]. split; [reflexivity|].
    pose proof (enriquecer_trabajos_spec
                  (filter tiene_cargo_o_empresa l) texto) as H2.
    split; [exact H2|].
    assert (Hfil : Forall (fun t => tiene_cargo_o_empresa t = true
                                    /\ cerrado_bien db ahora t)
                     (filter tiene_cargo_o_empresa l)).
    { apply Forall_forall. intros t Ht. apply filter_In in Ht.
      destruct Ht as [Hin Ht]. split; [exact Ht|].
      rewrite Forall_forall in Hl. now apply Hl. }
    revert Hfil H2.
    generalize (enriquecer_trabajos_con_nlp db env
                  (filter tiene_cargo_o_empresa l) texto).
    generalize (filter tiene_cargo_o_empresa l).
    intros l1 l2 Hfil H2.
    induction H2 as [|t t' l1 l2 Ht H2 IH].
    + split; constructor.
    + inversion Hfil as [|? ? [Ha Hb] Hfil']; subst.
      destruct (IH Hfil') as [IH1 IH2].
      split; constructor; auto.
      * eapply enriquecido_tiene; eauto.
      * intros ini fin. apply cerrado_bien_canonico.
        eapply enriquecido_cerrado; eauto.
  - exists [], []. repeat split; constructor.
Qed.

Lemma parsear_experiencia_ok texto :
  exists l, parsear_experiencia db env ahora texto = Ok l.
Proof.
  unfold parsear_experiencia.
  destruct (negb (truthy (strip db texto))); [eauto|].
  destruct (trabajos_cerrados_ok db env ahora texto) as (l & -> & _).
  cbn [bind]. eauto.
Qed.

End Salida.

(** *** The entry point *)

Section Entrada.

Variable db : UCD.
Variable env : nlp_env.
Variable ahora : Z * Z.

Lemma paso_educacion_ok st linea :
  exists st', paso_educacion db st linea = Ok st'.
Proof.
  unfold paso_educacion.
  destruct (re_search db (re_compile false PAT_ANIO_EDU) linea) as [m|];
    cbn [is_some andb].
  - repeat caso_si; cbn [bind]; eauto.
  - repeat caso_si; cbn [bind]; eauto.
Qed.

Lemma recorrer_educacion_ok lineas :
  forall st, exists st', recorrer_educacion db st lineas = Ok st'.
Proof.
  induction lineas as [|l ls IH]; intros st; simpl; [eauto|].
  destruct (paso_educacion_ok st l) as (st1 & ->). cbn [bind]. apply IH.
Qed.

Lemma parsear_educacion_ok texto :
  exists l, parsear_educacion db texto = Ok l.
Proof.
  unfold parsear_educacion.
  destruct (negb (truthy (strip db texto))); [eauto|].
  destruct (recorrer_educacion_ok (lineas_no_vacias db texto) ([], []))
    as (st & ->).
  cbn [bind]. eauto.
Qed.

(** C7: [estructurar_cv] returns for every section map and every text, it
    never raises; and when all the sections it reads are empty and the
    text is empty it returns the empty result: no job, count 0, the other
    lists empty, no contact, 0 years of experience. *)
Theorem estructurar_cv_total :
  forall secciones texto_completo,
    (exists r, estructurar_cv db env ahora secciones texto_completo = Ok r)
    /\ ((forall k, dict_get_or secciones k [] = []) ->
        estructurar_cv db env ahora secciones [] = Ok cv_vacio)
    /\ estructurar_cv db env ahora secciones_vacias [] = Ok cv_vacio
    /\ length (experiencia cv_vacio) = 0%nat
    /\ cantidad_empleos cv_vacio = 0%nat.
Proof.
  intros secciones texto_completo. split; [|split; [|split]].
  - unfold estructurar_cv.
    destruct (parsear_experiencia_ok db env ahora
                (dict_get_or secciones (u "experiencia") [])) as (e & ->).
    destruct (parsear_educacion_ok
                (dict_get_or secciones (u "educacion") [])) as (d & ->).
    cbn [bind]. eauto.
  - intros H. unfold estructurar_cv. rewrite !H. vm_compute. reflexivity.
  - vm_compute. reflexivity.
  - split; reflexivity.
Qed.

End Entrada.

(** *** The section segmenter *)

Section Segmentador.

Variable db : UCD.

Lemma split_on_cons sep s : exists l ls, split_on sep s = l :: ls.
Proof.
  destruct s as [|c t]; simpl; [eauto|].
  destruct (c =? sep)%N; [eauto|].
  destruct (split_on sep t); eauto.
Qed.

Lemma join_cons_char sep c l ls :
  join sep ((c :: l) :: ls) = c :: join sep (l :: ls).
Proof. destruct ls; reflexivity. Qed.

Lemma join_split texto : join NL (split_on 10 texto) = texto.
Proof.
  induction texto as [|c t IH]; [reflexivity|].
  cbn [split_on].
  destruct (split_on_cons 10 t) as (l & ls & E). rewrite E in *.
  destruct (c =? 10)%N eqn:Ec.
  - apply N.eqb_eq in Ec. subst c.
    change (join NL ([] :: l :: ls)) with (10%N :: join NL (l :: ls)).
    f_equal. exact IH.
  - rewrite join_cons_char. f_equal. exact IH.
Qed.

Lemma lstrip_blancos w s :
  forallb (isspace db) w = true -> lstrip db (w ++ s) = lstrip db s.
Proof.
  induction w as [|c w IH]; simpl; [reflexivity|].
  intros H. apply andb_prop in H. destruct H as [Hc Hw].
  rewrite Hc. now apply IH.
Qed.

Lemma lstrip_nil_blancos s : lstrip db s = [] -> forallb (isspace db) s = true.
Proof.
  induction s as [|c s IH]; simpl; [reflexivity|].
  destruct (isspace db c); [exact IH|discriminate].
Qed.

Lemma lstrip_keeps s x r : lstrip db s = x :: r -> isspace db x = false.
Proof.
  induction s as [|c s IH]; simpl; [discriminate|].
  destruct (isspace db c) eqn:E; [exact IH|].
  intros H. inversion H; subst. exact E.
Qed.

Lemma lstrip_con_no_blanco a x b :
  isspace db x = false -> lstrip db (a ++ x :: b) <> [].
Proof.
  intros Hx. induction a as [|c a IH]; simpl.
  - rewrite Hx. discriminate.
  - destruct (isspace db c); [exact IH|discriminate].
Qed.

(** A line is blank for [strip] exactly when all of it is white space. *)
Lemma strip_nil_blancos s : strip db s = [] -> forallb (isspace db) s = true.
Proof.
  unfold strip, rstrip. intros H.
  destruct (lstrip db s) as [|x r] eqn:E; [now apply lstrip_nil_blancos|].
  exfalso. apply lstrip_keeps in E.
  assert (Hrev : lstrip db (rev (x :: r)) = []).
  { destruct (lstrip db (rev (x :: r))); [reflexivity|].
    apply (f_equal (@length N)) in H. rewrite length_rev in H. discriminate. }
  simpl in Hrev. exact (@lstrip_con_no_blanco (rev r) x [] E Hrev).
Qed.

Lemma lstrip_sin_blancas ls :
  lstrip db (join NL (sin_blancas_iniciales db ls)) = lstrip db (join NL ls).
Proof.
  induction ls as [|l t IH]; [reflexivity|].
  cbn [sin_blancas_iniciales].
  destruct (strip db l) as [|x r] eqn:E; cbn [truthy]; [|reflexivity].
  apply strip_nil_blancos in E. rewrite IH.
  destruct t as [|l2 t]; cbn [join].
  - rewrite <- (app_nil_r l). now rewrite lstrip_blancos.
  - rewrite lstrip_blancos by exact E. unfold NL.
    change ([10%N] ++ join [10%N] (l2 :: t))
      with (10%N :: join [10%N] (l2 :: t)).
    reflexivity.
Qed.

Lemma strip_sin_blancas ls :
  strip db (join NL (sin_blancas_iniciales db ls)) = strip db (join NL ls).
Proof. unfold strip. now rewrite lstrip_sin_blancas. Qed.

(** The accumulator while no header is met: [perfil] first, the other
    sections still empty. *)
Definition acumulador_perfil (acc : list pystr) : dict (list pystr) :=
  (u "perfil", acc) :: map (fun sec => (sec, [])) (tl SECCIONES_PRINCIPALES).

Lemma paso_seccion_perfil acc linea :
  es_encabezado_principal db linea = None ->
  paso_seccion db (u "perfil", acumulador_perfil acc) linea =
  Ok (u "perfil",
      acumulador_perfil
        (if negb (truthy (strip db linea)) && negb (truthy acc)
         then acc else acc ++ [linea])).
Proof.
  intros H. unfold paso_seccion. rewrite H. cbn [fst snd].
  change (dict_item (acumulador_perfil acc) (u "perfil")) with (Ok acc).
  change (dict_has (acumulador_perfil acc) (u "perfil")) with true.
  destruct (negb (truthy (strip db linea))); cbn [bind andb].
  - destruct (negb (truthy acc)); reflexivity.
  - reflexivity.
Qed.

Lemma recorrer_secciones_perfil lineas :
  forall acc,
    Forall (fun l => es_encabezado_principal db l = None) lineas ->
    recorrer_secciones db (u "perfil", acumulador_perfil acc) lineas =
    Ok (u "perfil",
        acumulador_perfil
          (match acc with
           | [] => sin_blancas_iniciales db lineas
           | _ => acc ++ lineas
           end)).
Proof.
  induction lineas as [|l ls IH]; intros acc H.
  - simpl. destruct acc; [reflexivity|now rewrite app_nil_r].
  - inversion H as [|? ? Hl Hls]; subst.
    cbn [recorrer_secciones]. rewrite paso_seccion_perfil by exact Hl.
    cbn [bind]. rewrite IH by exact Hls.
    cbn [sin_blancas_iniciales].
    destruct acc as [|a acc]; cbn [truthy negb andb].
    + destruct (truthy (strip db l)); cbn [negb]; [|reflexivity].
      reflexivity.
    + rewrite andb_false_r. cbn [app]. rewrite <- app_assoc. reflexivity.
Qed.

Lemma dividir_secciones_perfil texto :
  Forall (fun l => es_encabezado_principal db l = None) (split_on 10 texto) ->
  dividir_secciones db texto =
  Ok ((u "perfil", strip db texto)
        :: map (fun sec => (sec, [])) (tl SECCIONES_PRINCIPALES)).
Proof.
  intros H. unfold dividir_secciones.
  change (dict_set (map (fun sec => (sec, [])) SECCIONES_PRINCIPALES)
            (u "perfil") [])
    with (acumulador_perfil []).
  rewrite recorrer_secciones_perfil by exact H.
  cbn [bind snd].
  set (acc := sin_blancas_iniciales db (split_on 10 texto)).
  assert (Hp : strip db (join NL acc) = strip db texto).
  { unfold acc. now rewrite strip_sin_blancas, join_split. }
  rewrite <- Hp. vm_compute. reflexivity.
Qed.

Lemma lstrip_limpio s :
  match s with [] => True | x :: _ => isspace db x = false end ->
  lstrip db s = s.
Proof. destruct s as [|x r]; simpl; [reflexivity|]. now intros ->. Qed.

Lemma lstrip_cabeza s :
  match lstrip db s with [] => True | x :: _ => isspace db x = false end.
Proof.
  destruct (lstrip db s) as [|x r] eqn:E; [exact I|].
  now apply lstrip_keeps in E.
Qed.

Lemma lstrip_lstrip s : lstrip db (lstrip db s) = lstrip db s.
Proof. apply lstrip_limpio, lstrip_cabeza. Qed.

Lemma lstrip_snoc a x :
  isspace db x = false -> exists b, lstrip db (a ++ [x]) = b ++ [x].
Proof.
  intros Hx. induction a as [|c a IH]; simpl.
  - rewrite Hx. now exists [].
  - destruct (isspace db c); [exact IH|]. now exists (c :: a).
Qed.

(** Stripping twice is stripping once: what the segmenter returns for a
    section neither begins nor ends with white space. *)
Lemma strip_strip s : strip db (strip db s) = strip db s.
Proof.
  unfold strip at 2. unfold rstrip.
  set (r := rev (lstrip db (rev (lstrip db s)))).
  assert (Hl : lstrip db r = r).
  { unfold r. destruct (lstrip db s) as [|x t] eqn:E; [reflexivity|].
    apply lstrip_keeps in E. simpl rev.
    destruct (@lstrip_snoc (rev t) x E) as [b ->].
    rewrite rev_app_distr. simpl. now rewrite E. }
  unfold strip, rstrip. rewrite Hl. unfold r at 1.
  rewrite rev_involutive, lstrip_lstrip. reflexivity.
Qed.

Lemma unir_secciones_recortadas acumulador secs :
  forall d, unir_secciones db acumulador secs = Ok d ->
            Forall (fun kv => strip db (snd kv) = snd kv) d.
Proof.
  induction secs as [|sec resto IH]; intros d H; simpl in H.
  - inversion H. constructor.
  - destruct (dict_item acumulador sec); [|discriminate].
    cbn [bind] in H.
    destruct (unir_secciones db acumulador resto) as [r|]; [|discriminate].
    cbn [bind] in H. inversion H; subst d.
    constructor; [apply strip_strip|now apply IH].
Qed.

Lemma dict_get_In {V} (d : dict V) k v :
  dict_get d k = Some v -> exists k', In (k', v) d.
Proof.
  induction d as [|[k0 v0] d IH]; simpl; [discriminate|].
  destruct (str_eqb k0 k).
  - intros H. inversion H; subst. eauto.
  - intros H. destruct (IH H) as [k' Hk]. eauto.
Qed.

(** Every section of the result is stripped. *)
Lemma dividir_secciones_recortadas texto d sec blob :
  dividir_secciones db texto = Ok d ->
  dict_get d sec = Some blob -> strip db blob = blob.
Proof.
  unfold dividir_secciones. intros H Hg.
  destruct (recorrer_secciones db _ _) as [st|]; [|discriminate].
  cbn [bind] in H. apply unir_secciones_recortadas in H.
  destruct (dict_get_In _ _ Hg) as [k' Hin].
  rewrite Forall_forall in H. exact (H _ Hin).
Qed.

(** C8, as the code has it: on a text none of whose lines is a section
    header the segmenter gives the whole text to the profile section with
    the white space at its two ends removed, and leaves the other sections
    empty; a text that neither begins nor ends with white space, as every
    section blob does, comes back unchanged. *)
Theorem dividir_secciones_sin_encabezados :
  forall texto,
    (forall l, In l (split_on 10 texto) -> es_encabezado db l = None) ->
    exists d,
      dividir_secciones db texto = Ok d
      /\ dict_get d (u "perfil") = Some (strip db texto)
      /\ (forall sec, In sec SECCIONES_PRINCIPALES -> sec <> u "perfil" ->
                      dict_get d sec = Some [])
      /\ (strip db texto = texto -> dict_get d (u "perfil") = Some texto).
Proof.
  intros texto H. eexists. split.
  - apply dividir_secciones_perfil. apply Forall_forall. intros l Hl.
    unfold es_encabezado_principal. now rewrite (H l Hl).
  - split; [reflexivity|]. split.
    + intros sec Hs Hne. simpl in Hs.
      repeat (destruct Hs as [<-|Hs]; [try congruence; reflexivity|]).
      contradiction.
    + intros ->. reflexivity.
Qed.

End Segmentador.

(** The text " x" has no header, and its profile is "x". *)
Lemma dividir_secciones_recorta :
  (forall l, In l (split_on 10 TEXTO_CON_MARGEN) ->
             es_encabezado ucd_basico l = None)
  /\ exists d, dividir_secciones ucd_basico TEXTO_CON_MARGEN = Ok d
               /\ dict_get d (u "perfil") = Some (u "x")
               /\ u "x" <> TEXTO_CON_MARGEN.
Proof.
  split.
  - intros l [<-|[]]. vm_compute. reflexivity.
  - eexists. split; [vm_compute; reflexivity|].
    split; [reflexivity|discriminate].
Qed.

Lemma dividir_secciones_sin_encabezados_witness :
  exists d,
    dividir_secciones ucd_basico LINEA_SULICOR = Ok d
    /\ dict_get d (u "perfil") = Some (strip ucd_basico LINEA_SULICOR)
    /\ (forall sec, In sec SECCIONES_PRINCIPALES -> sec <> u "perfil" ->
                    dict_get d sec = Some [])
    /\ (strip ucd_basico LINEA_SULICOR = LINEA_SULICOR ->
        dict_get d (u "perfil") = Some LINEA_SULICOR).
Proof.
  apply (@dividir_secciones_sin_encabezados ucd_basico LINEA_SULICOR).
  intros l [<-|[]]. vm_compute. reflexivity.
Defined.

(** *** The patterns of the program all parse *)

Lemma patterns_compile :
  forallb (fun pat => is_some (re_parse false pat))
    ([ PAT_DDMMYYYY; PAT_RANGO_ANIOS; PAT_MMYYYY; PAT_ANIO; PAT_ACTUAL;
       PAT_YM; PAT_SOLO_FECHAS; PAT_VERBOS; PAT_NOMBRE_PROPIO;
       PAT_ENUMERADOR; PAT_GUION; PAT_ANIO_EDU; PAT_SEPARADORES; PAT_EMAIL;
       PAT_TELEFONO; PAT_GUION_ESPACIO; PAT_NO_PALABRA; PAT_ESPACIOS ]
     ++ map (fun mes => pat_mes (fst mes)) MESES_ES
     ++ map snd ENCABEZADOS) = true
  /\ is_some (re_parse true PAT_SIN_FECHAS) = true
  /\ is_some (re_parse true PAT_STRPTIME_YM) = true.
Proof. repeat split; vm_compute; reflexivity. Qed.

(** *** More runs of the contact extractor and of the calculator *)

Example telefono_movil :
  forall db,
    telefono (parsear_contacto_desde_perfil db (u "Cel: 300 123-45 67, Bogota"))
    = Some (u "3001234567").
Proof. intros db. vm_compute. reflexivity. Qed.

Example telefono_fijo :
  forall db,
    telefono (parsear_contacto_desde_perfil db (u "Tel: 601 7451234")) = None
    /\ telefono (parsear_contacto_desde_perfil db (u "Cel: 400 123 45 67")) = None.
Proof. intros db. split; vm_compute; reflexivity. Qed.

Example duracion_un_digito :
  forall db ahora,
    calcular_duracion_meses db ahora (Some (u "2025-4")) (Some (u "2025-12"))
    = Ok (Some 8%Z).
Proof. intros db ahora. vm_compute. reflexivity. Qed.

Example duracion_presente :
  forall db,
    calcular_duracion_meses db (2026, 11)%Z (Some (u "2025-04")) (Some (u "Presente"))
    = Ok (Some 19%Z).
Proof. intros db. vm_compute. reflexivity. Qed.

Example fechas_ordenadas :
  forall db,
    extraer_fechas_de_linea db (u "12-2025 04-2025")
    = Ok ([u "2025-04"; u "2025-12"], false).
Proof. intros db. vm_compute. reflexivity. Qed.

Example experiencia_cargo_y_fechas :
  forall db ahora,
    parsear_experiencia db SinModulo ahora
      (u "Auditor Especialista" ++ NL ++ u "Febrero 2025 - enero 2026")
    = Ok [ {| empresa := None; cargo := Some (u "Auditor Especialista");
              fecha_inicio := Some (u "2025-02"); fecha_fin := Some (u "2026-01");
              duracion_meses := Some 11%Z; responsabilidades := [] |} ].
Proof. intros db ahora. vm_compute. reflexivity. Qed.

Example experiencia_cargo_y_fechas_raya :
  forall ahora,
    parsear_experiencia ucd_basico SinModulo ahora
      (u "Auditor Especialista" ++ NL ++ u "Febrero 2025 – enero 2026")
    = Ok [ {| empresa := None; cargo := Some (u "Auditor Especialista");
              fecha_inicio := Some (u "2025-02"); fecha_fin := Some (u "2026-01");
              duracion_meses := Some 11%Z; responsabilidades := [] |} ].
Proof. intros ahora. vm_compute. reflexivity. Qed.

(* ------------------------------------------------------------------ *)
(** ** Further properties of the code *)

(** *** Durations *)

Section MasDuracion.

Variable db : UCD.

(** X1: durations add up along a chain of dates: for a start [a], a
    middle date [b] that reads the same as a start and as an end, and an
    end [c] (a date, or open and so the current month), in chronological
    order, the duration from [a] to [c] is the duration from [a] to [b]
    plus the one from [b] to [c]. *)
Theorem duracion_aditiva :
  forall ahora a b c da dm dc,
    strptime_ym db a = Ok da ->
    strptime_ym db b = Ok dm ->
    fecha_final db ahora b = Ok dm ->
    fecha_final db ahora c = Ok dc ->
    (en_meses da <= en_meses dm)%Z ->
    (en_meses dm <= en_meses dc)%Z ->
    exists x y,
      calcular_duracion_meses db ahora a b = Ok (Some x)
      /\ calcular_duracion_meses db ahora b c = Ok (Some y)
      /\ calcular_duracion_meses db ahora a c = Ok (Some (x + y)%Z).
Proof.
  intros ahora a b c da dm dc Ha Hb Hbf Hc H1 H2.
  rewrite !calcular_duracion_meses_spec, Ha, Hb, Hbf, Hc.
  eexists. eexists. split; [reflexivity|]. split; [reflexivity|].
  f_equal. f_equal. unfold meses_entre, en_meses in *. lia.
Qed.

(** X2: the duration is floored at zero and is positive in one direction
    at most: when the end is not after the start the result is 0, and if
    the duration from [a] to [b] is positive the one from [b] to [a] is 0. *)
Theorem duracion_un_sentido :
  forall ahora a b da dm,
    strptime_ym db a = Ok da ->
    strptime_ym db b = Ok dm ->
    fecha_final db ahora a = Ok da ->
    fecha_final db ahora b = Ok dm ->
    ((en_meses dm <= en_meses da)%Z ->
     calcular_duracion_meses db ahora a b = Ok (Some 0%Z))
    /\ (forall x, calcular_duracion_meses db ahora a b = Ok (Some x) ->
                  (0 < x)%Z ->
                  calcular_duracion_meses db ahora b a = Ok (Some 0%Z)).
Proof.
  intros ahora a b da dm Ha Hb Haf Hbf.
  rewrite !calcular_duracion_meses_spec, Ha, Hb, Haf, Hbf.
  unfold meses_entre, en_meses. split.
  - intros H. f_equal. f_equal. lia.
  - intros x H Hx. inversion H. f_equal. f_equal. lia.
Qed.

End MasDuracion.

Lemma duracion_aditiva_witness :
  exists x y,
    calcular_duracion_meses ucd_basico (2026, 11)%Z
      (Some (u "2024-11")) (Some (u "2025-04")) = Ok (Some x)
    /\ calcular_duracion_meses ucd_basico (2026, 11)%Z
         (Some (u "2025-04")) (Some (u "presente")) = Ok (Some y)
    /\ calcular_duracion_meses ucd_basico (2026, 11)%Z
         (Some (u "2024-11")) (Some (u "presente")) = Ok (Some (x + y)%Z).
Proof.
  apply (@duracion_aditiva ucd_basico (2026, 11)%Z (Some (u "2024-11"))
           (Some (u "2025-04")) (Some (u "presente"))
           (2024, 11)%Z (2025, 4)%Z (2026, 11)%Z);
    vm_compute; try reflexivity; discriminate.
Defined.

Lemma duracion_un_sentido_witness :
  (calcular_duracion_meses ucd_basico (2026, 11)%Z
     (Some (u "2025-04")) (Some (u "2024-11")) = Ok (Some 0%Z))
  /\ (forall x,
        calcular_duracion_meses ucd_basico (2026, 11)%Z
          (Some (u "2025-04")) (Some (u "2024-11")) = Ok (Some x) ->
        (0 < x)%Z ->
        calcular_duracion_meses ucd_basico (2026, 11)%Z
          (Some (u "2024-11")) (Some (u "2025-04")) = Ok (Some 0%Z)).
Proof.
  destruct (@duracion_un_sentido ucd_basico (2026, 11)%Z (Some (u "2025-04"))
              (Some (u "2024-11")) (2025, 4)%Z (2024, 11)%Z)
    as [H1 H2]; try (vm_compute; reflexivity).
  split; [apply H1; vm_compute; discriminate|exact H2].
Defined.

(** *** The date tokens of a line *)

Section MasFechas.

Variable db : UCD.

Lemma mk_match_denota r p s adv res i :
  match_here db r p s adv = Some res ->
  exists p0 p' rest,
    denota db r p0 (m_text (mk_match i s res) ++ rest) [] p' rest
           (m_caps (mk_match i s res)).
Proof.
  intros H. destruct (match_here_text _ _ _ _ _ i H) as (p' & Hs & HD).
  exists p, p', (snd res). exact HD.
Qed.

(** Every match the scanner lists is a word of the pattern. *)
Lemma scan_sound r :
  forall s p i skip m,
    In m (scan db r p s i skip) ->
    exists p0 p' rest,
      denota db r p0 (m_text m ++ rest) [] p' rest (m_caps m).
Proof.
  induction s as [|c t IH]; intros p i skip m H.
  - destruct skip as [|k]; simpl in H; [|contradiction].
    destruct (match_here db r p [] false) as [res|] eqn:E; [|contradiction].
    destruct H as [<-|H]; [eapply mk_match_denota; eauto|].
    destruct (match_here db r p [] true) as [res2|] eqn:E2; [|contradiction].
    destruct H as [<-|H]; [eapply mk_match_denota; eauto|contradiction].
  - destruct skip as [|k]; simpl in H; [|eapply IH; eauto].
    destruct (match_here db r p (c :: t) false) as [res|] eqn:E;
      [|eapply IH; eauto].
    match type of H with
    | In _ (match ?n with _ => _ end) => destruct n
    end.
    + destruct H as [<-|H]; [eapply mk_match_denota; eauto|].
      destruct (match_here db r p (c :: t) true) as [res2|] eqn:E2;
        [|eapply IH; eauto].
      destruct H as [<-|H]; [eapply mk_match_denota; eauto|eapply IH; eauto].
    + destruct H as [<-|H]; [eapply mk_match_denota; eauto|eapply IH; eauto].
Qed.

Lemma re_finditer_sound r s m :
  In m (re_finditer db r s) ->
  exists p0 p' rest, denota db r p0 (m_text m ++ rest) [] p' rest (m_caps m).
Proof. apply scan_sound. Qed.

Lemma iter_sin_grupos (D : paso_rel) :
  (forall p s g p' s' g', D p s g p' s' g' -> g' = g) ->
  forall n p s g p' s' g', iter n D p s g p' s' g' -> g' = g.
Proof.
  intros HD. induction n as [|n IH]; intros p s g p' s' g' H; simpl in H.
  - now destruct H as (_ & _ & ->).
  - destruct H as (pm & sm & gm & H1 & H2).
    apply HD in H1. apply IH in H2. congruence.
Qed.

(** A pattern with no group leaves the captures as they are. *)
Lemma denota_sin_grupos r :
  sin_grupos r = true ->
  forall p s g p' s' g', denota db r p s g p' s' g' -> g' = g.
Proof.
  induction r; intros Hs p s g p' s' g' H; simpl in H, Hs;
    try (now destruct H as (x & _ & _ & _ & ->));
    try (now destruct H as (_ & _ & _ & ->));
    try discriminate.
  - now destruct H as (_ & _ & ->).
  - contradiction.
  - apply andb_prop in Hs. destruct Hs as [Ha Hb].
    destruct H as (pm & sm & gm & H1 & H2).
    apply (IHr1 Ha) in H1. apply (IHr2 Hb) in H2. congruence.
  - apply andb_prop in Hs. destruct Hs as [Ha Hb].
    destruct H as [H|H]; [now apply (IHr1 Ha) in H|now apply (IHr2 Hb) in H].
  - destruct H as (n & _ & _ & H).
    eapply iter_sin_grupos; [|exact H]. intros. eapply IHr; eauto.
Qed.

Lemma denota_grupo_digitos k n p s g p' s' g' :
  denota db (RGroup k (RRep (RIn false [CDigit]) n (Some n))) p s g p' s' g' ->
  exists w, s = w ++ s' /\ digitos db n w /\ g' = (k, w) :: g.
Proof.
  cbn [denota]. intros (ga & H & ->).
  apply (@denota_digitos db n) in H. destruct H as (w & -> & Hw & ->).
  exists w. rewrite firstn_consumed. auto.
Qed.

(** [(20\d{2}|19\d{2})] *)
Lemma denota_grupo_siglo k p s g p' s' g' :
  denota db
    (RGroup k
       (RAlt
          (RSeq (RChr 50) (RSeq (RChr 48) (RRep (RIn false [CDigit]) 2 (Some 2))))
          (RSeq (RChr 49) (RSeq (RChr 57) (RRep (RIn false [CDigit]) 2 (Some 2))))))
    p s g p' s' g' ->
  exists w, s = w ++ s' /\ digitos db 4 w /\ g' = (k, w) :: g.
Proof.
  intros (ga & H & ->).
  assert (Hw : exists w, s = w ++ s' /\ digitos db 4 w /\ ga = g).
  { destruct H as [H|H];
      destruct H as (p1 & s1 & g1 & (a & -> & _ & Ha & ->)
                     & p2 & s2 & g2 & (b & -> & _ & Hb & ->) & H);
      apply (@denota_digitos db 2) in H;
      destruct H as (w & -> & [Hl Hw] & ->);
      apply N.eqb_eq in Ha; apply N.eqb_eq in Hb; subst a b;
      eexists (_ :: _ :: w); (split; [reflexivity|]);
      (split; [|reflexivity]);
      (split; [simpl; now rewrite Hl|]);
      repeat (constructor; [reflexivity|]); exact Hw. }
  destruct Hw as (w & -> & Hw & ->).
  exists w. rewrite firstn_consumed. auto.
Qed.

Ltac pelar H :=
  repeat
    match type of H with
    | denota _ (RSeq (RGroup _ (RRep _ _ _)) _) _ _ _ _ _ _ =>
        let Ha := fresh "Ha" in
        destruct H as (? & ? & ? & Ha & H);
        apply denota_grupo_digitos in Ha; destruct Ha as (? & _ & ? & ->)
    | denota _ (RSeq (RGroup _ (RAlt _ _)) _) _ _ _ _ _ _ =>
        let Ha := fresh "Ha" in
        destruct H as (? & ? & ? & Ha & H);
        apply denota_grupo_siglo in Ha; destruct Ha as (? & _ & ? & ->)
    | denota _ (RSeq _ _) _ _ _ _ _ _ =>
        let Ha := fresh "Ha" in
        destruct H as (? & ? & ? & Ha & H);
        apply denota_sin_grupos in Ha; [|reflexivity]; subst
    end;
  apply denota_sin_grupos in H; [|reflexivity].

Ltac compilar H :=
  match type of H with
  | denota _ ?r _ _ _ _ _ _ =>
      let r' := eval vm_compute in r in
      change r with r' in H
  end.

Lemma zfill_digitos n w : digitos db n w -> zfill n w = w.
Proof. intros [Hl _]. unfold zfill. now rewrite Hl, Nat.leb_refl. Qed.

Lemma fechas_ddmmyyyy_forma linea :
  Forall (forma_anio_mes db) (fechas_ddmmyyyy db linea).
Proof.
  unfold fechas_ddmmyyyy. apply Forall_forall. intros f Hf.
  apply in_map_iff in Hf. destruct Hf as (m & <- & Hm).
  apply re_finditer_sound in Hm. destruct Hm as (p0 & p' & rest & HD).
  compilar HD. pelar HD. unfold group. rewrite HD. cbn [lookup_cap Nat.eqb].
  rewrite zfill_digitos by eassumption.
  eexists _, _. split; [reflexivity|]. split; assumption.
Qed.

Lemma fechas_mmyyyy_forma linea :
  Forall (forma_anio_mes db) (fechas_mmyyyy db linea).
Proof.
  unfold fechas_mmyyyy. apply Forall_forall. intros f Hf.
  apply in_map_iff in Hf. destruct Hf as (m & <- & Hm).
  apply re_finditer_sound in Hm. destruct Hm as (p0 & p' & rest & HD).
  compilar HD. pelar HD. unfold group. rewrite HD. cbn [lookup_cap Nat.eqb].
  rewrite zfill_digitos by eassumption.
  eexists _, _. split; [reflexivity|]. split; assumption.
Qed.

Lemma fechas_rango_anios_forma linea :
  Forall (forma_anio db) (fechas_rango_anios db linea).
Proof.
  unfold fechas_rango_anios.
  destruct (re_search db (re_compile false PAT_RANGO_ANIOS) linea)
    as [m|] eqn:E; [|constructor].
  apply re_search_sound in E.
  destruct E as (pre & rest & p0 & p' & _ & _ & HD).
  compilar HD. pelar HD. unfold group. rewrite HD. cbn [lookup_cap Nat.eqb].
  constructor; [assumption|]. constructor; [assumption|constructor].
Qed.

Lemma fechas_solo_anio_forma linea :
  Forall (forma_anio db) (fechas_solo_anio db linea).
Proof.
  unfold fechas_solo_anio, dict_fromkeys, re_findall1.
  apply Forall_forall. intros f Hf. apply dedup_aux_In in Hf.
  destruct Hf as [Hf _]. apply in_map_iff in Hf. destruct Hf as (m & <- & Hm).
  apply re_finditer_sound in Hm. destruct Hm as (p0 & p' & rest & HD).
  compilar HD. pelar HD. unfold group. rewrite HD. cbn [lookup_cap Nat.eqb].
  assumption.
Qed.

Lemma fechas_mes_nombre_forma texto :
  Forall (forma_anio_mes db) (fechas_mes_nombre db texto).
Proof.
  unfold fechas_mes_nombre. apply Forall_flat_map.
  let v := eval vm_compute in meses_por_longitud in
  change meses_por_longitud with v.
  repeat (apply Forall_cons;
          [cbn [fst snd]; apply Forall_forall; intros f Hf;
           apply in_map_iff in Hf; destruct Hf as (m & <- & Hm);
           apply re_finditer_sound in Hm;
           destruct Hm as (p0 & p' & rest & HD);
           compilar HD; pelar HD; unfold group; rewrite HD;
           cbn [lookup_cap Nat.eqb];
           eexists _, _; (split; [reflexivity|]);
           (split; [assumption|]);
           split; [reflexivity|repeat constructor]
          |]).
  constructor.
Qed.

Lemma forma_anio_no_anio_mes f : forma_anio db f -> es_anio_mes db f = false.
Proof.
  intros Hf. destruct (es_anio_mes db f) eqn:E; [|reflexivity]. exfalso.
  unfold es_anio_mes in E.
  destruct (re_match db (re_compile false PAT_YM) f) as [m|] eqn:Em;
    [|discriminate].
  apply re_match_sound in Em. destruct Em as (rest & p' & Hs & HD).
  rewrite <- Hs in HD. clear Hs E.
  compilar HD.
  destruct HD as (p1 & s1 & g1 & H1 & p2 & s2 & g2 & (c & Hc & _) & _).
  apply (@denota_digitos db 4) in H1. destruct H1 as (w & Hw & [Hl _] & _).
  destruct Hf as [Hl4 _]. apply (f_equal (@length N)) in Hw.
  rewrite length_app, Hl, Hc in Hw. simpl in Hw. lia.
Qed.

Lemma primera_no_vacia_Forall (Q : list pystr -> Prop) ls :
  Q [] -> Forall Q ls -> Q (primera_no_vacia ls).
Proof.
  intros Q0. induction ls as [|l resto IH]; intros H; [exact Q0|].
  inversion H as [|? ? Hl Hr]; subst. cbn [primera_no_vacia].
  destruct resto as [|l2 resto]; [exact Hl|].
  destruct (truthy l); [exact Hl|now apply IH].
Qed.

Lemma extraer_fechas_de_una_forma linea :
  exists fechas es_actual,
    extraer_fechas_de_linea db linea = Ok (fechas, es_actual)
    /\ fechas_de_una_forma db fechas
    /\ (forall a b, fechas = [a; b] -> forma_anio_mes db a ->
                    str_leb a b = true).
Proof.
  unfold extraer_fechas_de_linea. cbv zeta.
  assert (Hc : fechas_de_una_forma db (fechas_candidatas db linea)).
  { rewrite fechas_candidatas_spec.
    apply primera_no_vacia_Forall; [left; constructor|].
    apply Forall_cons; [right; apply fechas_ddmmyyyy_forma|].
    apply Forall_cons; [left; apply fechas_rango_anios_forma|].
    apply Forall_cons; [right; apply fechas_mmyyyy_forma|].
    apply Forall_cons; [right; apply fechas_mes_nombre_forma|].
    apply Forall_cons; [left; apply fechas_solo_anio_forma|].
    apply Forall_nil. }
  destruct (ordenar_fechas db (fechas_candidatas db linea)) as [f|e] eqn:E.
  - cbn [bind]. exists f, (is_some
        (re_search db (re_compile false PAT_ACTUAL) (lower db linea))).
    split; [reflexivity|].
    destruct (ordenar_fechas_spec db (fechas_candidatas db linea))
      as (f' & E' & Hs).
    assert (f' = f) by congruence. subst f'. clear E'.
    assert (Hf : fechas_de_una_forma db f).
    { destruct Hs as [->|(x & y & Hxy & ->)]; [exact Hc|].
      rewrite Hxy in Hc. destruct Hc as [Hc|Hc]; [left|right];
        inversion Hc as [|? ? Hx Hc1]; subst;
        inversion Hc1 as [|? ? Hy _]; subst;
        (apply Forall_cons; [exact Hy|]);
        (apply Forall_cons; [exact Hx|]); apply Forall_nil. }
    split; [exact Hf|].
    intros a b -> Ha.
    destruct Hf as [Hf|Hf].
    + inversion Hf as [|? ? Ha' _]; subst.
      apply forma_anio_no_anio_mes in Ha'.
      apply (es_anio_mes_forma (db := db)) in Ha. congruence.
    + inversion Hf as [|? ? _ Hf1]; subst. inversion Hf1 as [|? ? Hb _]; subst.
      eapply ordenar_fechas_anio_mes; [exact E| |];
        now apply es_anio_mes_forma.
  - destruct (ordenar_fechas_spec db (fechas_candidatas db linea))
      as (f' & E' & _). congruence.
Qed.

(** X6: the date tokens of a line are of one shape: every one is a bare
    year of four digits, or every one is a year and a month, four digits,
    a hyphen and two digits; and when the line gives two tokens of year
    and month, the first is not after the second. *)
Theorem extraer_fechas_forma :
  forall linea,
    exists fechas es_actual,
      extraer_fechas_de_linea db linea = Ok (fechas, es_actual)
      /\ fechas_de_una_forma db fechas
      /\ (forall a b, fechas = [a; b] -> forma_anio_mes db a ->
                      str_leb a b = true).
Proof. exact extraer_fechas_de_una_forma. Qed.

End MasFechas.

(** *** The jobs the experience parser returns *)

Section MasExperiencia.

Variable db : UCD.
Variable env : nlp_env.
Variable ahora : Z * Z.

Lemma presente_no_anio_mes : es_anio_mes db (u "presente") = false.
Proof. reflexivity. Qed.

Lemma forma_anio_mes_no_presente : ~ forma_anio_mes db (u "presente").
Proof.
  intros (yy & mm & E & [Hy _] & [Hm _]).
  apply (f_equal (@length N)) in E. rewrite length_app in E.
  cbn [length] in E. rewrite Hy, Hm in E. vm_compute in E. discriminate.
Qed.

Lemma fecha_anio_mes_forma f :
  f = u "presente" \/ forma_anio db f \/ forma_anio_mes db f ->
  es_anio_mes db f = true -> forma_anio_mes db f.
Proof.
  intros [->|[H|H]] E; [|apply (@forma_anio_no_anio_mes db) in H|exact H].
  - rewrite presente_no_anio_mes in E. discriminate.
  - congruence.
Qed.

Lemma tokens_ok fechas :
  fechas_de_una_forma db fechas ->
  Forall (fun f => forma_anio db f \/ forma_anio_mes db f) fechas.
Proof.
  intros [H|H]; (eapply Forall_impl; [|exact H]); cbv beta; auto.
Qed.

Lemma presente_si_ok b : fin_ok db (presente_si b).
Proof.
  destruct b; intros f E; inversion E. now left.
Qed.

Lemma inicio_fin_ok o : inicio_ok db o -> fin_ok db o.
Proof. intros H f E. right. now apply H. Qed.

Lemma fecha_de_inicio_bien fechas :
  Forall (fun f => forma_anio db f \/ forma_anio_mes db f) fechas ->
  exists o, fecha_de_inicio fechas = Ok o /\ inicio_ok db o.
Proof.
  intros H. destruct fechas as [|f r]; simpl.
  - exists None. split; [reflexivity|]. intros f E. discriminate.
  - inversion H as [|? ? Hf _]; subst. exists (Some f).
    split; [reflexivity|]. intros f' E. inversion E; subst. exact Hf.
Qed.

Lemma fecha_de_fin_bien fechas es_actual :
  Forall (fun f => forma_anio db f \/ forma_anio_mes db f) fechas ->
  exists o, fecha_de_fin fechas es_actual = Ok o /\ fin_ok db o.
Proof.
  intros H. unfold fecha_de_fin. destruct fechas as [|f0 [|f1 r]]; simpl.
  - eexists. split; [reflexivity|apply presente_si_ok].
  - eexists. split; [reflexivity|apply presente_si_ok].
  - inversion H as [|? ? _ H1]; subst. inversion H1 as [|? ? Hf _]; subst.
    exists (Some f1). split; [reflexivity|].
    intros f' E. inversion E; subst. right. exact Hf.
Qed.

Lemma estado_base n st : estado_bien db n st -> base_bien db n st.
Proof.
  intros (Ht & _ & Hp & Hn). repeat split; auto. lia.
Qed.

Lemma cerrar_trabajo_bien n st :
  estado_bien db n st ->
  exists st', cerrar_trabajo db ahora st = Ok st' /\ base_bien db n st'.
Proof.
  intros (Ht & Ha & Hp & Hn). unfold cerrar_trabajo, abiertos in *.
  destruct (trabajo_actual st) as [t|];
    [|exists st; split; [reflexivity|]; repeat split; auto; lia].
  destruct Ha as (Hi & Hf & Hd). cbv zeta.
  cbn [con_responsabilidades fecha_inicio fecha_fin].
  destruct (truthy_opt (fecha_inicio t) && truthy_opt (fecha_fin t)
            && opt_es_anio_mes db (fecha_inicio t)
            && opt_es_anio_mes db (fecha_fin t)) eqn:E.
  - destruct (calcular_duracion_meses_total db ahora (fecha_inicio t)
                (fecha_fin t)) as (d & Hd' & Hpos).
    rewrite Hd'. cbn [bind]. eexists. split; [reflexivity|].
    unfold base_bien. cbn [trabajos pendientes].
    split; [|split; [constructor|rewrite length_app; simpl; lia]].
    apply Forall_app. split; [exact Ht|]. constructor; [|constructor].
    unfold trabajo_bien.
    cbn [con_duracion con_responsabilidades fecha_inicio fecha_fin
         responsabilidades].
    split; [exact Hi|]. split; [exact Hf|]. split; [exact Hp|].
    intros x Hx. cbn in Hx. subst d. split; [exact Hpos|].
    apply andb_prop in E. destruct E as [E E4].
    apply andb_prop in E. destruct E as [E E3].
    destruct (fecha_inicio t) as [i|] eqn:Ei; [|discriminate].
    destruct (fecha_fin t) as [f|] eqn:Ef; [|discriminate].
    exists i, f. cbn. split; [exact Ei|]. split; [exact Ef|]. split.
    + apply fecha_anio_mes_forma; [right; now apply Hi|exact E3].
    + apply fecha_anio_mes_forma; [now apply Hf|exact E4].
  - cbn [bind]. eexists. split; [reflexivity|].
    unfold base_bien. cbn [trabajos pendientes].
    split; [|split; [constructor|rewrite length_app; simpl; lia]].
    apply Forall_app. split; [exact Ht|]. constructor; [|constructor].
    unfold trabajo_bien.
    cbn [con_responsabilidades fecha_inicio fecha_fin responsabilidades].
    split; [exact Hi|]. split; [exact Hf|]. split; [exact Hp|].
    intros x Hx. cbn in Hx. congruence.
Qed.

Lemma abrir_bien n st t :
  base_bien db n st -> abierto_bien db t ->
  estado_bien db (S n) (abrir st t).
Proof.
  intros (Ht & Hp & Hn) Ha. unfold estado_bien, abiertos.
  cbn [abrir trabajos trabajo_actual pendientes].
  repeat split; auto; try apply Ha. lia.
Qed.

Lemma recordar_bien n st l :
  estado_bien db n st -> estado_bien db n (recordar st l).
Proof. intros H. exact H. Qed.

Lemma estado_bien_S n st : estado_bien db n st -> estado_bien db (S n) st.
Proof. intros (Ht & Ha & Hp & Hn). repeat split; auto; lia. Qed.

Lemma nuevo_abierto e c i f :
  inicio_ok db i -> fin_ok db f -> abierto_bien db (nuevo_trabajo e c i f).
Proof. intros Hi Hf. repeat split; assumption. Qed.

Lemma ninguna_ok : inicio_ok db None /\ fin_ok db None.
Proof. split; intros f E; discriminate. Qed.

Lemma con_empresa_abierto t e :
  abierto_bien db t -> abierto_bien db (con_empresa t e).
Proof. intros H. exact H. Qed.

Lemma con_cargo_abierto t c :
  abierto_bien db t -> abierto_bien db (con_cargo t c).
Proof. intros H. exact H. Qed.

Lemma linea_resto_bien n st t linea :
  estado_bien db n st -> trabajo_actual st = Some t ->
  estado_bien db (S n) (linea_resto db st t linea).
Proof.
  intros H Et. pose proof H as (Ht & Ha & Hp & Hn). rewrite Et in Ha.
  unfold linea_resto.
  destruct (negb (truthy_opt (empresa t)) && negb (truthy_opt (cargo t))
            && (length linea <? 70)%nat).
  { apply abrir_bien; [now apply estado_base|now apply con_empresa_abierto]. }
  destruct (negb (truthy_opt (empresa t)) && truthy_opt (cargo t)
            && es_probable_empresa db linea).
  { apply abrir_bien; [now apply estado_base|now apply con_empresa_abierto]. }
  cbv zeta.
  match goal with
  | |- context [if truthy ?r && (8 <? length ?r)%nat then _ else _] =>
      destruct (truthy r && (8 <? length r)%nat) eqn:E
  end; [|now apply estado_bien_S].
  apply andb_prop in E. destruct E as [_ E]. apply Nat.ltb_lt in E.
  apply estado_bien_S. unfold estado_bien, abiertos in *.
  cbn [anotar trabajos trabajo_actual pendientes]. rewrite Et in *.
  repeat split; auto; try apply Ha.
  apply Forall_app. split; [exact Hp|]. constructor; [exact E|constructor].
Qed.

Lemma bloque_fechas_bien n st inicio fin es_actual :
  estado_bien db n st -> inicio_ok db inicio -> fin_ok db fin ->
  exists st', bloque_fechas db ahora st inicio fin es_actual = Ok st'
              /\ estado_bien db (S n) st'.
Proof.
  intros H Hi Hf. unfold bloque_fechas.
  destruct (trabajo_actual st) as [t|] eqn:Et.
  - eexists. split; [reflexivity|].
    apply abrir_bien; [now apply estado_base|].
    destruct H as (_ & Ha & _). rewrite Et in Ha.
    destruct Ha as (Hti & Htf & Htd).
    pose proof (presente_si_ok es_actual) as Hp.
    cbv zeta.
    repeat (caso_si;
            cbn [fecha_inicio fecha_fin cargo con_fecha_inicio con_fecha_fin
                 con_cargo]);
      (split; [|split]); assumption.
  - destruct (cerrar_trabajo_bien H) as (st1 & -> & H1). cbn [bind].
    eexists. split; [reflexivity|].
    apply abrir_bien; [exact H1|now apply nuevo_abierto].
Qed.

Lemma linea_cargo_bien n st linea :
  estado_bien db n st ->
  exists st', linea_cargo db ahora st linea = Ok st'
              /\ estado_bien db (S n) st'.
Proof.
  intros H. unfold linea_cargo.
  destruct ninguna_ok as [Hi0 Hf0].
  destruct (trabajo_actual st) as [t|] eqn:Et.
  - destruct (negb (truthy_opt (cargo t))).
    + eexists. split; [reflexivity|].
      apply abrir_bien; [now apply estado_base|].
      destruct H as (_ & Ha & _). rewrite Et in Ha.
      apply con_cargo_abierto.
      match goal with
      | |- context [if ?c then _ else _] => destruct c
      end; [now apply con_empresa_abierto|exact Ha].
    + destruct (cerrar_trabajo_bien H) as (st1 & -> & H1). cbn [bind].
      eexists. split; [reflexivity|].
      apply abrir_bien; [exact H1|now apply nuevo_abierto].
  - eexists. split; [reflexivity|].
    apply abrir_bien; [now apply estado_base|now apply nuevo_abierto].
Qed.

Lemma paso_bien n st linea :
  estado_bien db n st ->
  exists st', paso db env ahora st linea = Ok st'
              /\ estado_bien db (S n) st'.
Proof.
  intros H. unfold paso.
  destruct (extraer_fechas_de_una_forma db linea)
    as (fechas & es_actual & -> & Hforma & _).
  apply tokens_ok in Hforma.
  destruct ninguna_ok as [Hi0 Hf0].
  cbn [bind fst snd].
  destruct (patron_guion db env fechas (es_linea_solo_fechas db linea) linea)
    as [[emp_guion cargo_guion]|].
  - destruct (cerrar_trabajo_bien H) as (st1 & -> & H1). cbn [bind].
    eexists. split; [reflexivity|]. apply recordar_bien.
    apply abrir_bien; [exact H1|now apply nuevo_abierto].
  - caso_si.
    + destruct (cerrar_trabajo_bien H) as (st1 & -> & H1). cbn [bind].
      destruct (fecha_de_inicio_bien Hforma) as (i & -> & Hi).
      destruct (fecha_de_fin_bien es_actual Hforma) as (f & -> & Hf).
      cbn [bind]. eexists. split; [reflexivity|]. apply recordar_bien.
      apply abrir_bien; [exact H1|now apply nuevo_abierto].
    + caso_si.
      * destruct (fecha_de_inicio_bien Hforma) as (i & -> & Hi).
        destruct (fecha_de_fin_bien es_actual Hforma) as (f & -> & Hf).
        cbn [bind].
        destruct (bloque_fechas_bien es_actual H Hi Hf) as (st1 & -> & H1).
        cbn [bind]. eexists. split; [reflexivity|]. now apply recordar_bien.
      * caso_si.
        -- destruct (linea_cargo_bien linea H) as (st1 & -> & H1).
           cbn [bind]. eexists. split; [reflexivity|]. now apply recordar_bien.
        -- destruct (trabajo_actual st) as [t|] eqn:Et.
           ++ destruct (negb (es_linea_solo_fechas db linea)).
              ** cbn [bind]. eexists. split; [reflexivity|].
                 apply recordar_bien. now apply linea_resto_bien.
              ** cbn [bind]. eexists. split; [reflexivity|].
                 apply recordar_bien. now apply estado_bien_S.
           ++ cbn [bind]. eexists. split; [reflexivity|].
              apply recordar_bien. now apply estado_bien_S.
Qed.

Lemma recorrer_bien lineas :
  forall n st,
    estado_bien db n st ->
    exists st', recorrer db env ahora st lineas = Ok st'
                /\ estado_bien db (length lineas + n) st'.
Proof.
  induction lineas as [|l ls IH]; intros n st H; simpl; [eauto|].
  destruct (paso_bien l H) as (st1 & -> & H1). cbn [bind].
  destruct (IH _ _ H1) as (st2 & E & H2). exists st2. split; [exact E|].
  now rewrite Nat.add_succ_r in H2.
Qed.

Lemma enriquecido_bien t t' :
  enriquecido t t' -> trabajo_bien db t -> trabajo_bien db t'.
Proof. intros [->|(_ & _ & e & ->)] H; exact H. Qed.

(** The jobs of the output: how many, and how each is made. *)
Lemma parsear_experiencia_bien texto :
  exists l,
    parsear_experiencia db env ahora texto = Ok l
    /\ Forall (trabajo_bien db) l
    /\ (length l <= length (lineas_no_vacias db texto))%nat.
Proof.
  unfold parsear_experiencia.
  destruct (negb (truthy (strip db texto)));
    [exists []; repeat split; [constructor|simpl; lia]|].
  unfold trabajos_cerrados.
  destruct (@recorrer_bien (lineas_no_vacias db texto) 0 estado_inicial)
    as (st & -> & H).
  { repeat split; try constructor. }
  cbn [bind]. destruct (cerrar_trabajo_bien H) as (st1 & -> & Ht & _ & Hn).
  cbn [bind]. eexists. split; [reflexivity|].
  rewrite Nat.add_0_r in Hn.
  pose proof (enriquecer_trabajos_spec db env
                (filter tiene_cargo_o_empresa (trabajos st1)) texto) as He.
  assert (Hfil : Forall (trabajo_bien db)
                        (filter tiene_cargo_o_empresa (trabajos st1))).
  { apply Forall_forall. intros t Hin. apply filter_In in Hin.
    rewrite Forall_forall in Ht. now apply Ht. }
  assert (Hlen : (length (filter tiene_cargo_o_empresa (trabajos st1))
                  <= length (lineas_no_vacias db texto))%nat).
  { etransitivity; [apply filter_length_le|exact Hn]. }
  revert He Hfil Hlen.
  generalize (enriquecer_trabajos_con_nlp db env
                (filter tiene_cargo_o_empresa (trabajos st1)) texto).
  generalize (filter tiene_cargo_o_empresa (trabajos st1)).
  intros l l' He Hfil Hlen. split.
  - clear Hlen. induction He as [|t t' l l' Htt _ IH]; [constructor|].
    inversion Hfil; subst. constructor; [eapply enriquecido_bien; eauto|auto].
  - apply Forall2_length in He. lia.
Qed.

(** X7: every job the experience parser returns has for start date
    nothing or a token of the date extractor (a bare year, or a year and
    a month), for end date nothing, such a token or the word "presente",
    and for responsibilities only texts of more than eight characters. *)
Theorem parsear_experiencia_fechas :
  forall texto,
    exists l,
      parsear_experiencia db env ahora texto = Ok l
      /\ Forall
           (fun t =>
              inicio_ok db (fecha_inicio t) /\ fin_ok db (fecha_fin t)
              /\ Forall responsabilidad_larga (responsabilidades t))
           l.
Proof.
  intros texto.
  destruct (parsear_experiencia_bien texto) as (l & E & H & _).
  exists l. split; [exact E|].
  eapply Forall_impl; [|exact H]. intros t (Hi & Hf & Hr & _). auto.
Qed.

(** X8: a job comes out with a duration only when its two dates are
    tokens of year and month, and the duration is then not negative; a
    job that ends at "presente" comes out with no duration. *)
Theorem parsear_experiencia_duraciones :
  forall texto,
    exists l,
      parsear_experiencia db env ahora texto = Ok l
      /\ Forall
           (fun t =>
              duracion_bien db t
              /\ (fecha_fin t = Some (u "presente") ->
                  duracion_meses t = None))
           l.
Proof.
  intros texto.
  destruct (parsear_experiencia_bien texto) as (l & E & H & _).
  exists l. split; [exact E|].
  eapply Forall_impl; [|exact H]. intros t (_ & _ & _ & Hd).
  split; [exact Hd|]. intros Hp.
  destruct (duracion_meses t) as [d|] eqn:Ed; [|reflexivity].
  destruct (Hd d Ed) as (_ & i & f & _ & Hf & _ & Hff).
  exfalso. apply forma_anio_mes_no_presente. congruence.
Qed.

(** X9: the parser returns at most one job for each line of the text
    that is not blank. *)
Theorem parsear_experiencia_cuenta :
  forall texto,
    exists l,
      parsear_experiencia db env ahora texto = Ok l
      /\ (length l <= length (lineas_no_vacias db texto))%nat.
Proof.
  intros texto.
  destruct (parsear_experiencia_bien texto) as (l & E & _ & H).
  exists l. auto.
Qed.

End MasExperiencia.

(** *** Years of experience and the entry point *)

Section MasEntrada.

Variable db : UCD.
Variable env : nlp_env.
Variable ahora : Z * Z.

Lemma suma_meses l :
  forall a,
    fold_left (fun acc t => (acc + meses_de t)%Z) l a = (a + total_meses l)%Z.
Proof.
  induction l as [|t l IH]; intros a; simpl; [lia|].
  rewrite IH. lia.
Qed.

Lemma round_decimas_12 n :
  let a := round_decimas n 12 in
  (Z.abs (12 * a - 10 * n) <= 6)%Z
  /\ (Z.abs (12 * a - 10 * n) = 6 -> Z.even a = true)%Z
  /\ (0 <= n -> 0 <= a)%Z.
Proof.
  cbv zeta. unfold round_decimas.
  pose proof (Z.div_mod (10 * n) 12 ltac:(lia)) as E.
  pose proof (Z.mod_pos_bound (10 * n) 12 ltac:(lia)) as B.
  set (q := (10 * n / 12)%Z) in *. set (r := (10 * n mod 12)%Z) in *.
  assert (Hq : (0 <= n -> 0 <= q)%Z).
  { intros Hn. unfold q. apply Z.div_pos; lia. }
  destruct (2 * r <? 12)%Z eqn:E1.
  - apply Z.ltb_lt in E1. repeat split; lia.
  - apply Z.ltb_ge in E1. destruct (12 <? 2 * r)%Z eqn:E2.
    + apply Z.ltb_lt in E2. repeat split; lia.
    + apply Z.ltb_ge in E2. destruct (Z.even q) eqn:E3.
      * repeat split; auto; lia.
      * repeat split; try lia. intros _.
        rewrite Z.even_add, E3. reflexivity.
Qed.

Lemma redondeo_par_spec a b :
  (0 < b)%Z ->
  (Z.abs (2 * (a - redondeo_par a b * b)) <= b)%Z
  /\ (Z.abs (2 * (a - redondeo_par a b * b)) = b ->
      Z.even (redondeo_par a b) = true).
Proof.
  intros Hb. unfold redondeo_par.
  pose proof (Z.div_mod a b ltac:(lia)) as E.
  pose proof (Z.mod_pos_bound a b Hb) as B.
  set (q := (a / b)%Z) in *. set (r := (a mod b)%Z) in *.
  destruct (2 * r <? b)%Z eqn:E1.
  - apply Z.ltb_lt in E1. split; lia.
  - apply Z.ltb_ge in E1. destruct (b <? 2 * r)%Z eqn:E2.
    + apply Z.ltb_lt in E2. split; lia.
    + apply Z.ltb_ge in E2. destruct (Z.even q) eqn:E3.
      * split; [lia|]. intros _. exact E3.
      * split; [lia|]. intros _. rewrite Z.even_add, E3. reflexivity.
Qed.

Lemma redondeo_par_unico a b q :
  (0 < b)%Z ->
  (Z.abs (2 * (a - q * b)) <= b)%Z ->
  (Z.abs (2 * (a - q * b)) = b -> Z.even q = true) ->
  redondeo_par a b = q.
Proof.
  intros Hb H1 H2.
  destruct (redondeo_par_spec a Hb) as [S1 S2].
  set (p := redondeo_par a b) in *.
  assert (Hd : (p = q \/ p = q + 1 \/ p = q - 1)%Z) by nia.
  destruct Hd as [Hd|[Hd|Hd]]; [exact Hd| |]; exfalso.
  - assert (Ep : Z.even p = true) by (apply S2; rewrite Hd in *; lia).
    assert (Eq : Z.even q = true) by (apply H2; rewrite Hd in *; lia).
    rewrite Hd, Z.even_add, Eq in Ep. discriminate.
  - assert (Ep : Z.even p = true) by (apply S2; rewrite Hd in *; lia).
    assert (Eq : Z.even q = true) by (apply H2; rewrite Hd in *; lia).
    rewrite Hd, Z.even_sub, Eq in Ep. discriminate.
Qed.

Lemma redondeo_par_doble a b :
  (0 < b)%Z -> redondeo_par (2 * a) (2 * b) = redondeo_par a b.
Proof.
  intros Hb. destruct (redondeo_par_spec a Hb) as [S1 S2].
  apply redondeo_par_unico; [lia|lia|].
  intros H. apply S2. lia.
Qed.

Lemma redondeo_par_exacto j b :
  (0 < b)%Z -> redondeo_par (j * b) b = j.
Proof. intros Hb. apply redondeo_par_unico; [lia|lia|lia]. Qed.

(** Rounding the quotient by twelve to a multiple of 1/B and then to a
    tenth gives the tenth nearest to the exact quotient. *)
Lemma redondeo_dos_veces T B B' :
  (B = 4 * B')%Z -> (32 <= B)%Z ->
  redondeo_par (10 * redondeo_par (T * B) 12) B = redondeo_par (10 * T) 12.
Proof.
  intros HB Hg.
  destruct (redondeo_par_spec (10 * T) (b := 12) ltac:(lia)) as [A1 A2].
  set (a := redondeo_par (10 * T) 12) in *.
  remember (5 * T - 6 * a)%Z as w eqn:Ew.
  assert (Hp : (5 * (T * B) - 6 * (a * B) = w * B)%Z) by (subst w; ring).
  assert (Hw : (w = -3 \/ w = -2 \/ w = -1 \/ w = 0 \/ w = 1 \/ w = 2
                \/ w = 3)%Z) by lia.
  assert (Hlejos : (-2 <= w <= 2)%Z ->
            redondeo_par (10 * redondeo_par (T * B) 12) B = a).
  { intros Hr.
    destruct (redondeo_par_spec (T * B) (b := 12) ltac:(lia)) as [M1 _].
    set (M := redondeo_par (T * B) 12) in *.
    apply redondeo_par_unico; [lia| |].
    - assert (w = -2 \/ w = -1 \/ w = 0 \/ w = 1 \/ w = 2)%Z as Hc by lia.
      destruct Hc as [Hc|[Hc|[Hc|[Hc|Hc]]]]; rewrite Hc in Hp; lia.
    - intros Ht. exfalso.
      assert (w = -2 \/ w = -1 \/ w = 0 \/ w = 1 \/ w = 2)%Z as Hc by lia.
      destruct Hc as [Hc|[Hc|[Hc|[Hc|Hc]]]]; rewrite Hc in Hp; lia. }
  assert (Hempate : (w = 3 \/ w = -3)%Z ->
            redondeo_par (10 * redondeo_par (T * B) 12) B = a).
  { intros Hr.
    assert (Ea : Z.even a = true) by (apply A2; lia).
    assert (EM : redondeo_par (T * B) 12
                 = ((2 * T - 2 * a - w / 3) * B')%Z).
    { replace (T * B)%Z with (((2 * T - 2 * a - w / 3) * B') * 12)%Z.
      - apply redondeo_par_exacto. lia.
      - destruct Hr as [Hr|Hr]; rewrite Hr in *;
          [change (3 / 3)%Z with 1%Z|change (-3 / 3)%Z with (-1)%Z]; nia. }
    rewrite EM. apply redondeo_par_unico; [lia| |intros _; exact Ea].
    destruct Hr as [Hr|Hr]; rewrite Hr in *;
      [change (3 / 3)%Z with 1%Z|change (-3 / 3)%Z with (-1)%Z]; nia. }
  destruct Hw as [H|[H|[H|[H|[H|[H|H]]]]]];
    first [apply Hlejos; lia|apply Hempate; lia].
Qed.

Lemma exponente_12 T :
  (0 < T < 2 ^ 50)%Z -> (exponente T 12 <= 46)%Z.
Proof.
  intros [H0 H1]. unfold exponente.
  assert (Z.log2 T < 50)%Z by (apply Z.log2_lt_pow2; assumption).
  change (Z.log2 12) with 3%Z.
  destruct (12 * 2 ^ Z.max 0 (Z.log2 T - 3)
            <=? T * 2 ^ Z.max 0 (- (Z.log2 T - 3)))%Z; lia.
Qed.

(** The double of [T / 12] for a total below 2^50: rounding it to a tenth
    gives the tenth nearest to the exact quotient. *)
Lemma cociente_doble_12 T :
  (0 < T < 2 ^ 50)%Z ->
  exists m e,
    cociente_doble T 12 = Some (m, e) /\ (e < 0)%Z
    /\ redondeo_par (10 * m) (2 ^ (- e)) = redondeo_par (10 * T) 12.
Proof.
  intros HT. pose proof (exponente_12 HT) as Hk.
  unfold cociente_doble. cbv zeta.
  set (e := Z.max (-1074) (exponente T 12 - 52)).
  assert (He : (-1074 <= e <= -6)%Z) by lia.
  replace (Z.max 0 (- e)) with (- e)%Z by lia.
  replace (Z.max 0 e) with 0%Z by lia.
  change (12 * 2 ^ 0)%Z with 12%Z.
  assert (HB : (2 ^ (- e) = 4 * 2 ^ (- e - 2))%Z).
  { replace (- e)%Z with (2 + (- e - 2))%Z at 1 by lia.
    rewrite Z.pow_add_r by lia. reflexivity. }
  assert (Hg : (32 <= 2 ^ (- e))%Z).
  { change 32%Z with (2 ^ 5)%Z. apply Z.pow_le_mono_r; lia. }
  pose proof (@redondeo_dos_veces T _ _ HB Hg) as Hdos.
  set (M := redondeo_par (T * 2 ^ (- e)) 12) in *.
  destruct (M =? 2 ^ 53)%Z eqn:EM; cbn [snd].
  - apply Z.eqb_eq in EM.
    replace (971 <? e + 1)%Z with false by (symmetry; apply Z.ltb_ge; lia).
    exists (2 ^ 52)%Z, (e + 1)%Z. split; [reflexivity|]. split; [lia|].
    rewrite <- Hdos, EM.
    replace (2 ^ (- e))%Z with (2 * 2 ^ (- (e + 1)))%Z.
    + change (10 * 2 ^ 53)%Z with (2 * (10 * 2 ^ 52))%Z.
      rewrite redondeo_par_doble; [reflexivity|].
      apply Z.pow_pos_nonneg; lia.
    + replace (- e)%Z with (Z.succ (- (e + 1))) by lia.
      rewrite Z.pow_succ_r by lia. reflexivity.
  - replace (971 <? e)%Z with false by (symmetry; apply Z.ltb_ge; lia).
    exists M, e. split; [reflexivity|]. split; [lia|exact Hdos].
Qed.

Lemma truediv_positivo n d :
  (0 < n)%Z -> (0 < d)%Z ->
  truediv n d =
  match cociente_doble n d with
  | Some (m, e) => Ok {| signo := false; mant := m; expo := e |}
  | None => Raise OverflowError
  end.
Proof.
  intros Hn Hd. unfold truediv.
  replace (d =? 0)%Z with false by (symmetry; apply Z.eqb_neq; lia).
  replace (n =? 0)%Z with false by (symmetry; apply Z.eqb_neq; lia).
  replace (n <? 0)%Z with false by (symmetry; apply Z.ltb_ge; lia).
  replace (d <? 0)%Z with false by (symmetry; apply Z.ltb_ge; lia).
  cbv zeta. cbn [xorb]. rewrite !Z.abs_eq by lia. reflexivity.
Qed.

Lemma round_decimas_redondeo n d :
  round_decimas n d = redondeo_par (10 * n) d.
Proof. reflexivity. Qed.

(** Below 2^50 months the doubles of the source give the double nearest
    to the exact tenth. *)
Lemma anios_doble_exacto T :
  (0 <= T < 2 ^ 50)%Z ->
  (x <- truediv T 12 ;; round_1 x) = truediv (round_decimas T 12) 10.
Proof.
  intros [H0 H1]. destruct (Z.eq_dec T 0) as [->|Hn];
    [vm_compute; reflexivity|].
  assert (HT : (0 < T < 2 ^ 50)%Z) by lia.
  destruct (cociente_doble_12 HT) as (m & e & Ec & He & Er).
  rewrite truediv_positivo by lia. rewrite Ec. cbn [bind].
  unfold round_1. cbn [expo mant signo]. 
  replace (0 <=? e)%Z with false by (symmetry; apply Z.leb_gt; lia).
  rewrite Er, <- round_decimas_redondeo.
  assert (Ha : (0 <= round_decimas T 12)%Z).
  { rewrite round_decimas_redondeo.
    destruct (redondeo_par_spec (10 * T) (b := 12) ltac:(lia)) as [A1 _].
    lia. }
  destruct (Z.eq_dec (round_decimas T 12) 0) as [E0|E0].
  - rewrite E0. reflexivity.
  - replace (round_decimas T 12 =? 0)%Z with false
      by (symmetry; apply Z.eqb_neq; exact E0).
    rewrite truediv_positivo by lia. reflexivity.
Qed.

(** X10: for jobs whose months, a job without a duration counting for
    nothing, add up to a total from 0 to less than 2^50, the doubles of
    the source give the tenth nearest to total / 12, a tie going to the
    even tenth: [round(total_meses / 12, 1)] is the double nearest to
    a / 10, where a is the nearest tenth of the exact quotient, so that
    |12 a - 10 total| <= 6, and a is even when the two are equal. *)
Theorem calcular_anios_experiencia_redondeo :
  forall trabajos,
    (0 <= total_meses trabajos < 2 ^ 50)%Z ->
    let a := calcular_anios_experiencia trabajos in
    let total := total_meses trabajos in
    calcular_anios_experiencia_doble trabajos = truediv a 10
    /\ (Z.abs (12 * a - 10 * total) <= 6)%Z
    /\ (Z.abs (12 * a - 10 * total) = 6 -> Z.even a = true)%Z.
Proof.
  intros trabajos HT. cbv zeta.
  unfold calcular_anios_experiencia_doble, calcular_anios_experiencia.
  cbv zeta. rewrite suma_meses, Z.add_0_l.
  split; [now apply anios_doble_exacto|].
  destruct (round_decimas_12 (total_meses trabajos)) as (H1 & H2 & _).
  split; assumption.
Qed.

Lemma total_meses_no_negativo l :
  Forall (trabajo_bien db) l -> (0 <= total_meses l)%Z.
Proof.
  induction 1 as [|t l (_ & _ & _ & Hd) _ IH]; simpl; [lia|].
  unfold meses_de. destruct (duracion_meses t) as [d|] eqn:E; [|lia].
  destruct (Hd d E) as [Hpos _]. lia.
Qed.

(** X11: the entry point counts the jobs it returns, and the years of
    experience it reports are not negative: they come from jobs whose
    durations, where there is one, are not negative. *)
Theorem estructurar_cv_experiencia :
  forall secciones texto_completo,
    exists r,
      estructurar_cv db env ahora secciones texto_completo = Ok r
      /\ parsear_experiencia db env ahora
           (dict_get_or secciones (u "experiencia") []) = Ok (experiencia r)
      /\ cantidad_empleos r = length (experiencia r)
      /\ Forall (trabajo_bien db) (experiencia r)
      /\ (0 <= total_meses (experiencia r))%Z
      /\ (0 <= anios_experiencia_total r)%Z.
Proof.
  intros secciones texto_completo. unfold estructurar_cv.
  destruct (parsear_experiencia_bien db env ahora
              (dict_get_or secciones (u "experiencia") []))
    as (e & -> & He & _).
  destruct (parsear_educacion_ok db
              (dict_get_or secciones (u "educacion") [])) as (d & ->).
  cbn [bind]. eexists. split; [reflexivity|].
  cbn [experiencia cantidad_empleos anios_experiencia_total].
  pose proof (total_meses_no_negativo He) as Ht.
  repeat split; auto.
  unfold calcular_anios_experiencia. rewrite suma_meses, Z.add_0_l.
  now apply round_decimas_12.
Qed.

End MasEntrada.

Lemma calcular_anios_experiencia_redondeo_witness :
  calcular_anios_experiencia_doble [trabajo_sulicor; trabajo_honor]
  = Ok {| signo := false; mant := 6305039478318694; expo := -53 |}
  /\ calcular_anios_experiencia [trabajo_sulicor; trabajo_honor] = 7%Z.
Proof.
  destruct (@calcular_anios_experiencia_redondeo
              [trabajo_sulicor; trabajo_honor]) as (H & _).
  - vm_compute. split; [discriminate|reflexivity].
  - split; [rewrite H; vm_compute; reflexivity|reflexivity].
Defined.

(** *** The segmenter on any text *)

Section MasSecciones.

Variable db : UCD.

Lemma dict_get_Some {V} (d : dict V) k :
  In k (map fst d) -> exists v, dict_get d k = Some v.
Proof.
  induction d as [|[k0 v0] d IH]; simpl; [contradiction|].
  intros [->|H].
  - rewrite str_eqb_refl. eauto.
  - destruct (str_eqb k0 k); eauto.
Qed.

Lemma dict_set_keys {V} (d : dict V) k v :
  In k (map fst d) -> map fst (dict_set d k v) = map fst d.
Proof.
  induction d as [|[k0 v0] d IH]; simpl; [contradiction|].
  intros H. destruct (str_eqb k0 k) eqn:E; [reflexivity|].
  simpl. f_equal. apply IH. destruct H as [->|H]; [|exact H].
  rewrite str_eqb_refl in E. discriminate.
Qed.

Lemma crece_refl l (d : dict (list pystr)) : Forall2 (crece l) d d.
Proof. induction d; constructor; auto. split; auto. Qed.

Lemma dict_set_crece l (d : dict (list pystr)) k acc :
  dict_get d k = Some acc -> Forall2 (crece l) d (dict_set d k (acc ++ [l])).
Proof.
  induction d as [|[k0 v0] d IH]; simpl; [discriminate|].
  destruct (str_eqb k0 k).
  - intros H. inversion H; subst. constructor; [|apply crece_refl].
    split; auto.
  - intros H. constructor; [split; auto|now apply IH].
Qed.

Lemma es_encabezado_principal_In linea sec :
  es_encabezado_principal db linea = Some sec -> In sec SECCIONES_PRINCIPALES.
Proof.
  unfold es_encabezado_principal.
  destruct (es_encabezado db linea) as [s|]; [|discriminate].
  destruct (truthy s && es_principal s) eqn:E; [|discriminate].
  intros H. inversion H; subst. apply andb_prop in E. destruct E as [_ E].
  unfold es_principal in E. now apply existsb_str_eqb in E.
Qed.

(** One round of the loop: no KeyError, the current section stays one of
    the six, a header is stored nowhere and any other line at most once. *)
Lemma paso_seccion_spec sec acc linea :
  In sec SECCIONES_PRINCIPALES -> map fst acc = SECCIONES_PRINCIPALES ->
  exists sec' acc',
    paso_seccion db (sec, acc) linea = Ok (sec', acc')
    /\ In sec' SECCIONES_PRINCIPALES
    /\ map fst acc' = SECCIONES_PRINCIPALES
    /\ Forall2 (crece linea) acc acc'
    /\ (es_encabezado_principal db linea <> None -> acc' = acc).
Proof.
  intros Hs Hk. unfold paso_seccion. cbn [fst snd].
  destruct (es_encabezado_principal db linea) as [s|] eqn:E.
  - exists s, acc. repeat split; auto.
    + now apply es_encabezado_principal_In in E.
    + apply crece_refl.
  - assert (Hin : In sec (map fst acc)) by now rewrite Hk.
    destruct (dict_get_Some acc sec Hin) as [a Ha].
    unfold dict_item, dict_has. rewrite Ha.
    destruct (negb (truthy (strip db linea))); cbn [bind].
    + destruct (negb (truthy a)).
      * exists sec, acc. repeat split; auto using crece_refl; congruence.
      * exists sec, (dict_set acc sec (a ++ [linea])).
        repeat split; auto.
        -- now rewrite dict_set_keys.
        -- now apply dict_set_crece.
        -- congruence.
    + exists sec, (dict_set acc sec (a ++ [linea])).
      repeat split; auto.
      * now rewrite dict_set_keys.
      * now apply dict_set_crece.
      * congruence.
Qed.

Lemma sublista_nil {A} (l : list A) : sublista [] l.
Proof. induction l; constructor; auto. Qed.

Lemma recorrer_secciones_spec lineas :
  forall sec acc,
    In sec SECCIONES_PRINCIPALES -> map fst acc = SECCIONES_PRINCIPALES ->
    exists sec' acc',
      recorrer_secciones db (sec, acc) lineas = Ok (sec', acc')
      /\ map fst acc' = SECCIONES_PRINCIPALES
      /\ Forall2 (gana db lineas) acc acc'.
Proof.
  induction lineas as [|l ls IH]; intros sec acc Hs Hk.
  - exists sec, acc. repeat split; auto.
    clear. induction acc; constructor; auto.
    split; auto. exists []. rewrite app_nil_r. repeat split; constructor.
  - cbn [recorrer_secciones].
    destruct (paso_seccion_spec acc l Hs Hk)
      as (s1 & a1 & -> & Hs1 & Hk1 & Hc & Hh).
    cbn [bind].
    destruct (IH s1 a1 Hs1 Hk1) as (s2 & a2 & E2 & Hk2 & Hg).
    exists s2, a2. split; [exact E2|]. split; [exact Hk2|].
    assert (Hno : a1 = acc \/ es_encabezado_principal db l = None).
    { destruct (es_encabezado_principal db l) eqn:E; [left|now right].
      apply Hh. discriminate. }
    destruct Hno as [->|Hn].
    + eapply Forall2_impl; [|exact Hg].
      intros kv kv' (Hf & mas & Hm & Hsub & Hnh). split; [exact Hf|].
      exists mas. repeat split; auto. now constructor.
    + clear - Hc Hg Hn. revert a2 Hg.
      induction Hc as [|kv kv1 d d1 [Hf Hv] Hc IHc]; intros a2 Hg.
      * inversion Hg. constructor.
      * inversion Hg as [|? kv2 ? d2 [Hf2 (mas & Hm & Hsub & Hnh)] Hg']; subst.
        constructor; [|now apply IHc].
        split; [congruence|].
        destruct Hv as [Hv|Hv].
        -- exists mas. rewrite Hm, Hv. repeat split; auto. now constructor.
        -- exists (l :: mas). rewrite Hm, Hv, <- app_assoc.
           split; [reflexivity|]. split; now constructor.
Qed.

(** The closing loop reads every section of an accumulator that has the
    six keys. *)
Lemma unir_secciones_map (acc : dict (list pystr)) :
  map fst acc = SECCIONES_PRINCIPALES ->
  unir_secciones db acc SECCIONES_PRINCIPALES =
  Ok (map (fun kv => (fst kv, strip db (join NL (snd kv)))) acc).
Proof.
  intros H.
  destruct acc as [|[k1 v1] [|[k2 v2] [|[k3 v3] [|[k4 v4] [|[k5 v5]
                   [|[k6 v6] [|kv7 r]]]]]]]; try discriminate.
  cbn [map fst] in H. inversion H; subst. reflexivity.
Qed.

Lemma dividir_secciones_estructura texto :
  exists acc : dict (list pystr),
    dividir_secciones db texto =
    Ok (map (fun kv => (fst kv, strip db (join NL (snd kv)))) acc)
    /\ map fst acc = SECCIONES_PRINCIPALES
    /\ Forall
         (fun kv =>
            sublista (snd kv) (split_on 10 texto)
            /\ Forall (fun l => es_encabezado_principal db l = None) (snd kv))
         acc.
Proof.
  unfold dividir_secciones. cbv zeta.
  set (acc0 := dict_set (map (fun sec => (sec, [])) SECCIONES_PRINCIPALES)
                 (u "perfil") []).
  destruct (@recorrer_secciones_spec (split_on 10 texto) (u "perfil") acc0)
    as (sec & acc & E & Hk & Hg); [now left|reflexivity|].
  exists acc.
  match goal with
  | |- context [bind ?m _] =>
      replace m with (@Ok (pystr * dict (list pystr)) (sec, acc))
        by (symmetry; exact E)
  end.
  cbn [bind snd].
  split; [now apply unir_secciones_map|]. split; [exact Hk|].
  assert (H0 : Forall (fun kv : pystr * list pystr => snd kv = []) acc0)
    by (repeat constructor).
  clear E Hk. revert Hg H0. generalize acc0.
  intros a0 Hg H0.
  induction Hg as [|kv kv' d d' [_ (mas & Hm & Hs & Hn)] Hg IH].
  - constructor.
  - inversion H0 as [|kv0 d0 Hkv H0']; subst. constructor; [|now apply IH].
    rewrite Hm, Hkv. simpl. auto.
Qed.

(** X3: the segmenter returns for every text, with no KeyError; the
    result has exactly the six sections perfil, experiencia, educacion,
    habilidades, cursos, referencias, and the text of each neither begins
    nor ends with white space. *)
Theorem dividir_secciones_total :
  forall texto,
    exists d,
      dividir_secciones db texto = Ok d
      /\ map fst d = SECCIONES_PRINCIPALES
      /\ Forall (fun kv => strip db (snd kv) = snd kv) d.
Proof.
  intros texto.
  destruct (dividir_secciones_estructura texto) as (acc & E & Hk & _).
  eexists. split; [exact E|]. split.
  - rewrite map_map. cbn [fst]. exact Hk.
  - apply Forall_forall. intros kv Hin. apply in_map_iff in Hin.
    destruct Hin as (kv0 & <- & _). cbn [snd]. apply strip_strip.
Qed.

(** X4: what the segmenter gives to a section is lines of the input, in
    the order of the input, joined by newlines and stripped; no line that
    is the header of one of the six sections is among them. *)
Theorem dividir_secciones_contenido :
  forall texto,
    exists acc : dict (list pystr),
      dividir_secciones db texto =
      Ok (map (fun kv => (fst kv, strip db (join NL (snd kv)))) acc)
      /\ Forall
           (fun kv =>
              sublista (snd kv) (split_on 10 texto)
              /\ Forall (fun l => es_encabezado_principal db l = None) (snd kv))
           acc.
Proof.
  intros texto.
  destruct (dividir_secciones_estructura texto) as (acc & E & _ & H).
  exists acc. auto.
Qed.

(** *** Segmenting a section again *)

Lemma lstrip_partes s :
  exists w, s = w ++ lstrip db s /\ forallb (isspace db) w = true.
Proof.
  induction s as [|c s IH]; simpl; [now exists []|].
  destruct (isspace db c) eqn:E; [|now exists []].
  destruct IH as (w & Hw & Hb). exists (c :: w). simpl. rewrite E, Hb.
  split; [f_equal; exact Hw|reflexivity].
Qed.

Lemma forallb_rev (f : N -> bool) l :
  forallb f l = true -> forallb f (rev l) = true.
Proof.
  rewrite !forallb_forall. intros H x Hx. apply H. now apply in_rev.
Qed.

Lemma rstrip_partes s :
  exists w, s = rstrip db s ++ w /\ forallb (isspace db) w = true.
Proof.
  unfold rstrip. destruct (lstrip_partes (rev s)) as (w & Hw & Hb).
  exists (rev w). split; [|now apply forallb_rev].
  rewrite <- rev_app_distr, <- Hw. now rewrite rev_involutive.
Qed.

Lemma rstrip_blancos a v :
  forallb (isspace db) v = true -> rstrip db (a ++ v) = rstrip db a.
Proof.
  intros H. unfold rstrip.
  rewrite rev_app_distr, lstrip_blancos by now apply forallb_rev.
  reflexivity.
Qed.

Lemma strip_blancos_l w s :
  forallb (isspace db) w = true -> strip db (w ++ s) = strip db s.
Proof. intros H. unfold strip. now rewrite lstrip_blancos. Qed.

Lemma strip_blancos_r a v :
  forallb (isspace db) v = true -> strip db (a ++ v) = strip db a.
Proof.
  intros H. unfold strip.
  destruct (lstrip_partes a) as (w & Hw & Hb).
  assert (E0 : lstrip db (a ++ v) = lstrip db (lstrip db a ++ v)).
  { rewrite Hw at 1. now rewrite <- app_assoc, lstrip_blancos by exact Hb. }
  assert (E : lstrip db (a ++ v) = lstrip db a ++ v
              \/ (lstrip db (a ++ v) = [] /\ lstrip db a = [])).
  { rewrite E0. clear E0 Hw.
    destruct (lstrip db a) as [|x r] eqn:Ea.
    - right. split; [|reflexivity]. simpl.
      rewrite <- (app_nil_r v). now rewrite lstrip_blancos.
    - left. apply lstrip_keeps in Ea. simpl. now rewrite Ea. }
  destruct E as [->|[-> ->]]; [now apply rstrip_blancos|reflexivity].
Qed.

(** Whether a line is a header is decided on the stripped line. *)
Lemma es_encabezado_principal_strip a b :
  strip db a = strip db b ->
  es_encabezado_principal db a = es_encabezado_principal db b.
Proof.
  intros H. unfold es_encabezado_principal, es_encabezado. now rewrite H.
Qed.

Lemma split_on_app sep a b :
  exists ia la lb rb,
    split_on sep a = ia ++ [la] /\ split_on sep b = lb :: rb
    /\ split_on sep (a ++ b) = ia ++ [la ++ lb] ++ rb.
Proof.
  induction a as [|c t IH].
  - destruct (split_on_cons sep b) as (lb & rb & E).
    exists [], [], lb, rb. simpl. auto.
  - destruct IH as (ia & la & lb & rb & Ha & Hb & Hab).
    cbn [split_on app]. destruct (c =? sep)%N.
    + exists ([] :: ia), la, lb, rb. rewrite Ha, Hab. simpl. auto.
    + rewrite Ha, Hab. destruct ia as [|x ia].
      * exists [], (c :: la), lb, rb. simpl. auto.
      * exists ((c :: x) :: ia), la, lb, rb. simpl. auto.
Qed.

Lemma split_on_chars sep s :
  forall l, In l (split_on sep s) -> forall c, In c l -> In c s.
Proof.
  induction s as [|c0 t IH]; intros l Hl c Hc.
  - destruct Hl as [<-|[]]. exact Hc.
  - cbn [split_on] in Hl. destruct (c0 =? sep)%N.
    + destruct Hl as [<-|Hl]; [destruct Hc|]. right. eapply IH; eauto.
    + destruct (split_on_cons sep t) as (l0 & ls & E). rewrite E in *.
      destruct Hl as [<-|Hl].
      * destruct Hc as [<-|Hc]; [now left|]. right.
        apply (IH l0); [now left|exact Hc].
      * right. apply (IH l); [now right|exact Hc].
Qed.

Lemma split_on_sin_sep sep s :
  forall l, In l (split_on sep s) -> ~ In sep l.
Proof.
  induction s as [|c0 t IH]; intros l Hl.
  - destruct Hl as [<-|[]]. intros [].
  - cbn [split_on] in Hl. destruct (c0 =? sep)%N eqn:Ec.
    + destruct Hl as [<-|Hl]; [intros []|now apply IH].
    + destruct (split_on_cons sep t) as (l0 & ls & E). rewrite E in *.
      destruct Hl as [<-|Hl].
      * intros [->|Hc]; [now rewrite N.eqb_refl in Ec|].
        apply (IH l0); [now left|exact Hc].
      * apply IH. now right.
Qed.

Lemma split_on_libre sep l r :
  ~ In sep l -> split_on sep (l ++ sep :: r) = l :: split_on sep r.
Proof.
  induction l as [|c l IH]; intros H.
  - simpl. now rewrite N.eqb_refl.
  - cbn [app split_on].
    destruct (c =? sep)%N eqn:Ec.
    + apply N.eqb_eq in Ec. subst c. exfalso. apply H. now left.
    + rewrite IH; [reflexivity|]. intros Hc. apply H. now right.
Qed.

Lemma split_on_una sep l : ~ In sep l -> split_on sep l = [l].
Proof.
  induction l as [|c l IH]; intros H; [reflexivity|].
  cbn [split_on]. destruct (c =? sep)%N eqn:Ec.
  - apply N.eqb_eq in Ec. subst c. exfalso. apply H. now left.
  - rewrite IH; [reflexivity|]. intros Hc. apply H. now right.
Qed.

(** Lines that hold no newline come back from joining and splitting. *)
Lemma split_join ls :
  ls <> [] -> Forall (fun l => ~ In 10%N l) ls ->
  split_on 10 (join NL ls) = ls.
Proof.
  induction ls as [|p ls IH]; intros Hne H; [congruence|].
  inversion H as [|? ? Hp Hls]; subst.
  destruct ls as [|q r].
  - simpl. now apply split_on_una.
  - change (join NL (p :: q :: r)) with (p ++ 10%N :: join NL (q :: r)).
    rewrite split_on_libre by exact Hp. f_equal.
    apply IH; [discriminate|exact Hls].
Qed.

Lemma sublista_In {A} (a b : list A) :
  sublista a b -> forall x, In x a -> In x b.
Proof.
  induction 1 as [|y a b _ IH|y a b _ IH]; intros x Hx.
  - exact Hx.
  - right. now apply IH.
  - destruct Hx as [<-|Hx]; [now left|right; now apply IH].
Qed.

(** Stripping a text leaves no new header among its lines. *)
Lemma lineas_de_strip s :
  Forall (fun l => es_encabezado_principal db l = None) (split_on 10 s) ->
  Forall (fun l => es_encabezado_principal db l = None)
         (split_on 10 (strip db s)).
Proof.
  intros H.
  destruct (lstrip_partes s) as (w1 & Hs & Hw1).
  destruct (rstrip_partes (lstrip db s)) as (w2 & Hm & Hw2).
  fold (strip db s) in Hm. set (m := strip db s) in *.
  assert (H1 : Forall (fun l => es_encabezado_principal db l = None)
                      (split_on 10 (lstrip db s))).
  { destruct (split_on_app 10 w1 (lstrip db s))
      as (ia & la & lb & rb & Ha & Hb & Hab).
    rewrite <- Hs in Hab. rewrite Hab in H. rewrite Hb.
    apply Forall_app in H. destruct H as [_ H].
    inversion H as [|? ? Hl Hr]; subst. constructor; [|exact Hr].
    rewrite <- Hl. apply es_encabezado_principal_strip. symmetry.
    apply strip_blancos_l. apply forallb_forall. intros c Hc.
    rewrite forallb_forall in Hw1. apply Hw1.
    apply (@split_on_chars 10 w1 la); [|exact Hc].
    rewrite Ha. apply in_or_app. right. now left. }
  destruct (split_on_app 10 m w2) as (ia & la & lb & rb & Ha & Hb & Hab).
  rewrite <- Hm in Hab. rewrite Hab in H1. rewrite Ha.
  apply Forall_app in H1. destruct H1 as [Hia H1].
  apply Forall_app. split; [exact Hia|].
  inversion H1 as [|? ? Hl Hr]; subst. constructor; [|constructor].
  rewrite <- Hl. apply es_encabezado_principal_strip. symmetry.
  apply strip_blancos_r. apply forallb_forall. intros c Hc.
  rewrite forallb_forall in Hw2. apply Hw2.
  apply (@split_on_chars 10 w2 lb); [|exact Hc].
  rewrite Hb. now left.
Qed.

(** X5: the segmenter is idempotent on what it returns: the text of any
    section of its result, segmented again, comes back whole as the
    profile section, and the other five sections are empty. *)
Theorem dividir_secciones_idempotente :
  forall texto,
    exists d,
      dividir_secciones db texto = Ok d
      /\ Forall
           (fun kv =>
              dividir_secciones db (snd kv) =
              Ok ((u "perfil", snd kv)
                    :: map (fun sec => (sec, [])) (tl SECCIONES_PRINCIPALES)))
           d.
Proof.
  intros texto.
  destruct (dividir_secciones_estructura texto) as (acc & E & _ & H).
  eexists. split; [exact E|].
  apply Forall_forall. intros kv Hin. apply in_map_iff in Hin.
  destruct Hin as ([k ls] & <- & Hin). cbn [fst snd].
  rewrite Forall_forall in H. destruct (H _ Hin) as [Hsub Hno].
  cbn [snd] in Hsub, Hno.
  rewrite <- (strip_strip db (join NL ls)) at 2.
  apply dividir_secciones_perfil. apply lineas_de_strip.
  destruct ls as [|l0 ls0]; [repeat constructor|].
  rewrite split_join; [exact Hno|discriminate|].
  apply Forall_forall. intros l Hl.
  apply (@split_on_sin_sep 10 texto). now apply (sublista_In Hsub).
Qed.

End MasSecciones.

(** *** What the enrichment writes *)

Section MasEnriquecimiento.

Variable db : UCD.
Variable env : nlp_env.

Lemma aparece_refl (a : pystr) : aparece_en a a.
Proof. exists [], []. now rewrite app_nil_r. Qed.

Lemma aparece_trans (a b c : pystr) :
  aparece_en a b -> aparece_en b c -> aparece_en a c.
Proof.
  intros (p1 & q1 & ->) (p2 & q2 & ->).
  exists (p2 ++ p1), (q1 ++ q2). now rewrite <- !app_assoc.
Qed.

Lemma starts_with_prefijo p :
  forall s, starts_with p s = true -> exists post, s = p ++ post.
Proof.
  induction p as [|x p IH]; intros s H; [now exists s|].
  destruct s as [|y s]; [discriminate|]. simpl in H.
  apply andb_prop in H. destruct H as [Hx Hp]. apply N.eqb_eq in Hx. subst y.
  destruct (IH _ Hp) as [post ->]. now exists post.
Qed.

Lemma find_from_aparece sub :
  forall s i j, find_from sub s i = Some j -> aparece_en sub s.
Proof.
  induction s as [|c t IH]; intros i j H; simpl in H.
  - destruct (starts_with sub []) eqn:E; [|discriminate].
    apply starts_with_prefijo in E. destruct E as [post E].
    exists [], post. exact E.
  - destruct (starts_with sub (c :: t)) eqn:E.
    + apply starts_with_prefijo in E. destruct E as [post E].
      exists [], post. exact E.
    + apply IH in H. destruct H as (pre & post & ->).
      now exists (c :: pre), post.
Qed.

Lemma split_on_prefijo sep s l ls :
  split_on sep s = l :: ls -> exists post, s = l ++ post.
Proof.
  revert l ls. induction s as [|c t IH]; intros l ls H; simpl in H.
  - inversion H. now exists [].
  - destruct (c =? sep)%N.
    + inversion H. now exists (c :: t).
    + destruct (split_on sep t) as [|l0 ls0] eqn:E.
      * inversion H. destruct (split_on_cons sep t) as (x & y & Hxy).
        congruence.
      * inversion H; subst. destruct (IH _ _ eq_refl) as [post ->].
        now exists post.
Qed.

Lemma split_on_aparece sep s :
  forall l, In l (split_on sep s) -> aparece_en l s.
Proof.
  induction s as [|c t IH]; intros l H; simpl in H.
  - destruct H as [<-|[]]. apply aparece_refl.
  - destruct (c =? sep)%N.
    + destruct H as [<-|H]; [now exists [], (c :: t)|].
      destruct (IH _ H) as (pre & post & ->). now exists (c :: pre), post.
    + destruct (split_on sep t) as [|l0 ls0] eqn:E.
      * destruct (split_on_cons sep t) as (x & y & Hxy). congruence.
      * destruct H as [<-|H].
        -- destruct (split_on_prefijo _ _ E) as [post ->].
           now exists [], post.
        -- destruct (IH l (or_intror H)) as (pre & post & ->).
           now exists (c :: pre), post.
Qed.

Lemma strip_aparece s : aparece_en (strip db s) s.
Proof.
  destruct (lstrip_partes db s) as (w1 & H1 & _).
  destruct (rstrip_partes db (lstrip db s)) as (w2 & H2 & _).
  exists w1, w2. fold (strip db s) in H2. rewrite <- H2. exact H1.
Qed.

Lemma In_firstn {A} (x : A) n :
  forall l, In x (firstn n l) -> In x l.
Proof.
  induction n as [|n IH]; intros [|y l] H; simpl in H; try contradiction.
  destruct H as [->|H]; [now left|right; now apply IH].
Qed.

Lemma In_skipn {A} (x : A) n :
  forall l, In x (skipn n l) -> In x l.
Proof.
  induction n as [|n IH]; intros [|y l] H; simpl in H; auto.
  right. now apply IH.
Qed.

Lemma enriquecer_trabajo_origen orgs texto t :
  Forall (fun o => truthy o = true) orgs ->
  enriquecer_trabajo db env orgs texto t = t
  \/ exists e,
       enriquecer_trabajo db env orgs texto t = con_empresa t (Some e)
       /\ truthy_opt (empresa t) = false
       /\ truthy e = true /\ aparece_en e texto.
Proof.
  intros Horgs. unfold enriquecer_trabajo.
  destruct (truthy_opt (empresa t)) eqn:Ee; [now left|].
  destruct (cargo t) as [[|c0 c]|]; [now left| |now left].
  destruct (primer_indice _ _ _) as [idx|]; [|now left].
  cbv zeta.
  match goal with
  | |- context [match List.find ?f ?l with _ => _ end] =>
      destruct (List.find f l) as [l0|] eqn:Ef
  end.
  - right. exists l0. apply find_some in Ef. destruct Ef as [Hin Hf].
    apply andb_prop in Hf. destruct Hf as [Hf _].
    apply andb_prop in Hf. destruct Hf as [Ht _].
    repeat split; auto.
    apply in_map_iff in Hin. destruct Hin as (l1 & <- & Hin).
    unfold slice in Hin. apply In_firstn, In_skipn in Hin.
    eapply aparece_trans; [apply strip_aparece|].
    now apply split_on_aparece in Hin.
  - match goal with
    | |- context [match List.find ?f ?l with _ => _ end] =>
        destruct (List.find f l) as [org|] eqn:Eo
    end; [|now left].
    right. exists org. apply find_some in Eo. destruct Eo as [Hin Hf].
    repeat split; auto.
    + rewrite Forall_forall in Horgs. now apply Horgs.
    + unfold find in Hf.
      destruct (find_from org texto 0) as [i|] eqn:Ei; [|discriminate].
      now apply find_from_aparece in Ei.
Qed.

(** X13: the enrichment returns the jobs it was given, one for one and
    in their order; each is untouched, or had no company and comes back
    with one that is not empty and stands in the text of the section: the
    enrichment writes no text that the section does not hold. *)
Theorem enriquecer_no_inventa :
  forall trabajos texto,
    Forall2
      (fun t t' =>
         t' = t
         \/ exists e, t' = con_empresa t (Some e)
                      /\ truthy_opt (empresa t) = false
                      /\ truthy e = true /\ aparece_en e texto)
      trabajos (enriquecer_trabajos_con_nlp db env trabajos texto).
Proof.
  intros trabajos texto.
  assert (Hrefl : forall l0 : list trabajo,
             Forall2
               (fun t t' =>
                  t' = t
                  \/ exists e, t' = con_empresa t (Some e)
                               /\ truthy_opt (empresa t) = false
                               /\ truthy e = true /\ aparece_en e texto)
               l0 l0).
  { induction l0; constructor; auto. }
  pose proof enriquecer_trabajo_origen as Hs.
  unfold enriquecer_trabajos_con_nlp.
  destruct env as [|[nlp|]]; try apply Hrefl.
  destruct trabajos as [|t l]; [apply Hrefl|].
  destruct (orgs_del_texto db nlp texto) as [|o orgs] eqn:Eo; [apply Hrefl|].
  assert (Horgs : Forall (fun o => truthy o = true) (o :: orgs)).
  { rewrite <- Eo. unfold orgs_del_texto, dict_fromkeys.
    apply Forall_forall. intros x Hx. apply dedup_aux_In in Hx.
    destruct Hx as [Hx _]. apply filter_In in Hx. now destruct Hx. }
  generalize (t :: l). intros l'.
  induction l' as [|t' l' IH]; simpl; constructor; auto.
Qed.

End MasEnriquecimiento.

(** *** The pattern "Empresa - Cargo" *)

Section MasGuion.

Variable db : UCD.
Variable env : nlp_env.

(** The first match the scanner lists is the one [re.search] finds. *)
Lemma scan_primero r :
  forall s p i,
    hd_error (scan db r p s i 0) = search_from db r p s i.
Proof.
  induction s as [|c t IH]; intros p i; simpl.
  - destruct (match_here db r p [] false) as [res|]; reflexivity.
  - destruct (match_here db r p (c :: t) false) as [res|]; [|apply IH].
    match goal with
    | |- hd_error (match ?n with _ => _ end) = _ => destruct n
    end; reflexivity.
Qed.

Lemma re_split_uno r s :
  re_split db r s 1 =
  match re_search db r s with
  | Some m => [slice s 0 (m_start m); skipn (m_end m) s]
  | None => [s]
  end.
Proof.
  unfold re_split, re_finditer, re_search.
  rewrite <- scan_primero.
  destruct (scan db r None s 0 0) as [|m ms]; reflexivity.
Qed.

Lemma denota_guion p s g p' s' g' :
  denota db (re_compile false PAT_GUION) p s g p' s' g' ->
  exists sep, s = sep ++ s' /\ forma_guion db sep.
Proof.
  intros H.
  match type of H with
  | denota _ ?r _ _ _ _ _ _ =>
      let r' := eval vm_compute in r in change r with r' in H
  end.
  destruct H as (p1 & s1 & g1 & (n1 & Hn1 & _ & H1)
                 & p2 & s2 & g2 & (c & Hc & _ & Hcc & _)
                 & (n2 & Hn2 & _ & H2)).
  apply iter_un_caracter in H1. destruct H1 as (w1 & -> & Hl1 & Hw1 & _).
  apply iter_un_caracter in H2. destruct H2 as (w2 & -> & Hl2 & Hw2 & _).
  subst s1. exists (w1 ++ c :: w2). split; [now rewrite <- app_assoc|].
  exists w1, c, w2. split; [reflexivity|].
  split; [intros ->; simpl in Hl1; lia|].
  split; [intros ->; simpl in Hl2; lia|].
  assert (Hsp : forall x, class_mem db false [CSpace] x = isspace db x).
  { intros x. unfold class_mem. simpl. now rewrite orb_false_r. }
  split; [eapply Forall_impl; [|exact Hw1]; intros x Hx; now rewrite <- Hsp|].
  split; [eapply Forall_impl; [|exact Hw2]; intros x Hx; now rewrite <- Hsp|].
  unfold class_mem in Hcc. simpl in Hcc. rewrite orb_false_r in Hcc.
  apply orb_prop in Hcc. destruct Hcc as [Hcc|Hcc];
    apply N.eqb_eq in Hcc; auto.
Qed.

Lemma re_split_guion linea p0 p1 :
  re_split db (re_compile false PAT_GUION) linea 1 = [p0; p1] ->
  exists sep, linea = p0 ++ sep ++ p1 /\ forma_guion db sep.
Proof.
  rewrite re_split_uno.
  destruct (re_search db (re_compile false PAT_GUION) linea) as [m|] eqn:E;
    [|discriminate].
  intros H. inversion H; subst. clear H.
  apply re_search_sound in E.
  destruct E as (pre & rest & q0 & q' & Hs & Hst & HD).
  apply denota_guion in HD. destruct HD as (sep & Hsep & Hf).
  apply app_inv_tail in Hsep.
  exists sep. split; [|exact Hf]. subst linea sep.
  assert (H0 : slice (pre ++ m_text m ++ rest) 0 (m_start m) = pre).
  { rewrite Hst. unfold slice. rewrite Nat.sub_0_r. cbn [skipn].
    rewrite firstn_app, Nat.sub_diag, firstn_all. cbn [firstn].
    apply app_nil_r. }
  assert (H1 : skipn (m_end m) (pre ++ m_text m ++ rest) = rest).
  { unfold m_end. rewrite Hst, app_assoc, <- length_app.
    rewrite skipn_app, Nat.sub_diag, skipn_all. reflexivity. }
  rewrite H0, H1. reflexivity.
Qed.

(** X14: the function answers with a company and a title or with
    neither; when it gives both, the line is a left part, a separator
    (white space, a hyphen or an en dash, white space) and a right part,
    the two answers are the two parts stripped, each of sixty characters
    at most, and without a loaded model the company is the left part. *)
Theorem separar_empresa_cargo_guion_partes :
  forall linea,
    match separar_empresa_cargo_guion db env linea with
    | (None, None) => True
    | (Some emp, Some car) =>
        (partes_de db linea emp car \/ partes_de db linea car emp)
        /\ (length emp <= 60)%nat /\ (length car <= 60)%nat
        /\ (spacy_disponible env = false -> partes_de db linea emp car)
    | _ => False
    end.
Proof.
  intros linea. unfold separar_empresa_cargo_guion.
  destruct env as [|nlp]; [exact I|].
  destruct (re_split db (re_compile false PAT_GUION) linea 1)
    as [|p0 [|p1 [|p2 r]]] eqn:E; try exact I.
  apply re_split_guion in E. destruct E as (sep & Hs & Hf).
  assert (Hp : partes_de db linea (strip db p0) (strip db p1)).
  { exists p0, sep, p1. auto. }
  cbv zeta.
  destruct ((60 <? length (strip db p0)) || (60 <? length (strip db p1)))%nat
    eqn:El; [exact I|].
  apply orb_false_elim in El. destruct El as [E0 E1].
  apply Nat.ltb_ge in E0. apply Nat.ltb_ge in E1.
  destruct (spacy_disponible (ConModulo nlp)) eqn:Esp.
  - repeat caso_si; repeat split; auto; discriminate.
  - repeat split; auto.
Qed.

End MasGuion.

(** *** Lists of skills and of courses *)

Section MasHabilidades.

Variable db : UCD.

Lemma split_por_cons ok s : exists l ls, split_por ok s = l :: ls.
Proof.
  destruct s as [|c t]; simpl; [eauto|].
  destruct (ok c); [eauto|]. destruct (split_por ok t); eauto.
Qed.

(** Splitting by a character class cuts at every character of the class. *)
Lemma pieces_clase neg items (s0 : pystr) :
  forall s p i last,
    (last <= i)%nat -> skipn i s0 = s ->
    pieces s0 last (scan db (RIn neg items) p s i 0) =
    match split_por (class_mem db neg items) s with
    | l :: ls => (slice s0 last i ++ l) :: ls
    | [] => []
    end.
Proof.
  induction s as [|c t IH]; intros p i last Hle Hs.
  - cbn [scan]. rewrite match_here_clase. cbn [pieces split_por].
    rewrite app_nil_r. f_equal. symmetry. now apply slice_to_end.
  - cbn [scan]. rewrite match_here_clase. cbn [split_por].
    assert (Ht : skipn (S i) s0 = t).
    { replace (S i) with (1 + i)%nat by lia. rewrite <- skipn_skipn.
      now rewrite Hs. }
    destruct (class_mem db neg items c) eqn:E.
    + unfold mk_match. cbn [m_text snd fst].
      replace (length (c :: t) - length t)%nat with 1%nat
        by (cbn [length]; lia).
      cbn [firstn length]. cbn [pieces]. unfold m_end.
      cbn [m_start m_text length].
      replace (i + 1)%nat with (S i) by lia.
      rewrite app_nil_r. f_equal.
      rewrite (IH (Some c) (S i) (S i)) by (auto; lia).
      rewrite slice_same.
      destruct (split_por (class_mem db neg items) t); reflexivity.
    + rewrite (IH (Some c) (S i) last) by (auto; lia).
      rewrite (slice_snoc _ Hle Hs).
      destruct (split_por_cons (class_mem db neg items) t) as (l & ls & ->).
      now rewrite <- app_assoc.
Qed.

Lemma re_split_clase neg items s :
  re_split db (RIn neg items) s 0 = split_por (class_mem db neg items) s.
Proof.
  unfold re_split, re_finditer.
  rewrite (pieces_clase neg items s (s := s) None (i := 0) (last := 0));
    auto.
  unfold slice. cbn [Nat.sub firstn app].
  destruct (split_por (class_mem db neg items) s); reflexivity.
Qed.

Lemma split_por_prefijo ok s l ls :
  split_por ok s = l :: ls ->
  (exists post, s = l ++ post) /\ Forall (fun c => ok c = false) l.
Proof.
  revert l ls. induction s as [|c t IH]; intros l ls H; simpl in H.
  - inversion H. split; [now exists []|constructor].
  - destruct (ok c) eqn:Ec.
    + inversion H. split; [now exists (c :: t)|constructor].
    + destruct (split_por_cons ok t) as (l0 & ls0 & E). rewrite E in H.
      inversion H; subst. destruct (IH _ _ E) as ([post ->] & Hl).
      split; [now exists post|now constructor].
Qed.

Lemma split_por_In ok s :
  forall l, In l (split_por ok s) ->
            aparece_en l s /\ Forall (fun c => ok c = false) l.
Proof.
  induction s as [|c t IH]; intros l H; simpl in H.
  - destruct H as [<-|[]]. split; [now exists [], []|constructor].
  - destruct (ok c) eqn:Ec.
    + destruct H as [<-|H]; [split; [now exists [], (c :: t)|constructor]|].
      destruct (IH _ H) as ((pre & post & ->) & Hl).
      split; [now exists (c :: pre), post|exact Hl].
    + destruct (split_por_cons ok t) as (l0 & ls0 & E). rewrite E in *.
      destruct H as [<-|H].
      * destruct (split_por_prefijo _ _ E) as ([post ->] & Hl).
        split; [now exists [], post|now constructor].
      * destruct (IH l (or_intror H)) as ((pre & post & ->) & Hl).
        split; [now exists (c :: pre), post|exact Hl].
Qed.

(** X15: every skill, and every course, of the output is a fragment of
    the section text that holds no separator (newline, comma, semicolon,
    bullet, hyphen), stripped and capitalised; the stripped fragment has
    more than two characters. *)
Theorem parsear_habilidades_items :
  forall texto,
    Forall
      (fun h =>
         exists p,
           h = capitalize db (strip db p)
           /\ (2 < length (strip db p))%nat
           /\ aparece_en p texto
           /\ Forall (fun c => es_separador_lista c = false) p)
      (parsear_habilidades db texto)
    /\ parsear_cursos db texto = parsear_habilidades db texto.
Proof.
  intros texto. split; [|reflexivity].
  unfold parsear_habilidades.
  destruct (negb (truthy (strip db texto))); [constructor|].
  cbv zeta.
  change (re_compile false PAT_SEPARADORES)
    with (RIn false [CChr 10; CChr 44; CChr 59; CChr 8226; CChr 45]).
  rewrite re_split_clase.
  apply Forall_forall. intros h Hh. apply in_map_iff in Hh.
  destruct Hh as (p & <- & Hp). apply filter_In in Hp.
  destruct Hp as [Hin Hl]. apply Nat.ltb_lt in Hl.
  apply split_por_In in Hin. destruct Hin as [Ha Hs].
  exists p. split; [reflexivity|]. split; [exact Hl|]. split; [exact Ha|].
  exact Hs.
Qed.

End MasHabilidades.

(** *** The e-mail address and the education entries *)

Section MasContacto.

Variable db : UCD.

Lemma iter_clase ok items :
  (forall c, class_mem db false items c = ok c) ->
  forall n p s g p' s' g',
    iter n (denota db (RIn false items)) p s g p' s' g' ->
    exists w, s = w ++ s' /\ length w = n
              /\ Forall (fun c => ok c = true) w.
Proof.
  intros Hok n p s g p' s' g' H.
  apply iter_un_caracter in H. destruct H as (w & -> & Hl & Hw & _).
  exists w. repeat split; auto.
  eapply Forall_impl; [|exact Hw]. intros c Hc. now rewrite <- Hok.
Qed.

Lemma denota_email p s g p' s' g' :
  denota db (re_compile false PAT_EMAIL) p s g p' s' g' ->
  exists e, s = e ++ s' /\ forma_email e.
Proof.
  intros H.
  match type of H with
  | denota _ ?r _ _ _ _ _ _ =>
      let r' := eval vm_compute in r in change r with r' in H
  end.
  destruct H as (p1 & s1 & g1 & (n1 & Hn1 & _ & H1)
                 & p2 & s2 & g2 & (c2 & Hs2 & _ & Hc2 & _)
                 & p3 & s3 & g3 & (n3 & Hn3 & _ & H3)
                 & p4 & s4 & g4 & (c4 & Hs4 & _ & Hc4 & _)
                 & (n5 & Hn5 & _ & H5)).
  apply N.eqb_eq in Hc2. apply N.eqb_eq in Hc4. subst c2 c4.
  apply (iter_clase es_local) in H1;
    [|intros c; unfold class_mem, es_local, es_letra; cbn;
      now rewrite !orb_false_r, !orb_assoc].
  apply (iter_clase es_dominio) in H3;
    [|intros c; unfold class_mem, es_dominio, es_letra; cbn;
      now rewrite !orb_false_r, !orb_assoc].
  apply (iter_clase es_letra) in H5;
    [|intros c; unfold class_mem, es_letra; cbn;
      now rewrite !orb_false_r].
  destruct H1 as (loc & -> & Hl1 & Hw1).
  destruct H3 as (dom & -> & Hl3 & Hw3).
  destruct H5 as (tld & -> & Hl5 & Hw5).
  subst s1 s3.
  exists (loc ++ 64%N :: dom ++ 46%N :: tld). split.
  - rewrite <- !app_assoc. cbn [app]. rewrite <- !app_assoc. reflexivity.
  - exists loc, dom, tld. split; [reflexivity|].
    split; [intros ->; simpl in Hl1; lia|].
    split; [intros ->; simpl in Hl3; lia|].
    split; [lia|]. auto.
Qed.

(** X16: an e-mail address is reported only for a text in which one
    stands, and what is reported is that piece of the text: a local part
    of letters, digits and the signs . _ % + -, the sign @, a domain of
    letters, digits, dots and hyphens, a dot and two letters or more; for
    a text in which no such piece stands no address is reported. *)
Theorem email_solo_direccion :
  forall texto,
    match email (parsear_contacto_desde_perfil db texto) with
    | Some e => aparece_en e texto /\ forma_email e
    | None => True
    end
    /\ ((forall e, aparece_en e texto -> ~ forma_email e) ->
        email (parsear_contacto_desde_perfil db texto) = None).
Proof.
  intros texto. unfold parsear_contacto_desde_perfil. cbn [email].
  destruct (re_search db (re_compile false PAT_EMAIL) texto) as [m|] eqn:E;
    [|split; auto].
  apply re_search_sound in E.
  destruct E as (pre & rest & p0 & p' & Hs & _ & HD).
  apply denota_email in HD. destruct HD as (w & Hw & Hf).
  apply app_inv_tail in Hw.
  assert (Hap : aparece_en (m_text m) texto) by (exists pre, rest; exact Hs).
  rewrite Hw in *. split; [auto|].
  intros Hno. exfalso. exact (Hno w Hap Hf).
Qed.

Lemma denota_anio_edu p s g p' s' g' :
  denota db (re_compile false PAT_ANIO_EDU) p s g p' s' g' ->
  exists a, s = a ++ s' /\ anio_de_siglo db a.
Proof.
  intros H.
  match type of H with
  | denota _ ?r _ _ _ _ _ _ =>
      let r' := eval vm_compute in r in change r with r' in H
  end.
  destruct H as (p1 & s1 & g1 & (_ & _ & -> & _)
                 & p2 & s2 & g2 & (ga & Hsiglo & _)
                 & p3 & s3 & g3 & Hd & (_ & _ & -> & _)).
  apply (@denota_digitos db 2) in Hd. destruct Hd as (w & -> & Hw & _).
  destruct (digitos_2 Hw) as (x & y & -> & Hx & Hy).
  destruct Hsiglo as [Hsiglo|Hsiglo];
    destruct Hsiglo as (q1 & t1 & h1 & (c1 & -> & _ & Hc1 & _)
                        & (c2 & -> & _ & Hc2 & _));
    apply N.eqb_eq in Hc1; apply N.eqb_eq in Hc2; subst c1 c2;
    eexists (_ :: _ :: [x; y]); (split; [reflexivity|]);
    exists x, y; auto.
Qed.

Lemma dict_set_Forall {V} (P : pystr * V -> Prop) (d : dict V) k v :
  Forall P d -> P (k, v) -> Forall P (dict_set d k v).
Proof.
  intros Hd Hkv. induction Hd as [|[k0 v0] d H0 Hd IH]; simpl.
  - constructor; [exact Hkv|constructor].
  - destruct (str_eqb k0 k) eqn:E.
    + apply str_eqb_eq in E. subst k0. constructor; assumption.
    + constructor; assumption.
Qed.

Lemma paso_educacion_bien lineas st linea :
  In linea lineas ->
  Forall (fun e => truthy e = true /\ entrada_bien db lineas e) (fst st) ->
  entrada_bien db lineas (snd st) ->
  exists st',
    paso_educacion db st linea = Ok st'
    /\ Forall (fun e => truthy e = true /\ entrada_bien db lineas e)
              (fst st')
    /\ entrada_bien db lineas (snd st').
Proof.
  intros Hin He Ha. unfold paso_educacion. cbv zeta.
  destruct (re_search db (re_compile false PAT_ANIO_EDU) linea) as [m|] eqn:E;
    cbn [is_some andb].
  - apply re_search_sound in E.
    destruct E as (pre & rest & p0 & p' & Hs & _ & HD).
    apply denota_anio_edu in HD. destruct HD as (a & Hw & Hf).
    apply app_inv_tail in Hw.
    assert (Hap : aparece_en (m_text m) linea) by (exists pre, rest; exact Hs).
    rewrite Hw in *.
    caso_si.
    + cbn [bind]. eexists. split; [reflexivity|]. cbn [fst snd]. split.
      * match goal with
        | |- context [if ?c then _ else _] => destruct c eqn:Et
        end; [|exact He].
        apply Forall_app. split; [exact He|]. constructor; [|constructor].
        split; assumption.
      * unfold entrada_bien.
        constructor; [right; split; [now left|now left]|].
        constructor; [right; split; [now right|now left]|].
        constructor; [|constructor].
        left. split; [reflexivity|]. exists a, linea. auto.
    + repeat caso_si; (eexists; split; [reflexivity|]); cbn [fst snd];
        (split; [exact He|]); try exact Ha;
        apply dict_set_Forall; try exact Ha;
        right; (split; [|right; exists linea; auto]); auto.
  - repeat caso_si; (eexists; split; [reflexivity|]); cbn [fst snd];
      (split; [exact He|]); try exact Ha;
      apply dict_set_Forall; try exact Ha;
      right; (split; [|right; exists linea; auto]); auto.
Qed.

Lemma recorrer_educacion_bien lineas ls :
  forall st,
    (forall l, In l ls -> In l lineas) ->
    Forall (fun e => truthy e = true /\ entrada_bien db lineas e) (fst st) ->
    entrada_bien db lineas (snd st) ->
    exists st',
      recorrer_educacion db st ls = Ok st'
      /\ Forall (fun e => truthy e = true /\ entrada_bien db lineas e)
                (fst st')
      /\ entrada_bien db lineas (snd st').
Proof.
  induction ls as [|l ls IH]; intros st Hsub He Ha; simpl; [eauto|].
  destruct (@paso_educacion_bien lineas st l) as (st1 & -> & He1 & Ha1);
    auto; [apply Hsub; now left|].
  cbn [bind]. apply IH; auto. intros l0 Hl0. apply Hsub. now right.
Qed.

(** X17: the education parser returns for every text; no entry of its
    output is empty; the year of an entry is a year 19.. or 20.. of four
    digits that stands in a line of the section, and its title and its
    institution, where it has them, are lines of the section, stripped. *)
Theorem parsear_educacion_entradas :
  forall texto,
    exists l,
      parsear_educacion db texto = Ok l
      /\ Forall
           (fun e =>
              truthy e = true
              /\ entrada_bien db (lineas_no_vacias db texto) e)
           l.
Proof.
  intros texto. unfold parsear_educacion.
  destruct (negb (truthy (strip db texto))); [exists []; auto|].
  destruct (@recorrer_educacion_bien (lineas_no_vacias db texto)
              (lineas_no_vacias db texto) ([], []))
    as (st & E & He & Ha); auto; try constructor.
  match goal with
  | |- context [bind ?m _] =>
      replace m with (@Ok (list entrada * entrada) st) by (symmetry; exact E)
  end.
  cbn [bind]. eexists. split; [reflexivity|].
  match goal with
  | |- context [if ?c then _ else _] => destruct c eqn:Et
  end; [|exact He].
  apply Forall_app. split; [exact He|]. constructor; [|constructor]. auto.
Qed.

End MasContacto.

(** *** limpiar.py: the text for comparison *)

Section MasLimpiar.

Variable db : UCD.

Lemma racha_le ok s : (racha ok s <= length s)%nat.
Proof.
  induction s as [|c t IH]; simpl; [lia|]. destruct (ok c); simpl; lia.
Qed.

(** A greedy repetition of a class takes the whole run. *)
Lemma rounds_racha neg items :
  forall b lo p s g,
    (length s <= b)%nat ->
    rounds (rx db (RIn neg items))
           (fun _ s' g' => Some (g', s')) b lo p s g =
    if (lo <=? racha (class_mem db neg items) s)%nat
    then Some (g, skipn (racha (class_mem db neg items) s) s)
    else None.
Proof.
  induction b as [|b IH]; intros lo p s g Hb.
  - destruct s; [|simpl in Hb; lia]. simpl. destruct lo; reflexivity.
  - cbn [rounds rx]. destruct s as [|c t]; cbn [one_char racha].
    + destruct lo; reflexivity.
    + destruct (class_mem db neg items c) eqn:E.
      * replace (length t <? length (c :: t))%nat with true
          by (symmetry; apply Nat.ltb_lt; simpl; lia).
        rewrite IH by (simpl in Hb; lia).
        destruct lo as [|lo]; cbn [pred Nat.leb skipn]; [reflexivity|].
        destruct (lo <=? racha (class_mem db neg items) t)%nat; reflexivity.
      * destruct lo; reflexivity.
Qed.

Lemma match_here_racha neg items p s :
  match_here db (RRep (RIn neg items) 1 None) p s false =
  if (1 <=? racha (class_mem db neg items) s)%nat
  then Some ([], skipn (racha (class_mem db neg items) s) s)
  else None.
Proof.
  unfold match_here. cbn [rx andb]. now apply rounds_racha.
Qed.

(** While the scanner steps over a match it finds nothing. *)
Lemma scan_saltar r :
  forall k s p i,
    (k <= length s)%nat ->
    exists p', scan db r p s i k = scan db r p' (skipn k s) (i + k) 0.
Proof.
  induction k as [|k IH]; intros s p i Hk.
  - exists p. now rewrite Nat.add_0_r.
  - destruct s as [|c t]; [simpl in Hk; lia|].
    cbn [scan skipn]. destruct (IH t (Some c) (S i)) as [p' E];
      [simpl in Hk; lia|].
    exists p'. rewrite E. now rewrite Nat.add_succ_r.
Qed.

Lemma join_cons_pieces repl a (s0 : pystr) last ms :
  join repl (a :: pieces s0 last ms) = a ++ repl ++ join repl (pieces s0 last ms).
Proof. destruct ms; reflexivity. Qed.

Lemma colapsar_en_racha ok repl s :
  colapsar_aux ok repl true s = colapsar_aux ok repl false (skipn (racha ok s) s).
Proof.
  induction s as [|c t IH]; [reflexivity|].
  cbn [colapsar_aux racha]. destruct (ok c) eqn:E; [exact IH|].
  cbn [skipn colapsar_aux]. now rewrite E.
Qed.

Lemma skipn_S_de (s0 : pystr) i c t k :
  skipn i s0 = c :: t -> skipn (i + S k) s0 = skipn k t.
Proof.
  intros H. replace (i + S k)%nat with (k + (1 + i))%nat by lia.
  rewrite <- skipn_skipn, <- skipn_skipn, H. reflexivity.
Qed.

(** Substituting the runs of a class: every run gives one replacement. *)
Lemma scan_racha neg items repl (s0 : pystr) :
  forall n s p i last,
    (length s <= n)%nat -> (last <= i)%nat -> skipn i s0 = s ->
    join repl
      (pieces s0 last (scan db (RRep (RIn neg items) 1 None) p s i 0)) =
    slice s0 last i ++ colapsar_aux (class_mem db neg items) repl false s.
Proof.
  induction n as [|n IH]; intros s p i last Hn Hle Hs.
  - destruct s; [|simpl in Hn; lia]. cbn [scan]. rewrite match_here_racha.
    cbn [racha Nat.leb pieces join colapsar_aux]. rewrite app_nil_r.
    symmetry. now apply slice_to_end.
  - destruct s as [|c t].
    + cbn [scan]. rewrite match_here_racha.
      cbn [racha Nat.leb pieces join colapsar_aux]. rewrite app_nil_r.
      symmetry. now apply slice_to_end.
    + cbn [scan]. rewrite match_here_racha. cbn [racha colapsar_aux].
      destruct (class_mem db neg items c) eqn:E.
      * set (k := racha (class_mem db neg items) t).
        cbn [Nat.leb].
        assert (Hk : (k <= length t)%nat) by apply racha_le.
        assert (Hlen : length (m_text (mk_match i (c :: t)
                                 ([], skipn (S k) (c :: t)))) = S k).
        { unfold mk_match. cbn [m_text snd]. rewrite length_firstn.
          rewrite length_skipn. cbn [length]. lia. }
        rewrite Hlen.
        destruct (@scan_saltar (RRep (RIn neg items) 1 None) k t (Some c)
                    (S i) Hk) as [p' Esk].
        rewrite Esk. cbn [pieces]. rewrite join_cons_pieces.
        unfold m_end. rewrite Hlen. cbn [m_start mk_match].
        replace (S i + k)%nat with (i + S k)%nat by lia.
        rewrite (IH (skipn k t) p' (i + S k)%nat (i + S k)%nat);
          [| rewrite length_skipn; simpl in Hn; lia | lia
           | exact (@skipn_S_de s0 i c t k Hs)].
        rewrite slice_same. cbn [app].
        rewrite colapsar_en_racha. reflexivity.
      * cbn [Nat.leb].
        rewrite (IH t (Some c) (S i) last);
          [| simpl in Hn; lia | lia
           | replace (S i) with (i + 1)%nat by lia;
             exact (@skipn_S_de s0 i c t 0 Hs)].
        rewrite (slice_snoc _ Hle Hs). now rewrite <- app_assoc.
Qed.

Lemma re_sub_racha neg items repl s :
  re_sub db (RRep (RIn neg items) 1 None) repl s =
  colapsar_aux (class_mem db neg items) repl false s.
Proof.
  unfold re_sub, re_finditer.
  rewrite (@scan_racha neg items repl s (length s) s None 0 0); auto.
Qed.

Lemma join_split_por ok repl s :
  join repl (split_por ok s) = sustituir ok repl s.
Proof.
  induction s as [|c t IH]; [reflexivity|].
  cbn [split_por sustituir flat_map]. fold (sustituir ok repl t).
  destruct (split_por_cons ok t) as (l & ls & E). rewrite E in *.
  destruct (ok c).
  - change (join repl ([] :: l :: ls)) with (repl ++ join repl (l :: ls)).
    f_equal. exact IH.
  - rewrite join_cons_char. cbn [app]. f_equal. exact IH.
Qed.

Lemma re_sub_clase_por neg items repl s :
  re_sub db (RIn neg items) repl s =
  sustituir (class_mem db neg items) repl s.
Proof.
  unfold re_sub. fold (re_split db (RIn neg items) s 0).
  now rewrite re_split_clase, join_split_por.
Qed.

(** The function, step by step. *)
Lemma limpiar_para_comparacion_pasos texto :
  exists w,
    forallb is_ascii w = true
    /\ limpiar_para_comparacion db texto =
       strip db
         (colapsar_aux (isspace db) [32%N] false
            (sustituir (fun c => negb (isword db c || isspace db c)) [32%N]
               (map ascii_lower w)))
    /\ (forallb is_ascii texto = true -> w = texto).
Proof.
  unfold limpiar_para_comparacion. cbv zeta.
  set (t0 := if forallb is_ascii texto then texto else nfkd_ext db texto).
  exists (filter is_ascii t0).
  assert (Ha : forallb is_ascii (filter is_ascii t0) = true).
  { apply forallb_forall. intros c Hc. apply filter_In in Hc. now destruct Hc. }
  split; [exact Ha|]. split.
  - unfold lower. rewrite Ha.
    change (re_compile false PAT_NO_PALABRA) with (RIn true [CWord; CSpace]).
    change (re_compile false PAT_ESPACIOS)
      with (RRep (RIn false [CSpace]) 1 None).
    change (u " ") with [32%N].
    rewrite re_sub_clase_por, re_sub_racha. f_equal.
    assert (E1 : forall c, class_mem db false [CSpace] c = isspace db c).
    { intros c. unfold class_mem. simpl. now rewrite orb_false_r. }
    assert (E2 : forall c, class_mem db true [CWord; CSpace] c
                           = negb (isword db c || isspace db c)).
    { intros c. unfold class_mem. simpl. now rewrite orb_false_r. }
    assert (Hc : forall ok ok' b s, (forall c, ok c = ok' c) ->
               colapsar_aux ok [32%N] b s = colapsar_aux ok' [32%N] b s).
    { intros ok ok' b s0 H. revert b.
      induction s0 as [|c t IH]; intros b; [reflexivity|].
      cbn [colapsar_aux]. rewrite H, !IH. reflexivity. }
    rewrite (Hc _ _ _ _ E1). f_equal.
    unfold sustituir. apply flat_map_ext. intros c. now rewrite E2.
  - intros H. unfold t0. rewrite H. clear t0 Ha. revert H.
    induction texto as [|c t IH]; intros H; [reflexivity|].
    simpl in H. apply andb_prop in H. destruct H as [Hc Ht].
    simpl. rewrite Hc. f_equal. now apply IH.
Qed.

Ltac comparar :=
  repeat
    (match goal with
     | |- context [(?a <=? ?b)%N] => destruct (N.leb_spec a b)
     | |- context [(?a <? ?b)%N] => destruct (N.ltb_spec a b)
     | |- context [(?a =? ?b)%N] => destruct (N.eqb_spec a b)
     end; try lia);
  cbn [andb orb negb]; try reflexivity; try discriminate; try lia.

Lemma palabra_min_ascii c :
  es_palabra_min c = true -> is_ascii c = true /\ ascii_isupper c = false.
Proof.
  unfold es_palabra_min, is_ascii, ascii_isupper, in_range.
  comparar; intros H; (discriminate || (split; reflexivity)).
Qed.

Lemma palabra_min_clases c :
  es_palabra_min c = true -> isword db c = true /\ isspace db c = false.
Proof.
  intros H. destruct (palabra_min_ascii c H) as [Ha _]. revert H.
  unfold isword, isalnum, isspace. rewrite Ha.
  unfold es_palabra_min, ascii_isupper, ascii_islower, in_range.
  comparar; intros H; (discriminate || (split; reflexivity)).
Qed.

Lemma palabra_min_de c :
  is_ascii c = true -> ascii_isupper c = false ->
  isword db c || isspace db c = true -> isspace db c = false ->
  es_palabra_min c = true.
Proof.
  intros Ha Hu Hw Hs. rewrite Hs, orb_false_r in Hw. revert Hu Hw.
  unfold isword, isalnum. rewrite Ha.
  unfold es_palabra_min, ascii_isupper, ascii_islower, in_range.
  comparar; intros Hu Hw; (discriminate || reflexivity).
Qed.

Lemma ascii_lower_min c :
  is_ascii c = true ->
  is_ascii (ascii_lower c) = true /\ ascii_isupper (ascii_lower c) = false.
Proof.
  unfold ascii_lower, ascii_isupper, in_range, is_ascii.
  destruct ((65 <=? c)%N && (c <=? 90)%N) eqn:E.
  - apply andb_prop in E. destruct E as [E1 E2].
    apply N.leb_le in E1. apply N.leb_le in E2. intros _.
    comparar; split; reflexivity.
  - intros H. split; [exact H|exact E].
Qed.

Lemma ascii_lower_fijo c : ascii_isupper c = false -> ascii_lower c = c.
Proof. intros H. unfold ascii_lower. now rewrite H. Qed.

Lemma espacio_es_blanco : isspace db 32 = true.
Proof. reflexivity. Qed.

Lemma colapsar_caracteres ok b s :
  Forall (fun c => c = 32%N \/ (In c s /\ ok c = false))
         (colapsar_aux ok [32%N] b s).
Proof.
  revert b. induction s as [|c t IH]; intros b; [constructor|].
  cbn [colapsar_aux].
  assert (Hmas : forall b',
             Forall (fun x => x = 32%N \/ (In x (c :: t) /\ ok x = false))
                    (colapsar_aux ok [32%N] b' t)).
  { intros b'. eapply Forall_impl; [|apply (IH b')].
    intros x [->|[Hx Hok]]; [now left|right; split; [now right|exact Hok]]. }
  destruct (ok c) eqn:E.
  - destruct b; [apply Hmas|]. constructor; [now left|apply Hmas].
  - constructor; [right; split; [now left|exact E]|apply Hmas].
Qed.

Lemma colapsar_simples ok :
  ok 32%N = true ->
  forall s b,
    espacios_simples (colapsar_aux ok [32%N] b s) = true
    /\ (b = true ->
        match colapsar_aux ok [32%N] b s with
        | c :: _ => c <> 32%N
        | [] => True
        end).
Proof.
  intros H32. induction s as [|c t IH]; intros b;
    [split; [reflexivity|intros _; exact I]|].
  cbn [colapsar_aux]. destruct (ok c) eqn:E.
  - destruct b; [apply IH|]. split; [|discriminate].
    destruct (IH true) as [Hs Hh]. specialize (Hh eq_refl).
    cbn [app]. destruct (colapsar_aux ok [32%N] true t) as [|x r];
      [reflexivity|].
    cbn [espacios_simples] in *. rewrite Hs.
    destruct (N.eqb_spec x 32); [contradiction|]. reflexivity.
  - assert (Hc : c <> 32%N) by (intros ->; congruence).
    split; [|intros _; exact Hc].
    destruct (IH false) as [Hs _].
    destruct (colapsar_aux ok [32%N] false t) as [|x r]; [reflexivity|].
    cbn [espacios_simples] in *. rewrite Hs.
    destruct (N.eqb_spec c 32); [contradiction|]. reflexivity.
Qed.

Lemma espacios_simples_app a :
  forall b, espacios_simples (a ++ b) = true ->
            espacios_simples a = true /\ espacios_simples b = true.
Proof.
  induction a as [|x a IH]; intros b H; [split; [reflexivity|exact H]|].
  destruct a as [|y a].
  - cbn [app] in H. split; [reflexivity|].
    destruct b as [|z b]; [reflexivity|].
    cbn [espacios_simples] in H. apply andb_prop in H. now destruct H.
  - change ((x :: y :: a) ++ b) with (x :: (y :: a) ++ b) in H.
    cbn [espacios_simples app] in H. apply andb_prop in H.
    destruct H as [Hxy H]. destruct (IH b H) as [Ha Hb].
    split; [|exact Hb]. cbn [espacios_simples]. rewrite Hxy. exact Ha.
Qed.

Lemma sustituir_fijo ok repl s :
  Forall (fun c => ok c = false) s -> sustituir ok repl s = s.
Proof.
  induction 1 as [|c t Hc _ IH]; [reflexivity|].
  unfold sustituir in *. cbn [flat_map]. rewrite Hc. cbn [app].
  f_equal. exact IH.
Qed.

Lemma colapsar_fijo ok :
  ok 32%N = true ->
  forall s,
    Forall (fun c => c = 32%N \/ ok c = false) s ->
    espacios_simples s = true ->
    colapsar_aux ok [32%N] false s = s
    /\ (match s with c :: _ => c <> 32%N | [] => True end ->
        colapsar_aux ok [32%N] true s = s).
Proof.
  intros H32. induction s as [|c t IH]; intros Hf Hs; [split; auto|].
  inversion Hf as [|? ? Hc Ht]; subst.
  assert (Hst : espacios_simples t = true).
  { destruct t as [|b t]; [reflexivity|].
    cbn [espacios_simples] in Hs. apply andb_prop in Hs. now destruct Hs. }
  destruct (IH Ht Hst) as [IH1 IH2].
  cbn [colapsar_aux]. destruct Hc as [->|Hc].
  - rewrite H32. split; [|intros Hne; congruence].
    cbn [app]. f_equal. apply IH2.
    destruct t as [|b t]; [exact I|].
    cbn [espacios_simples] in Hs. apply andb_prop in Hs.
    destruct Hs as [Hs _]. rewrite N.eqb_refl in Hs. cbn [andb] in Hs.
    intros ->. discriminate.
  - rewrite Hc. split; [|intros _]; f_equal; exact IH1.
Qed.

Lemma limpiar_para_comparacion_limpio texto :
  limpio db (limpiar_para_comparacion db texto).
Proof.
  destruct (limpiar_para_comparacion_pasos texto) as (w & Hw & -> & _).
  set (y := sustituir (fun c => negb (isword db c || isspace db c)) [32%N]
              (map ascii_lower w)).
  set (z := colapsar_aux (isspace db) [32%N] false y).
  assert (Hy : Forall (fun c => c = 32%N
                               \/ (is_ascii c = true
                                   /\ ascii_isupper c = false
                                   /\ isword db c || isspace db c = true))
                      y).
  { unfold y, sustituir. apply Forall_flat_map. apply Forall_forall.
    intros c Hc. apply in_map_iff in Hc. destruct Hc as (c0 & <- & Hc0).
    rewrite forallb_forall in Hw. specialize (Hw _ Hc0).
    destruct (ascii_lower_min c0 Hw) as [H1 H2].
    destruct (negb (isword db (ascii_lower c0) || isspace db (ascii_lower c0)))
      eqn:E.
    - apply Forall_cons; [now left|apply Forall_nil].
    - apply Forall_cons; [|apply Forall_nil].
      right. apply negb_false_iff in E. auto. }
  assert (Hz : Forall (fun c => es_palabra_min c = true \/ c = 32%N) z).
  { eapply Forall_impl; [|apply colapsar_caracteres].
    intros c [->|[Hin Hs]]; [now right|].
    rewrite Forall_forall in Hy. destruct (Hy _ Hin) as [->|(H1 & H2 & H3)];
      [now right|].
    left. now apply palabra_min_de. }
  assert (Hsz : espacios_simples z = true).
  { now apply (colapsar_simples (isspace db) espacio_es_blanco y false). }
  destruct (strip_aparece db z) as (pre & post & Hpp).
  repeat split.
  - rewrite Hpp in Hz. apply Forall_app in Hz. destruct Hz as [_ Hz].
    apply Forall_app in Hz. now destruct Hz.
  - rewrite Hpp in Hsz. apply espacios_simples_app in Hsz.
    destruct Hsz as [_ Hsz]. apply espacios_simples_app in Hsz.
    now destruct Hsz.
  - apply strip_strip.
Qed.

Lemma limpio_fijo s : limpio db s -> limpiar_para_comparacion db s = s.
Proof.
  intros (Hf & Hs & Hst).
  assert (Ha : forallb is_ascii s = true).
  { apply forallb_forall. intros c Hc. rewrite Forall_forall in Hf.
    destruct (Hf _ Hc) as [H| ->]; [|reflexivity].
    now apply palabra_min_ascii in H. }
  destruct (limpiar_para_comparacion_pasos s) as (w & _ & -> & Hw).
  rewrite (Hw Ha).
  assert (E1 : map ascii_lower s = s).
  { rewrite <- (map_id s) at 2. apply map_ext_in. intros c Hc.
    rewrite Forall_forall in Hf.
    destruct (Hf _ Hc) as [H| ->]; [|reflexivity].
    apply ascii_lower_fijo. now apply palabra_min_ascii in H. }
  rewrite E1.
  rewrite sustituir_fijo.
  - destruct (@colapsar_fijo (isspace db) espacio_es_blanco s) as [E2 _];
      [|exact Hs|].
    + eapply Forall_impl; [|exact Hf]. intros c [H| ->]; [|now left].
      right. now apply palabra_min_clases in H.
    + rewrite E2. exact Hst.
  - eapply Forall_impl; [|exact Hf]. intros c [H| ->]; [|reflexivity].
    apply palabra_min_clases in H. destruct H as [H _]. now rewrite H.
Qed.

(** X18: the text for comparison is made of words of lower-case ASCII
    letters, digits and underscores with one blank between two words and
    no blank at either end: no upper case, no accent, no punctuation,
    as the function promises. *)
Theorem limpiar_para_comparacion_forma :
  forall texto, limpio db (limpiar_para_comparacion db texto).
Proof. intros texto. apply limpiar_para_comparacion_limpio. Qed.

(** X19: cleaning for comparison is idempotent: a text that was cleaned
    comes back unchanged. *)
Theorem limpiar_para_comparacion_idempotente :
  forall texto,
    limpiar_para_comparacion db (limpiar_para_comparacion db texto)
    = limpiar_para_comparacion db texto.
Proof.
  intros texto. apply limpio_fijo, limpiar_para_comparacion_limpio.
Qed.

Lemma ascii_upper_ascii c : is_ascii c = true -> is_ascii (ascii_upper c) = true.
Proof.
  unfold ascii_upper, ascii_islower, in_range, is_ascii.
  destruct ((97 <=? c)%N && (c <=? 122)%N) eqn:E; [|auto].
  apply andb_prop in E. destruct E as [E1 E2].
  apply N.leb_le in E1. apply N.leb_le in E2. intros _.
  apply N.ltb_lt. lia.
Qed.

Lemma ascii_lower_upper c : ascii_lower (ascii_upper c) = ascii_lower c.
Proof.
  unfold ascii_lower, ascii_upper, ascii_isupper, ascii_islower, in_range.
  destruct ((97 <=? c)%N && (c <=? 122)%N) eqn:E; [|reflexivity].
  apply andb_prop in E. destruct E as [E1 E2].
  apply N.leb_le in E1. apply N.leb_le in E2.
  replace ((65 <=? c - 32)%N && (c - 32 <=? 90)%N) with true
    by (symmetry; apply andb_true_intro; split; apply N.leb_le; lia).
  replace ((65 <=? c)%N && (c <=? 90)%N) with false
    by (symmetry; apply andb_false_intro2; apply N.leb_gt; lia).
  lia.
Qed.

Lemma ascii_lower_lower c : ascii_lower (ascii_lower c) = ascii_lower c.
Proof.
  unfold ascii_lower, ascii_isupper, in_range.
  destruct ((65 <=? c)%N && (c <=? 90)%N) eqn:E; [|now rewrite E].
  apply andb_prop in E. destruct E as [E1 E2].
  apply N.leb_le in E1. apply N.leb_le in E2.
  replace ((65 <=? c + 32)%N && (c + 32 <=? 90)%N) with false
    by (symmetry; apply andb_false_intro2; apply N.leb_gt; lia).
  reflexivity.
Qed.

Lemma limpiar_sin_mayusculas (f : N -> N) t :
  forallb is_ascii t = true ->
  (forall c, is_ascii c = true -> is_ascii (f c) = true) ->
  (forall c, ascii_lower (f c) = ascii_lower c) ->
  limpiar_para_comparacion db (map f t) = limpiar_para_comparacion db t.
Proof.
  intros Ha Hf Hl.
  assert (Ha' : forallb is_ascii (map f t) = true).
  { apply forallb_forall. intros c Hc. apply in_map_iff in Hc.
    destruct Hc as (c0 & <- & Hc0). apply Hf.
    rewrite forallb_forall in Ha. now apply Ha. }
  destruct (limpiar_para_comparacion_pasos (map f t)) as (w1 & _ & -> & H1).
  destruct (limpiar_para_comparacion_pasos t) as (w2 & _ & -> & H2).
  rewrite (H1 Ha'), (H2 Ha), map_map.
  do 3 f_equal. apply map_ext. exact Hl.
Qed.

(** X20: the detection of skills does not depend on the case of the
    letters of an ASCII text: the text in upper case and the text in
    lower case give the skills of the text itself. *)
Theorem extraer_skills_sin_mayusculas :
  forall texto,
    forallb is_ascii texto = true ->
    extraer_skills_del_texto db (upper db texto)
    = extraer_skills_del_texto db texto
    /\ extraer_skills_del_texto db (lower db texto)
       = extraer_skills_del_texto db texto.
Proof.
  intros texto Ha. unfold extraer_skills_del_texto, upper, lower.
  rewrite Ha. cbv zeta.
  rewrite (limpiar_sin_mayusculas ascii_upper texto Ha ascii_upper_ascii
             ascii_lower_upper).
  rewrite (limpiar_sin_mayusculas ascii_lower texto Ha
             (fun c H => proj1 (ascii_lower_min c H)) ascii_lower_lower).
  split; reflexivity.
Qed.

End MasLimpiar.

Lemma extraer_skills_sin_mayusculas_witness :
  extraer_skills_del_texto ucd_basico (upper ucd_basico (u "Manejo de Excel y SAP"))
  = extraer_skills_del_texto ucd_basico (u "Manejo de Excel y SAP")
  /\ extraer_skills_del_texto ucd_basico (lower ucd_basico (u "Manejo de Excel y SAP"))
     = extraer_skills_del_texto ucd_basico (u "Manejo de Excel y SAP").
Proof.
  apply (@extraer_skills_sin_mayusculas ucd_basico (u "Manejo de Excel y SAP")).
  reflexivity.
Defined.

(** *** limpiar.py: the cleaned text *)

Section MasLimpieza.

Variable db : UCD.
Variable nfc_ext : pystr -> pystr.

Lemma strip_fijo_partes l :
  strip db l = l -> lstrip db l = l /\ lstrip db (rev l) = rev l.
Proof.
  intros H.
  destruct (lstrip_partes db l) as (w1 & H1 & _).
  destruct (rstrip_partes db (lstrip db l)) as (w2 & H2 & _).
  fold (strip db l) in H2. rewrite H in H2.
  assert (Hl : (length l = length w1 + (length l + length w2))%nat).
  { rewrite H1 at 1. rewrite length_app. rewrite H2 at 1.
    now rewrite length_app. }
  assert (w1 = []) by (destruct w1; [reflexivity|simpl in Hl; lia]).
  assert (w2 = []) by (destruct w2; [reflexivity|simpl in Hl; lia]).
  subst w1 w2. rewrite app_nil_r in H2. simpl in H1.
  split; [congruence|].
  unfold strip in H. rewrite H2 in H. unfold rstrip in H.
  apply (f_equal (@rev N)) in H. now rewrite rev_involutive in H.
Qed.

Lemma recortada_sin_prefijo la lb :
  strip db (la ++ lb) = la ++ lb ->
  forallb (isspace db) la = true -> la = [].
Proof.
  intros H Hw. apply strip_fijo_partes in H. destruct H as [H _].
  destruct la as [|x la]; [reflexivity|]. exfalso.
  pose proof (lstrip_cabeza db ((x :: la) ++ lb)) as Hc.
  rewrite H in Hc. simpl in Hc, Hw. apply andb_prop in Hw. destruct Hw.
  congruence.
Qed.

Lemma recortada_sin_sufijo la lb :
  strip db (la ++ lb) = la ++ lb ->
  forallb (isspace db) lb = true -> lb = [].
Proof.
  intros H Hw. apply strip_fijo_partes in H. destruct H as [_ H].
  rewrite rev_app_distr in H.
  destruct (rev lb) as [|x r] eqn:E.
  - apply (f_equal (@rev N)) in E. now rewrite rev_involutive in E.
  - exfalso. pose proof (lstrip_cabeza db ((x :: r) ++ rev la)) as Hc.
    rewrite H in Hc. simpl in Hc.
    assert (Hx : In x lb) by (apply in_rev; rewrite E; now left).
    rewrite forallb_forall in Hw. specialize (Hw _ Hx). congruence.
Qed.

Lemma blancos_de_linea w l :
  forallb (isspace db) w = true -> In l (split_on 10 w) ->
  forallb (isspace db) l = true.
Proof.
  intros Hw Hl. apply forallb_forall. intros c Hc.
  rewrite forallb_forall in Hw. apply Hw.
  now apply (split_on_chars 10 w l Hl).
Qed.

(** The lines of a stripped text, when every line was stripped already:
    the lines of the text, some at the two ends left out. *)
Lemma lineas_de_recortado s :
  Forall (fun l => strip db l = l) (split_on 10 s) ->
  exists a b, split_on 10 s = a ++ split_on 10 (strip db s) ++ b.
Proof.
  intros H.
  destruct (lstrip_partes db s) as (w1 & Hs & Hw1).
  destruct (rstrip_partes db (lstrip db s)) as (w2 & Hm & Hw2).
  fold (strip db s) in Hm.
  destruct (split_on_app 10 w1 (lstrip db s))
    as (ia & la & lb & rb & Ha & Hb & Hab).
  rewrite <- Hs in Hab.
  assert (Hla : la = []).
  { rewrite Hab in H. apply Forall_app in H. destruct H as [_ H].
    inversion H as [|? ? Hl _]; subst.
    apply (recortada_sin_prefijo _ _ Hl).
    apply (blancos_de_linea w1); [exact Hw1|].
    rewrite Ha. apply in_or_app. right. now left. }
  subst la. cbn [app] in Hab.
  assert (Hab2 : split_on 10 s = ia ++ split_on 10 (lstrip db s))
    by (rewrite Hb; exact Hab).
  clear Hab Hb.
  destruct (split_on_app 10 (strip db s) w2)
    as (ia' & la' & lb' & rb' & Ha' & Hb' & Hab').
  rewrite <- Hm in Hab'.
  assert (Hlb : lb' = []).
  { rewrite Hab2, Hab' in H.
    apply Forall_app in H. destruct H as [_ H].
    apply Forall_app in H. destruct H as [_ H].
    inversion H as [|? ? Hl _]; subst.
    apply (recortada_sin_sufijo _ _ Hl).
    apply (blancos_de_linea w2); [exact Hw2|].
    rewrite Hb'. now left. }
  subst lb'. rewrite app_nil_r in Hab'.
  exists ia, rb'. rewrite Hab2, Hab', Ha'.
  now rewrite <- !app_assoc.
Qed.

Lemma vacias_simples_app a :
  forall b, vacias_simples (a ++ b) = true ->
            vacias_simples a = true /\ vacias_simples b = true.
Proof.
  induction a as [|x a IH]; intros b H; [split; [reflexivity|exact H]|].
  destruct a as [|y a].
  - cbn [app] in H. split; [reflexivity|].
    destruct b as [|z b]; [reflexivity|].
    cbn [vacias_simples] in H. apply andb_prop in H. now destruct H.
  - change ((x :: y :: a) ++ b) with (x :: (y :: a) ++ b) in H.
    cbn [vacias_simples app] in H. apply andb_prop in H.
    destruct H as [Hxy H]. destruct (IH b H) as [Ha Hb].
    split; [|exact Hb]. cbn [vacias_simples]. rewrite Hxy. exact Ha.
Qed.

Lemma quitar_vacias_simples ls :
  forall b,
    vacias_simples (quitar_vacias_repetidas b ls) = true
    /\ (b = true ->
        match quitar_vacias_repetidas b ls with
        | l :: _ => str_eqb l [] = false
        | [] => True
        end)
    /\ (forall l, In l (quitar_vacias_repetidas b ls) -> In l ls).
Proof.
  induction ls as [|l t IH]; intros b;
    [split; [reflexivity|split; [intros _; exact I|intros l []]]|].
  cbn [quitar_vacias_repetidas].
  destruct (IH true) as (Ht1 & Ht2 & Ht3). specialize (Ht2 eq_refl).
  destruct (IH false) as (Hf1 & _ & Hf3).
  destruct (str_eqb l []) eqn:E.
  - destruct b; cbn [negb].
    + split; [exact Ht1|]. split; [intros _; exact Ht2|].
      intros x Hx. right. now apply Ht3.
    + split; [|split; [discriminate|]].
      * destruct (quitar_vacias_repetidas true t) as [|x r]; [reflexivity|].
        cbn [vacias_simples] in *. rewrite Ht1, Ht2, andb_false_r.
        reflexivity.
      * intros x [<-|Hx]; [now left|right; now apply Ht3].
  - split; [|split; [intros _; exact E|]].
    + destruct (quitar_vacias_repetidas false t) as [|x r]; [reflexivity|].
      cbn [vacias_simples] in *. rewrite Hf1, E. reflexivity.
    + intros x [<-|Hx]; [now left|right; now apply Hf3].
Qed.

Lemma quitar_vacias_no_vacio l t :
  quitar_vacias_repetidas false (l :: t) <> [].
Proof.
  cbn [quitar_vacias_repetidas]. destruct (str_eqb l []); discriminate.
Qed.

(** X21: the cleaned text is stripped, every one of its lines is
    stripped, and no empty line of it stands next to an empty line. *)
Theorem limpiar_texto_lineas :
  forall texto,
    let r := limpiar_texto db nfc_ext texto in
    strip db r = r
    /\ Forall (fun l => strip db l = l) (split_on 10 r)
    /\ vacias_simples (split_on 10 r) = true.
Proof.
  intros texto. cbv zeta. unfold limpiar_texto.
  set (t2 := re_sub db (re_compile false PAT_BLANCOS) (u " ") _).
  set (ls := quitar_vacias_repetidas false (map (strip db) (split_on 10 t2))).
  split; [apply strip_strip|].
  destruct (quitar_vacias_simples (map (strip db) (split_on 10 t2)) false)
    as (Hs & _ & Hin). fold ls in Hs, Hin.
  assert (Hls : Forall (fun l => strip db l = l /\ ~ In 10%N l) ls).
  { apply Forall_forall. intros l Hl. apply Hin in Hl.
    apply in_map_iff in Hl. destruct Hl as (l0 & <- & Hl0).
    split; [apply strip_strip|]. intros H10.
    destruct (strip_aparece db l0) as (pre & post & E).
    apply (split_on_sin_sep 10 t2 l0 Hl0). rewrite E.
    apply in_or_app. right. apply in_or_app. now left. }
  assert (Hne : ls <> []).
  { unfold ls. destruct (split_on_cons 10 t2) as (l & t & ->).
    apply quitar_vacias_no_vacio. }
  assert (Hlin : split_on 10 (join NL ls) = ls).
  { apply split_join; [exact Hne|].
    eapply Forall_impl; [|exact Hls]. now intros l [_ H]. }
  destruct (lineas_de_recortado (join NL ls)) as (a & b & E).
  { rewrite Hlin. eapply Forall_impl; [|exact Hls]. now intros l [H _]. }
  rewrite Hlin in E. split.
  - rewrite E in Hls. apply Forall_app in Hls. destruct Hls as [_ Hls].
    apply Forall_app in Hls. destruct Hls as [Hls _].
    eapply Forall_impl; [|exact Hls]. now intros l [H _].
  - rewrite E in Hs. apply vacias_simples_app in Hs. destruct Hs as [_ Hs].
    apply vacias_simples_app in Hs. now destruct Hs.
Qed.

End MasLimpieza.

(** *** parser_funcion_publica.py: the sections of the form *)

Section MasFormulario.

Variable db : UCD.







End MasFormulario.

(** *** parser_funcion_publica.py: the jobs of the form *)

Section MasTrabajosFormulario.

Variable db : UCD.
Variable ahora : Z * Z.

Lemma denota_anio p s g p' s' g' :
  denota db (re_compile false PAT_ANIO) p s g p' s' g' ->
  exists a, s = a ++ s' /\ anio_de_siglo db a /\ g' = (1%nat, a) :: g.
Proof.
  intros H.
  match type of H with
  | denota _ ?r _ _ _ _ _ _ =>
      let r' := eval vm_compute in r in change r with r' in H
  end.
  destruct H as (p1 & s1 & g1 & (_ & _ & Hs1 & Hg1)
                 & p2 & s2 & g2 & (ga & Hsiglo & Hg2)
                 & (_ & _ & Hs2 & Hg')).
  subst s1 g1 s2 g'. rewrite Hg2. clear Hg2.
  assert (Hw : exists a, s = a ++ s' /\ anio_de_siglo db a /\ ga = g).
  { destruct Hsiglo as [H|H];
      destruct H as (q1 & t1 & h1 & (c1 & -> & _ & Hc1 & ->)
                     & q2 & t2 & h2 & (c2 & -> & _ & Hc2 & ->) & Hd);
      apply (@denota_digitos db 2) in Hd;
      destruct Hd as (w & -> & Hw & ->);
      destruct (digitos_2 Hw) as (x & y & -> & Hx & Hy);
      apply N.eqb_eq in Hc1; apply N.eqb_eq in Hc2; subst c1 c2;
      eexists (_ :: _ :: [x; y]); (split; [reflexivity|]);
      (split; [|reflexivity]); exists x, y; auto. }
  destruct Hw as (a & -> & Ha & ->).
  exists a. rewrite firstn_consumed. auto.
Qed.

Lemma re_search_anio t m :
  re_search db (re_compile false PAT_ANIO) t = Some m ->
  anio_de_siglo db (m_text m).
Proof.
  intros E. apply re_search_sound in E.
  destruct E as (pre & rest & p0 & p' & _ & _ & HD).
  apply denota_anio in HD. destruct HD as (a & Hw & Ha & _).
  apply app_inv_tail in Hw. now rewrite Hw.
Qed.

Lemma anio_de_siglo_forma a : anio_de_siglo db a -> forma_anio db a.
Proof.
  intros (x & y & [->| ->] & Hx & Hy); (split; [reflexivity|]);
    repeat (apply Forall_cons; [first [exact Hx|exact Hy|reflexivity]|]);
    apply Forall_nil.
Qed.

Lemma anios_forma linea :
  Forall (forma_anio db) (re_findall1 db (re_compile false PAT_ANIO) linea).
Proof.
  unfold re_findall1. apply Forall_forall. intros f Hf.
  apply in_map_iff in Hf. destruct Hf as (m & <- & Hm).
  apply re_finditer_sound in Hm. destruct Hm as (p0 & p' & rest & HD).
  apply denota_anio in HD. destruct HD as (a & _ & Ha & Hg).
  unfold group. rewrite Hg. cbn [lookup_cap Nat.eqb].
  now apply anio_de_siglo_forma.
Qed.

Lemma rango_digito lo hi x :
  class_mem db false [CRange lo hi] x = true -> in_range lo hi x = true.
Proof. unfold class_mem. simpl. now rewrite orb_false_r. Qed.

Lemma zfill_un_digito x :
  in_range 49 57 x = true -> zfill 2 [x] = [48%N; x].
Proof.
  unfold in_range, zfill. cbn [length Nat.leb Nat.sub repeat app].
  destruct (N.eqb_spec x 43); [subst; discriminate|].
  destruct (N.eqb_spec x 45); [subst; discriminate|]. reflexivity.
Qed.

Lemma denota_mes_numero p s g p' s' g' :
  denota db (re_compile false PAT_MES_NUMERO) p s g p' s' g' ->
  exists mm, s = mm ++ s' /\ mes_dos_digitos (zfill 2 mm).
Proof.
  intros H.
  match type of H with
  | denota _ ?r _ _ _ _ _ _ =>
      let r' := eval vm_compute in r in change r with r' in H
  end.
  destruct H as (p1 & s1 & g1 & (_ & _ & Hs1 & _)
                 & p2 & s2 & g2 & (ga & Halt & _)
                 & (_ & _ & Hs2 & _)).
  subst s1 s2.
  destruct Halt as [H|H].
  - destruct H as (q1 & t1 & h1 & (n & _ & Hn & Hit)
                   & (x & Ht1 & _ & Hx & _)).
    apply rango_digito in Hx. subst t1.
    destruct n as [|[|n]]; [| |lia].
    + destruct Hit as (_ & Hs0 & _). subst s. exists [x].
      split; [reflexivity|].
      rewrite (zfill_un_digito _ Hx). left. exists x. auto.
    + destruct Hit as (q2 & t2 & h2 & (c & Hsc & _ & Hc & _)
                       & (_ & Ht2 & _)).
      apply N.eqb_eq in Hc. subst c s t2. exists [48%N; x].
      split; [reflexivity|]. left. exists x. auto.
  - destruct H as (q1 & t1 & h1 & (c & Hsc & _ & Hc & _)
                   & (y & Ht1 & _ & Hy & _)).
    apply N.eqb_eq in Hc. subst c s t1. apply rango_digito in Hy.
    exists [49%N; y]. split; [reflexivity|]. right. exists y. auto.
Qed.

Lemma re_search_mes t m :
  re_search db (re_compile false PAT_MES_NUMERO) t = Some m ->
  mes_dos_digitos (zfill 2 (m_text m)).
Proof.
  intros E. apply re_search_sound in E.
  destruct E as (pre & rest & p0 & p' & _ & _ & HD).
  apply denota_mes_numero in HD. destruct HD as (mm & Hw & Hm).
  apply app_inv_tail in Hw. now rewrite Hw.
Qed.

Lemma fecha_de_etiqueta_forma linea siguiente defecto f :
  mes_dos_digitos defecto ->
  fecha_de_etiqueta db linea siguiente defecto = Some f ->
  fecha_de_formulario db f.
Proof.
  intros Hdef. unfold fecha_de_etiqueta. cbv zeta.
  set (ra := re_search db (re_compile false PAT_ANIO)).
  set (rm := re_search db (re_compile false PAT_MES_NUMERO)).
  assert (Hgen : forall t1 t2 a,
             ra t1 = Some a ->
             fecha_de_formulario db
               (fecha_ym (m_text a)
                  match rm t2 with
                  | Some mm => zfill 2 (m_text mm)
                  | None => defecto
                  end)).
  { intros t1 t2 a Ha. apply re_search_anio in Ha.
    eexists _, _. split; [reflexivity|]. split; [exact Ha|].
    destruct (rm t2) as [mm|] eqn:Em; [|exact Hdef].
    now apply re_search_mes in Em. }
  destruct (ra linea) as [a|] eqn:Ea.
  - cbn [fst snd]. intros H. inversion H; subst.
    exact (Hgen linea linea a Ea).
  - destruct siguiente as [sg|]; cbn [fst snd]; [|discriminate].
    destruct (ra sg) as [a|] eqn:Eg; [|discriminate].
    intros H. inversion H; subst. exact (Hgen sg sg a Eg).
Qed.

Lemma mes_01 : mes_dos_digitos (u "01").
Proof. left. exists 49%N. auto. Qed.

Lemma mes_12 : mes_dos_digitos (u "12").
Proof. right. exists 50%N. auto. Qed.

Lemma fecha_de_formulario_no_vacia f :
  fecha_de_formulario db f -> truthy f = true /\ f <> u "presente".
Proof.
  intros (a & mm & -> & (x & y & Ha & _) & Hm).
  destruct Ha as [->| ->]; split; try reflexivity; discriminate.
Qed.

Lemma normalizar_etiquetado t :
  fechas_de_formulario db t ->
  truthy_opt (empresa t) || truthy_opt (cargo t) = true ->
  responsabilidades t = [] ->
  exists t', _normalizar_trabajo_formulario db ahora t = Ok t'
             /\ trabajo_etiquetado db ahora t'.
Proof.
  intros [Hi Hf] Hec Hr. unfold _normalizar_trabajo_formulario. cbv zeta.
  assert (Hcierre : forall d,
             match fecha_inicio t, fecha_fin t with
             | Some i, Some f =>
                 if str_eqb f (u "presente") then d = None
                 else calcular_duracion_meses db ahora (Some i) (Some f) = Ok d
             | _, _ => d = None
             end ->
             trabajo_etiquetado db ahora
               {| empresa := empresa t; cargo := cargo t;
                  fecha_inicio := fecha_inicio t; fecha_fin := fecha_fin t;
                  duracion_meses := d;
                  responsabilidades := responsabilidades t |}).
  { intros d Hd. unfold trabajo_etiquetado, fechas_de_formulario.
    cbn [fecha_inicio fecha_fin empresa cargo responsabilidades
         duracion_meses].
    split; [split; assumption|]. split; [exact Hec|]. split; [exact Hr|].
    exact Hd. }
  destruct (fecha_inicio t) as [i|] eqn:Ei;
    [|cbn [truthy_opt andb bind]; eexists; split; [reflexivity|];
      now apply Hcierre].
  destruct (fecha_fin t) as [f|] eqn:Ef;
    [|cbn [truthy_opt andb bind]; rewrite andb_false_r; cbn [andb bind];
      eexists; split; [reflexivity|]; now apply Hcierre].
  destruct (fecha_de_formulario_no_vacia (Hi i eq_refl)) as [Hti _].
  assert (Htf : truthy f = true).
  { destruct (Hf f eq_refl) as [->|H]; [reflexivity|].
    now apply fecha_de_formulario_no_vacia in H. }
  cbn [truthy_opt distinto_de]. rewrite Hti, Htf. cbn [andb].
  destruct (str_eqb f (u "presente")) eqn:Ep; cbn [negb bind].
  - eexists. split; [reflexivity|]. apply Hcierre. reflexivity.
  - destruct (calcular_duracion_meses_total db ahora (Some i) (Some f))
      as (d & Hd & _).
    rewrite Hd. cbn [try_except bind].
    eexists. split; [reflexivity|]. apply Hcierre. exact Hd.
Qed.

Lemma anio_en_rango x y c1 c2 :
  decimales_bien db ->
  isdecimal db x = true -> isdecimal db y = true ->
  (c1 = 50%N /\ c2 = 48%N) \/ (c1 = 49%N /\ c2 = 57%N) ->
  ((1 <=? int_of_digits db [c1; c2; x; y])%Z
   && (int_of_digits db [c1; c2; x; y] <=? 9999)%Z) = true.
Proof.
  intros Hdb Hx Hy Hc.
  pose proof (Hdb x Hx). pose proof (Hdb y Hy).
  apply andb_true_intro. unfold int_of_digits. cbn [fold_left].
  destruct Hc as [[-> ->]|[-> ->]];
    rewrite ?(@todecimal_ascii db 50), ?(@todecimal_ascii db 48),
            ?(@todecimal_ascii db 49), ?(@todecimal_ascii db 57)
      by reflexivity;
    split; apply Z.leb_le; lia.
Qed.

(** A date of the form is read by [strptime]. *)
Lemma strptime_de_formulario f :
  decimales_bien db -> fecha_de_formulario db f ->
  exists ym, strptime_ym db (Some f) = Ok ym.
Proof.
  intros Hdb (a & mm & -> & (x & y & Ha & Hx & Hy) & Hm).
  assert (H50 : isdecimal db 50 = true) by reflexivity.
  assert (H48 : isdecimal db 48 = true) by reflexivity.
  assert (H49 : isdecimal db 49 = true) by reflexivity.
  assert (H57 : isdecimal db 57 = true) by reflexivity.
  destruct Ha as [->| ->];
    destruct Hm as [(z & -> & Hz)|(z & -> & Hz)];
    unfold strptime_ym, re_match, match_here;
    rewrite PAT_STRPTIME_YM_compila; cbv zeta;
    cbn -[in_range isdecimal int_of_digits Z.leb];
    unfold class_mem;
    cbn -[in_range isdecimal int_of_digits Z.leb];
    rewrite ?H50, ?H48, ?H49, ?H57, ?Hx, ?Hy;
    cbn -[in_range isdecimal int_of_digits Z.leb];
    rewrite ?Hz;
    cbn -[in_range isdecimal int_of_digits Z.leb];
    unfold group; cbn -[in_range isdecimal int_of_digits Z.leb];
    rewrite (@anio_en_rango x y _ _ Hdb Hx Hy) by (auto; tauto);
    eexists; reflexivity.
Qed.

Lemma fechas_vacio : fechas_de_formulario db trabajo_vacio.
Proof. split; intros f H; discriminate. Qed.

Lemma fechas_con_inicio t f :
  fechas_de_formulario db t -> fecha_de_formulario db f ->
  fechas_de_formulario db (con_fecha_inicio t (Some f)).
Proof.
  intros [Hi Hf] H. split; cbn [fecha_inicio fecha_fin con_fecha_inicio].
  - intros g E. inversion E; subst. exact H.
  - exact Hf.
Qed.

Lemma fechas_con_fin t f :
  fechas_de_formulario db t ->
  f = u "presente" \/ fecha_de_formulario db f ->
  fechas_de_formulario db (con_fecha_fin t (Some f)).
Proof.
  intros [Hi Hf] H. split; cbn [fecha_inicio fecha_fin con_fecha_fin].
  - exact Hi.
  - intros g E. inversion E; subst. exact H.
Qed.

Lemma guardar_trabajo_bien trabajos t :
  Forall (trabajo_etiquetado db ahora) trabajos ->
  fechas_de_formulario db t -> responsabilidades t = [] ->
  exists l, guardar_trabajo db ahora trabajos t = Ok l
            /\ Forall (trabajo_etiquetado db ahora) l.
Proof.
  intros Hl Hf Hr. unfold guardar_trabajo.
  destruct (truthy_opt (empresa t) || truthy_opt (cargo t)) eqn:E.
  - destruct (normalizar_etiquetado Hf E Hr) as (t' & Ht & He).
    rewrite Ht. cbn [bind]. eexists. split; [reflexivity|].
    apply Forall_app. split; [exact Hl|].
    apply Forall_cons; [exact He|apply Forall_nil].
  - eexists. split; [reflexivity|exact Hl].
Qed.

(** What one round of the labelled pass keeps: the jobs closed so far are
    jobs of the labelled pass, the open one has the dates of the form and
    no responsibilities. *)
Lemma paso_experiencia_formulario_bien st linea sg :
  Forall (trabajo_etiquetado db ahora) (fst st) ->
  fechas_de_formulario db (snd st) -> responsabilidades (snd st) = [] ->
  exists r, paso_experiencia_formulario db ahora st linea sg = Ok r
            /\ Forall (trabajo_etiquetado db ahora) (fst (fst r))
            /\ fechas_de_formulario db (snd (fst r))
            /\ responsabilidades (snd (fst r)) = [].
Proof.
  intros Hl Hf Hr. unfold paso_experiencia_formulario. cbv zeta.
  destruct (tiene_etiqueta db (upper db (strip db linea)) ETIQUETAS_ENTIDAD).
  { destruct (guardar_trabajo_bien Hl Hf Hr) as (l & El & Hl').
    rewrite El. cbn [bind].
    destruct sg; eexists; (split; [reflexivity|]); cbn [fst snd];
      (split; [exact Hl'|]); (split; [exact fechas_vacio|reflexivity]). }
  destruct (tiene_etiqueta db (upper db (strip db linea)) ETIQUETAS_CARGO).
  { destruct sg; eexists; (split; [reflexivity|]); cbn [fst snd];
      (split; [exact Hl|]); (split; [exact Hf|exact Hr]). }
  destruct (tiene_etiqueta db (upper db (strip db linea)) ETIQUETAS_INICIO).
  { destruct (fecha_de_etiqueta db (upper db (strip db linea)) sg (u "01"))
      as [f|] eqn:Ef;
      eexists; (split; [reflexivity|]); cbn [fst snd];
      (split; [exact Hl|]); (split; [|exact Hr]); [|exact Hf].
    apply fechas_con_inicio; [exact Hf|].
    exact (fecha_de_etiqueta_forma _ _ mes_01 Ef). }
  destruct (tiene_etiqueta db (upper db (strip db linea)) ETIQUETAS_RETIRO).
  { destruct (fecha_de_etiqueta db (upper db (strip db linea)) sg (u "12"))
      as [f|] eqn:Ef.
    - eexists; (split; [reflexivity|]); cbn [fst snd];
        (split; [exact Hl|]); (split; [|exact Hr]).
      apply fechas_con_fin; [exact Hf|]. right.
      exact (fecha_de_etiqueta_forma _ _ mes_12 Ef).
    - caso_si; eexists; (split; [reflexivity|]); cbn [fst snd];
        (split; [exact Hl|]); (split; [|exact Hr]); [|exact Hf].
      apply fechas_con_fin; [exact Hf|]. now left. }
  eexists. split; [reflexivity|]. cbn [fst snd]. auto.
Qed.

Lemma recorrer_experiencia_formulario_bien lineas :
  forall st saltar,
    Forall (trabajo_etiquetado db ahora) (fst st) ->
    fechas_de_formulario db (snd st) -> responsabilidades (snd st) = [] ->
    exists st', recorrer_experiencia_formulario db ahora st lineas saltar
                = Ok st'
                /\ Forall (trabajo_etiquetado db ahora) (fst st')
                /\ fechas_de_formulario db (snd st')
                /\ responsabilidades (snd st') = [].
Proof.
  induction lineas as [|l ls IH]; intros st saltar Hl Hf Hr;
    cbn [recorrer_experiencia_formulario].
  - eexists. split; [reflexivity|]. auto.
  - destruct saltar; [now apply IH|].
    destruct (@paso_experiencia_formulario_bien st l (hd_error ls) Hl Hf Hr)
      as (r & Er & H1 & H2 & H3).
    rewrite Er. cbn [bind]. now apply IH.
Qed.

(** What one round of the fallback pass keeps. *)
Lemma paso_heuristica_bien st linea :
  Forall (trabajo_heuristico db) (fst st) ->
  (forall t, snd st = Some t -> trabajo_heuristico db t) ->
  exists st', paso_heuristica db st linea = Ok st'
              /\ Forall (trabajo_heuristico db) (fst st')
              /\ (forall t, snd st' = Some t -> trabajo_heuristico db t).
Proof.
  intros Hl Ht. unfold paso_heuristica. cbv zeta.
  destruct (negb (truthy (strip db linea)));
    [eexists; split; [reflexivity|]; auto|].
  pose proof (anios_forma (strip db linea)) as Ha.
  destruct (str_isupper db (strip db linea)
            && ((5 <? length (strip db linea))%nat
                && (length (strip db linea) <? 80)%nat)
            && negb (existsb (fun k => contains k (strip db linea))
                       PALABRAS_FORMULARIO)) eqn:Ee.
  - apply andb_prop in Ee. destruct Ee as [Ee _].
    apply andb_prop in Ee. destruct Ee as [Eu El].
    apply andb_prop in El. destruct El as [E5 E80].
    apply Nat.ltb_lt in E5. apply Nat.ltb_lt in E80.
    assert (Hl' : Forall (trabajo_heuristico db)
                    match snd st with
                    | Some t => fst st ++ [t]
                    | None => fst st
                    end).
    { destruct (snd st) as [t|] eqn:Es; [|exact Hl].
      apply Forall_app. split; [exact Hl|].
      apply Forall_cons; [now apply Ht|apply Forall_nil]. }
    assert (Hn : forall ini fin,
               (forall f, ini = Some f -> forma_anio db f) ->
               (forall f, fin = Some f -> forma_anio db f) ->
               trabajo_heuristico db
                 (nuevo_trabajo (Some (strip db linea)) None ini fin)).
    { intros ini fin Hi Hf. unfold trabajo_heuristico, nuevo_trabajo.
      cbn [empresa cargo duracion_meses responsabilidades fecha_inicio
           fecha_fin].
      split; [eexists; split; [reflexivity|]; split; [exact Eu|lia]|].
      repeat (split; [reflexivity|]). split; assumption. }
    destruct (re_findall1 db (re_compile false PAT_ANIO) (strip db linea))
      as [|a0 [|a1 r]];
      cbn [fecha_de_inicio fecha_de_fin truthy py_index nth_error bind
           length Nat.ltb Nat.leb presente_si];
      eexists; (split; [reflexivity|]); cbn [fst snd];
      (split; [exact Hl'|]); intros t E; inversion E; subst t;
      apply Hn; intros f Ef; inversion Ef; subst f.
    + now inversion Ha.
    + now inversion Ha.
    + inversion Ha as [|? ? _ Ha1]. now inversion Ha1.
  - destruct (snd st) as [t|] eqn:Es;
      [|eexists; split; [reflexivity|]; split; [exact Hl|];
        rewrite Es; discriminate].
    pose proof (Ht t eq_refl) as (He & Hc & Hd & Hr & Hi & Hf).
    destruct (re_findall1 db (re_compile false PAT_ANIO) (strip db linea))
      as [|a0 [|a1 r]];
      cbn [truthy andb];
      try (eexists; split; [reflexivity|]; split; [exact Hl|];
           rewrite Es; exact Ht);
      (destruct (truthy_opt (fecha_inicio t)); cbn [negb];
       [eexists; split; [reflexivity|]; split; [exact Hl|];
        rewrite Es; exact Ht|]);
      cbn [py_index nth_error bind length Nat.ltb Nat.leb];
      eexists; (split; [reflexivity|]); cbn [fst snd];
      (split; [exact Hl|]); intros t' E; inversion E; subst t';
      unfold trabajo_heuristico;
      cbn [empresa cargo duracion_meses responsabilidades fecha_inicio
           fecha_fin con_fecha_inicio con_fecha_fin];
      (split; [exact He|]); (split; [exact Hc|]); (split; [exact Hd|]);
      (split; [exact Hr|]).
    + split; [|exact Hf]. intros f Ef. inversion Ef; subst f.
      now inversion Ha.
    + split; intros f Ef; inversion Ef; subst f.
      * now inversion Ha.
      * inversion Ha as [|? ? _ Ha1]. now inversion Ha1.
Qed.

Lemma recorrer_heuristica_bien lineas :
  forall st,
    Forall (trabajo_heuristico db) (fst st) ->
    (forall t, snd st = Some t -> trabajo_heuristico db t) ->
    exists st', recorrer_heuristica db st lineas = Ok st'
                /\ Forall (trabajo_heuristico db) (fst st')
                /\ (forall t, snd st' = Some t -> trabajo_heuristico db t).
Proof.
  induction lineas as [|l ls IH]; intros st Hl Ht; cbn [recorrer_heuristica].
  - eexists. split; [reflexivity|]. auto.
  - destruct (@paso_heuristica_bien st l Hl Ht) as (st1 & E1 & H1 & H2).
    rewrite E1. cbn [bind]. now apply IH.
Qed.

Lemma extraer_experiencia_heuristica_bien lineas :
  exists l, _extraer_experiencia_heuristica_formulario db lineas = Ok l
            /\ Forall (trabajo_heuristico db) l.
Proof.
  unfold _extraer_experiencia_heuristica_formulario.
  destruct (@recorrer_heuristica_bien lineas ([], None))
    as (st & E & H1 & H2); [apply Forall_nil|discriminate|].
  rewrite E. cbn [bind]. eexists. split; [reflexivity|].
  destruct (snd st) as [t|] eqn:Es; [|exact H1].
  apply Forall_app. split; [exact H1|].
  apply Forall_cons; [now apply H2|apply Forall_nil].
Qed.

Lemma extraer_experiencia_formulario_bien lineas :
  exists l, _extraer_experiencia_formulario db ahora lineas = Ok l
            /\ ((l <> [] /\ Forall (trabajo_etiquetado db ahora) l)
                \/ Forall (trabajo_heuristico db) l).
Proof.
  unfold _extraer_experiencia_formulario.
  destruct (@recorrer_experiencia_formulario_bien lineas
              ([], trabajo_vacio) false)
    as (st & E & H1 & H2 & H3);
    [apply Forall_nil|exact fechas_vacio|reflexivity|].
  rewrite E. cbn [bind].
  destruct (guardar_trabajo_bien H1 H2 H3) as (l & El & Hl).
  rewrite El. cbn [bind].
  destruct l as [|t l]; cbn [truthy negb].
  - destruct (extraer_experiencia_heuristica_bien lineas) as (h & Eh & Hh).
    exists h. split; [exact Eh|]. now right.
  - eexists. split; [reflexivity|]. left. split; [discriminate|exact Hl].
Qed.

(** X23: the experience of the official form is read without an error.
    When a label has given a job, every job returned has a company or a
    position, no responsibilities, a start that is a year 19xx or 20xx, a
    hyphen and a month 01 to 12, and an end of that form or the word
    "presente"; its duration is the one [calcular_duracion_meses] gives
    when both dates are there and the end is not "presente", and none
    otherwise.  When no label has given a job, the jobs are those of the
    fallback pass: a company in upper case of 6 to 79 characters, no
    position, no duration, and bare years for dates. *)
Theorem extraer_experiencia_formulario_trabajos :
  forall lineas,
    exists l,
      _extraer_experiencia_formulario db ahora lineas = Ok l
      /\ ((l <> [] /\ Forall (trabajo_etiquetado db ahora) l)
          \/ Forall (trabajo_heuristico db) l).
Proof. exact extraer_experiencia_formulario_bien. Qed.

Lemma forma_anio_no_formulario f :
  forma_anio db f -> ~ fecha_de_formulario db f.
Proof.
  intros [Hl _] (a & mm & -> & (x & y & Ha & _) & Hm).
  destruct Ha as [->| ->]; simpl in Hl; lia.
Qed.

Lemma formulario_no_presente f :
  fecha_de_formulario db f -> forallb is_ascii f = true ->
  es_presente db (Some f) = false.
Proof.
  intros Hf Ha. unfold es_presente, lower. rewrite Ha.
  destruct (str_eqb (map ascii_lower f) (u "presente")) eqn:E; [|reflexivity].
  apply str_eqb_eq in E. apply (f_equal (@length N)) in E.
  rewrite length_map in E.
  destruct Hf as (a & mm & -> & (x & y & Hy & _) & Hm).
  destruct Hy as [->| ->]; destruct Hm as [(z & -> & _)|(z & -> & _)];
    discriminate.
Qed.

Lemma etiquetado_duracion t i f :
  decimales_bien db -> trabajo_etiquetado db ahora t ->
  fecha_inicio t = Some i -> fecha_fin t = Some f ->
  fecha_de_formulario db f ->
  (exists n, duracion_meses t = Some n /\ (0 <= n)%Z)
  /\ (forallb is_ascii f = true ->
      exists di df,
        strptime_ym db (Some i) = Ok di /\ strptime_ym db (Some f) = Ok df
        /\ duracion_meses t = Some (meses_entre di df)).
Proof.
  intros Hdb ([Hi _] & _ & _ & Hd) Ei Ef Hf.
  rewrite Ei, Ef in Hd.
  destruct (fecha_de_formulario_no_vacia Hf) as [Htf Hnp].
  destruct (str_eqb f (u "presente")) eqn:Ep;
    [apply str_eqb_eq in Ep; contradiction|].
  rewrite calcular_duracion_meses_spec in Hd.
  destruct (strptime_de_formulario Hdb (Hi i Ei)) as (di & Edi).
  destruct (strptime_de_formulario Hdb Hf) as (df & Edf).
  rewrite Edi in Hd. unfold fecha_final, fin_abierto in Hd.
  cbn [truthy_opt] in Hd. rewrite Htf in Hd. cbn [negb orb] in Hd.
  split.
  - destruct (es_presente db (Some f)); [|rewrite Edf in Hd];
      inversion Hd as [Hn]; eexists; (split; [reflexivity|]);
      unfold meses_entre; lia.
  - intros Ha. rewrite (formulario_no_presente Hf Ha), Edf in Hd.
    inversion Hd as [Hn]. exists di, df. auto.
Qed.

(** X24: where the decimal digits of the database have the values 0 to
    9, a job of the official form with a start and with an end that is a
    year, a hyphen and a month always has a duration, which is not
    negative; when that end is ASCII, both dates are read by [strptime]
    and the duration is max(0, (end.year - start.year) * 12 +
    (end.month - start.month)). *)
Theorem extraer_experiencia_formulario_duracion :
  forall lineas l,
    decimales_bien db ->
    _extraer_experiencia_formulario db ahora lineas = Ok l ->
    Forall
      (fun t =>
         forall i f,
           fecha_inicio t = Some i -> fecha_fin t = Some f ->
           fecha_de_formulario db f ->
           (exists n, duracion_meses t = Some n /\ (0 <= n)%Z)
           /\ (forallb is_ascii f = true ->
               exists di df,
                 strptime_ym db (Some i) = Ok di
                 /\ strptime_ym db (Some f) = Ok df
                 /\ duracion_meses t = Some (meses_entre di df))) l.
Proof.
  intros lineas l Hdb E.
  destruct (extraer_experiencia_formulario_bien lineas) as (l' & E' & H).
  rewrite E in E'. inversion E'; subst l'. clear E'.
  destruct H as [[_ H]|H]; apply Forall_forall; intros t Ht i f Ei Ef Hf.
  - rewrite Forall_forall in H.
    exact (etiquetado_duracion Hdb (H t Ht) Ei Ef Hf).
  - rewrite Forall_forall in H.
    destruct (H t Ht) as (_ & _ & _ & _ & _ & Hfin).
    exfalso. exact (forma_anio_no_formulario (Hfin f Ef) Hf).
Qed.

Lemma etiquetados_no_negativo l :
  Forall (trabajo_etiquetado db ahora) l -> (0 <= total_meses l)%Z.
Proof.
  induction 1 as [|t l (_ & _ & _ & Hd) _ IH]; simpl; [lia|].
  assert (0 <= meses_de t)%Z; [|lia].
  unfold meses_de.
  destruct (fecha_inicio t) as [i|]; [|rewrite Hd; lia].
  destruct (fecha_fin t) as [f|]; [|rewrite Hd; lia].
  destruct (str_eqb f (u "presente")); [rewrite Hd; lia|].
  destruct (calcular_duracion_meses_total db ahora (Some i) (Some f))
    as (r & Er & Hr).
  rewrite Er in Hd. inversion Hd as [Hd']. rewrite <- Hd'.
  destruct r; lia.
Qed.

Lemma heuristicos_sin_meses l :
  Forall (trabajo_heuristico db) l -> total_meses l = 0%Z.
Proof.
  induction 1 as [|t l (_ & _ & Hd & _) _ IH]; simpl; [reflexivity|].
  unfold meses_de. rewrite Hd, IH. reflexivity.
Qed.

(** X25: the experience fields of the result of the parser of the
    official form.  The parser reads the jobs of the section
    "experiencia_laboral" without an error and counts them; the years of
    experience are not negative, and they are 0 whenever the jobs come
    from the fallback pass, whatever years its lines show. *)
Theorem parsear_cv_funcion_publica_experiencia :
  forall texto,
    exists l a,
      parsear_cv_funcion_publica db ahora texto = Ok (l, a, length l)
      /\ a = calcular_anios_experiencia l
      /\ (0 <= a)%Z
      /\ ((l <> [] /\ Forall (trabajo_etiquetado db ahora) l)
          \/ (Forall (trabajo_heuristico db) l /\ a = 0%Z)).
Proof.
  intros texto. unfold parsear_cv_funcion_publica. cbv zeta.
  destruct (extraer_experiencia_formulario_bien
              (dict_get_or
                 (_dividir_secciones_formulario db
                    (map (strip db) (split_on 10 texto)))
                 (u "experiencia_laboral") [])) as (l & E & H).
  rewrite E. cbn [bind]. exists l, (calcular_anios_experiencia l).
  split; [reflexivity|]. split; [reflexivity|].
  unfold calcular_anios_experiencia. rewrite suma_meses, Z.add_0_l.
  destruct H as [[Hn H]|H].
  - split; [|left; auto].
    apply round_decimas_12. now apply etiquetados_no_negativo.
  - rewrite (heuristicos_sin_meses H). split; [reflexivity|].
    right. split; [exact H|reflexivity].
Qed.

End MasTrabajosFormulario.

Lemma decimales_basico : decimales_bien ucd_basico.
Proof.
  intros c. unfold isdecimal, todecimal, is_ascii, in_range.
  destruct (c <? 128)%N; [|discriminate].
  intros H. apply andb_prop in H. destruct H as [H1 H2].
  apply N.leb_le in H1. apply N.leb_le in H2. lia.
Qed.

Lemma extraer_experiencia_formulario_duracion_witness :
  Forall
    (fun t =>
       forall i f,
         fecha_inicio t = Some i -> fecha_fin t = Some f ->
         fecha_de_formulario ucd_basico f ->
         (exists n, duracion_meses t = Some n /\ (0 <= n)%Z)
         /\ (forallb is_ascii f = true ->
             exists di df,
               strptime_ym ucd_basico (Some i) = Ok di
               /\ strptime_ym ucd_basico (Some f) = Ok df
               /\ duracion_meses t = Some (meses_entre di df)))
    [ {| empresa := Some (u "ACME LTDA");
         cargo := Some (u "Analista");
         fecha_inicio := Some (u "2020-03");
         fecha_fin := Some (u "2021-12");
         duracion_meses := Some 21%Z;
         responsabilidades := [] |} ].
Proof.
  apply (@extraer_experiencia_formulario_duracion ucd_basico (2026, 11)%Z
           [ u "EMPRESA"; u "ACME LTDA"; u "CARGO"; u "Analista";
             u "DESDE 03 2020"; u "HASTA 12 2021" ]).
  - exact decimales_basico.
  - vm_compute. reflexivity.
Defined.

(** *** From the segmenter to the structured result *)

Section MasComposicion.

Variable db : UCD.
Variable env : nlp_env.
Variable ahora : Z * Z.

(** X12: the two steps of the pipeline for a free text compose: the
    section map of the segmenter has the six keys the entry point reads,
    so that no default is ever used, the entry point returns on it, and
    the profile and the references of the result are the segmenter's
    sections as they are, the second strip changing nothing. *)
Theorem dividir_y_estructurar :
  forall texto texto_crudo,
    exists d r,
      dividir_secciones db texto = Ok d
      /\ estructurar_cv db env ahora d texto_crudo = Ok r
      /\ (forall sec, In sec SECCIONES_PRINCIPALES ->
                      exists blob, dict_get d sec = Some blob)
      /\ dict_get d (u "perfil") = Some (perfil_resumen r)
      /\ dict_get d (u "referencias") = Some (referencias r).
Proof.
  intros texto texto_crudo.
  destruct (dividir_secciones_estructura db texto) as (acc & E & Hk & _).
  destruct acc as [|[k1 v1] [|[k2 v2] [|[k3 v3] [|[k4 v4] [|[k5 v5]
                   [|[k6 v6] [|kv7 a]]]]]]]; try discriminate.
  cbn [map fst] in Hk. inversion Hk; subst. clear Hk.
  cbn [map fst snd] in E.
  eexists. 
  destruct (parsear_experiencia_ok db env ahora (strip db (join NL v2)))
    as (e & He).
  destruct (parsear_educacion_ok db (strip db (join NL v3))) as (ed & Hed).
  eexists. split; [exact E|]. split.
  - unfold estructurar_cv.
    change (dict_get_or _ (u "experiencia") [])
      with (strip db (join NL v2)).
    change (dict_get_or _ (u "educacion") [])
      with (strip db (join NL v3)).
    rewrite He, Hed. cbn [bind]. reflexivity.
  - cbn [perfil_resumen referencias]. split; [|split].
    + intros sec Hs. simpl in Hs.
      repeat (destruct Hs as [<-|Hs]; [eexists; reflexivity|]).
      contradiction.
    + change (dict_get_or _ (u "perfil") []) with (strip db (join NL v1)).
      rewrite strip_strip. reflexivity.
    + change (dict_get_or _ (u "referencias") [])
        with (strip db (join NL v6)).
      rewrite strip_strip. reflexivity.
Qed.

End MasComposicion.
